(** * openskill: the manifest store, its lock, the repository cache and the
      install orchestrator

    A shallow embedding of
      - [src/core/manifest.ts]  (lock marker, manifest load/save/upsert/remove),
      - [src/core/registry.ts]  (repository cache load),
      - [src/core/skill.ts]     (skill name and description validation),
      - [src/agents/base.ts]    (install and uninstall of a skill directory),
      - [src/cli/install.ts]    (the install loop and its rollback),
      - [src/cli/uninstall.ts]  (the loop of [uninstall --all]),
      - [src/utils/fs.ts]       (the discovery of skill directories),
    the properties the specification states about them, and further
    properties of the code.

    Effects are modelled with a state-and-exception monad over a record
    [World] that holds the files the code touches, the clock, the process
    table and a trace of the file-system and agent calls. *)

From Stdlib Require Import ZArith QArith Lqa String Ascii List Bool Lia DecimalString.
From Stdlib Require DecimalFacts DecimalPos.
From stdpp Require Import base gmap strings list.
Import ListNotations.

Set Warnings "-register-all".

Local Open Scope string_scope.
Local Open Scope Z_scope.

(** ** JSON values and [JSON.parse]

    A JSON number is kept as an exact rational (the value of its decimal
    literal); rounding to a double is not modelled.  Strings are byte
    strings: an escape [\uXXXX] below 128 is the ASCII character, a larger
    one is stored as the UTF-8 bytes of that code unit. *)

Module Json.

Inductive json : Type :=
| JNull
| JBool (b : bool)
| JNum (q : Q)
| JStr (s : string)
| JArr (l : list json)
| JObj (fields : list (string * json)).

Definition dquote : ascii := "034"%char.
Definition backslash : ascii := "092"%char.

Definition code (c : ascii) : Z := Z.of_N (N_of_ascii c).
Definition chr (z : Z) : ascii := ascii_of_N (Z.to_N z).

Definition is_digit (c : ascii) : bool := (48 <=? code c) && (code c <=? 57).
Definition digit_val (c : ascii) : Z := code c - 48.

(** JSON white space: space, tab, line feed, carriage return. *)
Definition is_json_ws (c : ascii) : bool :=
  (code c =? 32) || (code c =? 9) || (code c =? 10) || (code c =? 13).

Fixpoint skip_ws (s : string) : string :=
  match s with
  | String c rest => if is_json_ws c then skip_ws rest else s
  | EmptyString => s
  end.

(** [starts_with c s]: the rest of [s] after its first character [c]. *)
Definition starts_with (c : ascii) (s : string) : option string :=
  match s with
  | String c' rest => if Ascii.eqb c c' then Some rest else None
  | EmptyString => None
  end.

(** [strip_prefix p s]: the rest of [s] after its prefix [p]. *)
Fixpoint strip_prefix (p s : string) : option string :=
  match p with
  | EmptyString => Some s
  | String a p' =>
      match s with
      | String b s' => if Ascii.eqb a b then strip_prefix p' s' else None
      | EmptyString => None
      end
  end.

(** [read_digits s acc n]: the longest run of decimal digits at the head of
    [s], folded into [acc]; returns the value, the number of digits read
    (added to [n]) and the rest. *)
Fixpoint read_digits (s : string) (acc : Z) (n : nat) : Z * nat * string :=
  match s with
  | String c rest =>
      if is_digit c then read_digits rest (10 * acc + digit_val c) (S n)
      else (acc, n, s)
  | EmptyString => (acc, n, s)
  end.

(** The integer part of a JSON number: [0] or a digit run without a leading
    zero. *)
Definition read_int_part (s : string) : option (Z * string) :=
  match s with
  | String c rest =>
      if (code c =? 48) then Some (0, rest)
      else if is_digit c then
        let '(v, _, rest') := read_digits s 0 0 in Some (v, rest')
      else None
  | EmptyString => None
  end.

Definition read_frac_part (s : string) : option (Z * nat * string) :=
  match starts_with "." s with
  | Some rest =>
      let '(v, n, rest') := read_digits rest 0 0 in
      match n with
      | O => None
      | _ => Some (v, n, rest')
      end
  | None => Some (0, O, s)
  end.

Definition read_exp_digits (s : string) : option (Z * string) :=
  let '(v, n, rest) := read_digits s 0 0 in
  match n with
  | O => None
  | _ => Some (v, rest)
  end.

Definition read_exp_part (s : string) : option (Z * string) :=
  match s with
  | String c rest =>
      if (code c =? 101) || (code c =? 69) then
        match starts_with "+" rest with
        | Some rest' => read_exp_digits rest'
        | None =>
            match starts_with "-" rest with
            | Some rest' =>
                match read_exp_digits rest' with
                | Some (v, r) => Some (- v, r)
                | None => None
                end
            | None => read_exp_digits rest
            end
        end
      else Some (0, s)
  | EmptyString => Some (0, s)
  end.

(** The value [m * 10^e] as a reduced rational. *)
Definition decimal (m e : Z) : Q :=
  if 0 <=? e then inject_Z (m * 10 ^ e)
  else Qred (Qmake m (Z.to_pos (10 ^ (- e)))).

Definition parse_number (s : string) : option (Q * string) :=
  let '(neg, s1) :=
    match starts_with "-" s with
    | Some rest => (true, rest)
    | None => (false, s)
    end in
  match read_int_part s1 with
  | None => None
  | Some (ip, s2) =>
      match read_frac_part s2 with
      | None => None
      | Some (fp, fn, s3) =>
          match read_exp_part s3 with
          | None => None
          | Some (ex, s4) =>
              let m := ip * 10 ^ Z.of_nat fn + fp in
              let m := if neg then - m else m in
              Some (decimal m (ex - Z.of_nat fn), s4)
          end
      end
  end.

Definition hex_val (c : ascii) : option Z :=
  let n := code c in
  if (48 <=? n) && (n <=? 57) then Some (n - 48)
  else if (97 <=? n) && (n <=? 102) then Some (n - 87)
  else if (65 <=? n) && (n <=? 70) then Some (n - 55)
  else None.

(** The bytes that stand for the code unit [u] (reversed, for an
    accumulator). *)
Definition code_unit_bytes_rev (u : Z) : list ascii :=
  if u <? 128 then [chr u]
  else if u <? 2048 then [chr (128 + u mod 64); chr (192 + u / 64)]
  else [chr (128 + u mod 64); chr (128 + (u / 64) mod 64); chr (224 + u / 4096)].

(** The characters of a string literal after its opening quote, up to and
    including the closing quote. *)
Fixpoint parse_string_chars (s : string) (acc : list ascii) : option (string * string) :=
  match s with
  | EmptyString => None
  | String c rest =>
      if Ascii.eqb c dquote then Some (string_of_list_ascii (rev acc), rest)
      else if Ascii.eqb c backslash then
        match rest with
        | String e rest' =>
            if Ascii.eqb e "u" then
              match rest' with
              | String h1 (String h2 (String h3 (String h4 rest''))) =>
                  match hex_val h1, hex_val h2, hex_val h3, hex_val h4 with
                  | Some a, Some b, Some c', Some d =>
                      parse_string_chars rest''
                        (code_unit_bytes_rev (((a * 16 + b) * 16 + c') * 16 + d) ++ acc)
                  | _, _, _, _ => None
                  end
              | _ => None
              end
            else if Ascii.eqb e dquote then parse_string_chars rest' (dquote :: acc)
            else if Ascii.eqb e backslash then parse_string_chars rest' (backslash :: acc)
            else if (code e =? 47) then parse_string_chars rest' ("/"%char :: acc)
            else if (code e =? 98) then parse_string_chars rest' (chr 8 :: acc)
            else if (code e =? 102) then parse_string_chars rest' (chr 12 :: acc)
            else if (code e =? 110) then parse_string_chars rest' (chr 10 :: acc)
            else if (code e =? 114) then parse_string_chars rest' (chr 13 :: acc)
            else if (code e =? 116) then parse_string_chars rest' (chr 9 :: acc)
            else None
        | EmptyString => None
        end
      else if code c <? 32 then None
      else parse_string_chars rest (c :: acc)
  end.

(** Recursive descent over the JSON grammar: a value, the elements of an
    array after its opening bracket, the members of an object after its
    opening brace.  The three steps take the parsers they call as
    arguments. *)
Definition value_step
    (elements : string -> list json -> option (json * string))
    (members : string -> list (string * json) -> option (json * string))
    (s : string) : option (json * string) :=
  let s' := skip_ws s in
  match starts_with "{" s' with
  | Some rest =>
      match starts_with "}" (skip_ws rest) with
      | Some rest' => Some (JObj [], rest')
      | None => members rest []
      end
  | None =>
  match starts_with "[" s' with
  | Some rest =>
      match starts_with "]" (skip_ws rest) with
      | Some rest' => Some (JArr [], rest')
      | None => elements rest []
      end
  | None =>
  match starts_with dquote s' with
  | Some rest =>
      match parse_string_chars rest [] with
      | Some (str, rest') => Some (JStr str, rest')
      | None => None
      end
  | None =>
  match strip_prefix "true" s' with
  | Some rest => Some (JBool true, rest)
  | None =>
  match strip_prefix "false" s' with
  | Some rest => Some (JBool false, rest)
  | None =>
  match strip_prefix "null" s' with
  | Some rest => Some (JNull, rest)
  | None =>
  match parse_number s' with
  | Some (q, rest) => Some (JNum q, rest)
  | None => None
  end end end end end end end.

Definition elements_step
    (value : string -> option (json * string))
    (elements : string -> list json -> option (json * string))
    (s : string) (acc : list json) : option (json * string) :=
  match value s with
  | Some (v, rest) =>
      match starts_with "," (skip_ws rest) with
      | Some rest' => elements rest' (v :: acc)
      | None =>
          match starts_with "]" (skip_ws rest) with
          | Some rest' => Some (JArr (rev (v :: acc)), rest')
          | None => None
          end
      end
  | None => None
  end.

Definition members_step
    (value : string -> option (json * string))
    (members : string -> list (string * json) -> option (json * string))
    (s : string) (acc : list (string * json)) : option (json * string) :=
  match starts_with dquote (skip_ws s) with
  | Some rest =>
      match parse_string_chars rest [] with
      | Some (key, rest1) =>
          match starts_with ":" (skip_ws rest1) with
          | Some rest2 =>
              match value rest2 with
              | Some (v, rest3) =>
                  match starts_with "," (skip_ws rest3) with
                  | Some rest4 => members rest4 ((key, v) :: acc)
                  | None =>
                      match starts_with "}" (skip_ws rest3) with
                      | Some rest4 => Some (JObj (rev ((key, v) :: acc)), rest4)
                      | None => None
                      end
                  end
              | None => None
              end
          | None => None
          end
      | None => None
      end
  | None => None
  end.

(** Every call spends one unit of fuel.  [2 * length + 2] units are enough
    for any text (see [parse_value_fuel]). *)
Fixpoint parse_value (fuel : nat) (s : string) {struct fuel} : option (json * string) :=
  match fuel with
  | O => None
  | S fuel' => value_step (parse_elements fuel') (parse_members fuel') s
  end
with parse_elements (fuel : nat) (s : string) (acc : list json) {struct fuel}
  : option (json * string) :=
  match fuel with
  | O => None
  | S fuel' => elements_step (parse_value fuel') (parse_elements fuel') s acc
  end
with parse_members (fuel : nat) (s : string) (acc : list (string * json)) {struct fuel}
  : option (json * string) :=
  match fuel with
  | O => None
  | S fuel' => members_step (parse_value fuel') (parse_members fuel') s acc
  end.

(** [JSON.parse]: [None] stands for the SyntaxError it throws. *)
Definition parse (text : string) : option json :=
  match parse_value (2 * String.length text + 2) text with
  | Some (v, rest) =>
      match skip_ws rest with
      | EmptyString => Some v
      | _ => None
      end
  | None => None
  end.

(** Property access [v.key] on a parsed value: [None] is [undefined].  In an
    object literal with a repeated key the last one wins. *)
Fixpoint last_field (key : string) (fields : list (string * json)) (found : option json)
  : option json :=
  match fields with
  | [] => found
  | (k, v) :: rest =>
      last_field key rest (if String.eqb k key then Some v else found)
  end.

Definition get (v : json) (key : string) : option json :=
  match v with
  | JObj fields => last_field key fields None
  | _ => None
  end.

(** Decimal rendering of an integer, as [JSON.stringify] prints it. *)
Definition show_Z (z : Z) : string :=
  NilZero.string_of_int (Z.to_int z).

Definition quoted (s : string) : string :=
  String dquote (s ++ String dquote EmptyString).

End Json.

Import Json.

(** ** Data model ([src/core/manifest.ts], [src/agents/types.ts]) *)

Inductive InstallScope : Type := project | global.

Definition InstallScope_eqb (a b : InstallScope) : bool :=
  match a, b with
  | project, project | global, global => true
  | _, _ => false
  end.

#[global] Instance InstallScope_eq_dec : EqDecision InstallScope.
Proof. solve_decision. Defined.

#[global] Instance InstallScope_countable : Countable InstallScope.
Proof.
  refine (inj_countable' (fun s => match s with project => false | global => true end)
                         (fun b => if b then global else project) _).
  by intros [].
Defined.

Record InstalledSkillRecord : Type := {
  name : string;
  agent : string;
  repoOwner : string;
  repoName : string;
  repoPath : option string;
  commitHash : string;
  installedAt : string;
  scope : option InstallScope;
}.

Record Manifest : Type := {
  version : Z;
  skills : list InstalledSkillRecord;
}.

Definition MANIFEST_VERSION : Z := 1.
Definition LOCK_TIMEOUT_MS : Z := 5000.
Definition LOCK_RETRY_MS : Z := 50.
Definition LOCK_STALE_MS : Z := 30000.

Record LockInfo : Type := {
  pid : Q;
  timestamp : Q;
}.

(** The [skill.frontmatter] of a parsed SKILL.md, as far as the install loop
    reads it. *)
Record ParsedSkill : Type := {
  frontmatter_name : string;
  frontmatter_description : string;
}.

Record SkillInfo : Type := {
  info_name : string;
  info_path : string;
}.

(** ** The world the code runs in

    One process runs; during a call no other process changes the files.
    The clock moves when the process sleeps and stands still otherwise. *)

Inductive Platform : Type := win32 | posix.

(** What [process.kill(pid, 0)] finds for a process id. *)
Inductive ProcState : Type :=
| NoSuchProcess    (* ESRCH *)
| Signalable       (* the call returns *)
| NotPermitted.    (* the process runs, the call throws EPERM *)

(** The text of manifest.json (and of its temporary sibling), read through
    [JSON.parse] and the structural check of [loadManifest].
    [JSON.stringify] followed by [JSON.parse] is the identity on manifests,
    so a document is kept as its value.  Its rows are taken at their
    TypeScript type [InstalledSkillRecord], its version as an integer. *)
Inductive ManifestText : Type :=
| Unparseable                (* [JSON.parse] throws *)
| WrongShape                 (* [version] is no number or [skills] is no array *)
| Document (m : Manifest).

(** A failure of the disk while the manifest is saved. *)
Inductive DiskFault : Type :=
| NoFault
| WriteFails (residue : option ManifestText)
      (* [writeFileSync] throws and leaves [residue] at the path it wrote to *)
| RenameFails.
      (* [renameSync] throws and changes nothing *)

Inductive File : Type :=
| LockFile
| ManifestJson
| ManifestJsonTmp
| CacheFile (path : string).

Inductive Event : Type :=
| FsExists (f : File)
| FsRead (f : File)
| FsWrite (f : File)
| FsWriteExcl (f : File)
| FsRename (src dst : File)
| FsUnlink (f : File)
| FsMkdir
| Slept (ms : Z)
| AgentInstall (agentName skillName : string) (sc : InstallScope)
| AgentUninstall (agentName skillName : string) (sc : InstallScope).

Inductive Error : Type :=
| Errno (code : string)        (* a system error and its [code] *)
| JsError (message : string)   (* [new Error(message)] *)
| TypeError
| OutOfFuel.                   (* the model's loop bound was reached *)

Record World : Type := {
  (* files under the configuration directory *)
  configDir : bool;
  lockFile : option string;
  manifestFile : option ManifestText;
  manifestTmp : option ManifestText;
  repoCache : gmap string string;
  (* skill directories of the agents: (agent, scope, skill name) *)
  skillDirs : gset (string * InstallScope * string);
  (* cloned repositories: the SKILL.md found at a path, when it parses *)
  skillSources : gmap string ParsedSkill;
  (* targets whose skill directory cannot be written *)
  brokenTargets : gset string;
  diskFault : DiskFault;
  (* the process and its environment *)
  clock : Z;
  platform : Platform;
  processTable : Z -> ProcState;
  process_pid : Z;
  homedir : string;
  trace : list Event;
}.

Definition set_configDir (v : bool) (w : World) : World :=
  {| configDir := v; lockFile := lockFile w; manifestFile := manifestFile w;
     manifestTmp := manifestTmp w; repoCache := repoCache w; skillDirs := skillDirs w;
     skillSources := skillSources w; brokenTargets := brokenTargets w;
     diskFault := diskFault w; clock := clock w; platform := platform w;
     processTable := processTable w; process_pid := process_pid w;
     homedir := homedir w; trace := trace w |}.

Definition set_lockFile (v : option string) (w : World) : World :=
  {| configDir := configDir w; lockFile := v; manifestFile := manifestFile w;
     manifestTmp := manifestTmp w; repoCache := repoCache w; skillDirs := skillDirs w;
     skillSources := skillSources w; brokenTargets := brokenTargets w;
     diskFault := diskFault w; clock := clock w; platform := platform w;
     processTable := processTable w; process_pid := process_pid w;
     homedir := homedir w; trace := trace w |}.

Definition set_manifestFile (v : option ManifestText) (w : World) : World :=
  {| configDir := configDir w; lockFile := lockFile w; manifestFile := v;
     manifestTmp := manifestTmp w; repoCache := repoCache w; skillDirs := skillDirs w;
     skillSources := skillSources w; brokenTargets := brokenTargets w;
     diskFault := diskFault w; clock := clock w; platform := platform w;
     processTable := processTable w; process_pid := process_pid w;
     homedir := homedir w; trace := trace w |}.

Definition set_manifestTmp (v : option ManifestText) (w : World) : World :=
  {| configDir := configDir w; lockFile := lockFile w; manifestFile := manifestFile w;
     manifestTmp := v; repoCache := repoCache w; skillDirs := skillDirs w;
     skillSources := skillSources w; brokenTargets := brokenTargets w;
     diskFault := diskFault w; clock := clock w; platform := platform w;
     processTable := processTable w; process_pid := process_pid w;
     homedir := homedir w; trace := trace w |}.

Definition set_skillDirs (v : gset (string * InstallScope * string)) (w : World) : World :=
  {| configDir := configDir w; lockFile := lockFile w; manifestFile := manifestFile w;
     manifestTmp := manifestTmp w; repoCache := repoCache w; skillDirs := v;
     skillSources := skillSources w; brokenTargets := brokenTargets w;
     diskFault := diskFault w; clock := clock w; platform := platform w;
     processTable := processTable w; process_pid := process_pid w;
     homedir := homedir w; trace := trace w |}.

Definition set_clock (v : Z) (w : World) : World :=
  {| configDir := configDir w; lockFile := lockFile w; manifestFile := manifestFile w;
     manifestTmp := manifestTmp w; repoCache := repoCache w; skillDirs := skillDirs w;
     skillSources := skillSources w; brokenTargets := brokenTargets w;
     diskFault := diskFault w; clock := v; platform := platform w;
     processTable := processTable w; process_pid := process_pid w;
     homedir := homedir w; trace := trace w |}.

(** Every call of the file system or of an agent is appended to the trace. *)
Definition emit (e : Event) (w : World) : World :=
  {| configDir := configDir w; lockFile := lockFile w; manifestFile := manifestFile w;
     manifestTmp := manifestTmp w; repoCache := repoCache w; skillDirs := skillDirs w;
     skillSources := skillSources w; brokenTargets := brokenTargets w;
     diskFault := diskFault w; clock := clock w; platform := platform w;
     processTable := processTable w; process_pid := process_pid w;
     homedir := homedir w; trace := trace w ++ [e] |}.

(** ** The monad: state and exceptions *)

Inductive Result (A : Type) : Type :=
| Ok (a : A)
| Throw (e : Error).
Arguments Ok {A} a.
Arguments Throw {A} e.

Definition M (A : Type) : Type := World -> Result A * World.

Definition ret {A} (a : A) : M A := fun w => (Ok a, w).

Definition bind {A B} (m : M A) (k : A -> M B) : M B :=
  fun w =>
    match m w with
    | (Ok a, w') => k a w'
    | (Throw e, w') => (Throw e, w')
    end.

Definition throw {A} (e : Error) : M A := fun w => (Throw e, w).

(** [try { m } catch (e) { h e }] *)
Definition try_catch {A} (m : M A) (h : Error -> M A) : M A :=
  fun w =>
    match m w with
    | (Ok a, w') => (Ok a, w')
    | (Throw e, w') => h e w'
    end.

(** [try { m } finally { fin }] *)
Definition try_finally {A} (m : M A) (fin : M unit) : M A :=
  fun w =>
    match m w with
    | (r, w') =>
        match fin w' with
        | (Ok _, w'') => (r, w'')
        | (Throw e, w'') => (Throw e, w'')
        end
    end.

Declare Scope monad_scope.
Delimit Scope monad_scope with monad.
Notation "x <- m ;; k" := (bind m (fun x => k))
  (at level 100, m at next level, right associativity) : monad_scope.
Notation "m ;; k" := (bind m (fun _ => k))
  (at level 100, right associativity) : monad_scope.
Local Open Scope monad_scope.

Definition gets {A} (f : World -> A) : M A := fun w => (Ok (f w), w).
Definition modify (f : World -> World) : M unit := fun w => (Ok tt, f w).
Definition event (e : Event) : M unit := modify (emit e).

(** ** Node primitives, as the code calls them *)

Definition Date_now : M Z := gets clock.

(** [sleepSync(ms)] ([manifest.ts], l.102): the clock moves by [ms]. *)
Definition sleepSync (ms : Z) : M unit :=
  event (Slept ms) ;; modify (fun w => set_clock (clock w + ms) w).

(** [ensureConfigDir()] ([config.ts], l.71). *)
Definition ensureConfigDir : M unit :=
  ex <- gets configDir ;;
  if ex then ret tt else event FsMkdir ;; modify (set_configDir true).

(** [writeFileSync(getLockPath(), content, { flag: "wx" })] *)
Definition writeFileSync_wx_lock (content : string) : M unit :=
  event (FsWriteExcl LockFile) ;;
  cur <- gets lockFile ;;
  match cur with
  | Some _ => throw (Errno "EEXIST")
  | None =>
      dir <- gets configDir ;;
      if dir then modify (set_lockFile (Some content)) else throw (Errno "ENOENT")
  end.

(** [readFileSync(getLockPath(), "utf-8")] *)
Definition readFileSync_lock : M string :=
  event (FsRead LockFile) ;;
  cur <- gets lockFile ;;
  match cur with
  | Some content => ret content
  | None => throw (Errno "ENOENT")
  end.

(** [unlinkSync(getLockPath())] *)
Definition unlinkSync_lock : M unit :=
  event (FsUnlink LockFile) ;;
  cur <- gets lockFile ;;
  match cur with
  | Some _ => modify (set_lockFile None)
  | None => throw (Errno "ENOENT")
  end.

(** [existsSync(getManifestPath())] *)
Definition existsSync_manifest : M bool :=
  event (FsExists ManifestJson) ;;
  cur <- gets manifestFile ;;
  ret (match cur with Some _ => true | None => false end).

(** [readFileSync(getManifestPath(), "utf-8")] *)
Definition readFileSync_manifest : M ManifestText :=
  event (FsRead ManifestJson) ;;
  cur <- gets manifestFile ;;
  match cur with
  | Some content => ret content
  | None => throw (Errno "ENOENT")
  end.

(** [writeFileSync(tempPath, content, "utf-8")] *)
Definition writeFileSync_tmp (content : ManifestText) : M unit :=
  event (FsWrite ManifestJsonTmp) ;;
  fault <- gets diskFault ;;
  match fault with
  | WriteFails residue => modify (set_manifestTmp residue) ;; throw (Errno "EIO")
  | _ => modify (set_manifestTmp (Some content))
  end.

(** [renameSync(tempPath, path)]: the file at [path] is replaced in one
    step. *)
Definition renameSync_tmp : M unit :=
  event (FsRename ManifestJsonTmp ManifestJson) ;;
  fault <- gets diskFault ;;
  match fault with
  | RenameFails => throw (Errno "EIO")
  | _ =>
      tmp <- gets manifestTmp ;;
      match tmp with
      | Some content =>
          modify (fun w => set_manifestTmp None (set_manifestFile (Some content) w))
      | None => throw (Errno "ENOENT")
      end
  end.

(** [process.kill(pid, 0)]: Node refuses a [pid] that is no 32-bit integer
    with a TypeError; otherwise the process table decides. *)
Definition Qint (q : Q) : option Z :=
  let r := Qred q in
  if (Z.pos (Qden r) =? 1) then Some (Qnum r) else None.

Definition process_kill0 (p : Q) : M unit :=
  tbl <- gets processTable ;;
  match Qint p with
  | Some z =>
      if (- 2147483648 <=? z) && (z <=? 2147483647) then
        match tbl z with
        | Signalable => ret tt
        | NoSuchProcess => throw (Errno "ESRCH")
        | NotPermitted => throw (Errno "EPERM")
        end
      else throw TypeError
  | None => throw TypeError
  end.

(** ** [src/core/manifest.ts] *)

(** [parseInt(content, 10)]: leading white space, an optional sign, then the
    longest run of digits; [None] is NaN.  (Of the white space JavaScript
    skips, the ASCII characters are modelled.) *)
Definition is_js_ws (c : ascii) : bool :=
  let n := code c in
  (n =? 32) || ((9 <=? n) && (n <=? 13)).

Fixpoint skip_js_ws (s : string) : string :=
  match s with
  | String c rest => if is_js_ws c then skip_js_ws rest else s
  | EmptyString => s
  end.

Definition parseInt_digits (s : string) : option Z :=
  let '(v, n, _) := read_digits s 0 0 in
  match n with
  | O => None
  | _ => Some v
  end.

Definition parseInt (s : string) : option Z :=
  match skip_js_ws s with
  | String "-" rest => option_map Z.opp (parseInt_digits rest)
  | String "+" rest => parseInt_digits rest
  | s' => parseInt_digits s'
  end.

(** [typeof v === "object" && v !== null] *)
Definition is_object (v : json) : bool :=
  match v with
  | JObj _ | JArr _ => true
  | _ => false
  end.

Definition parseLockInfo (content : string) : option LockInfo :=
  match parse content with
  | Some parsed =>
      if is_object parsed then
        match get parsed "pid", get parsed "timestamp" with
        | Some (JNum p), Some (JNum t) => Some {| pid := p; timestamp := t |}
        | _, _ => None
        end
      else None
  | None =>
      (* Invalid JSON, try legacy format (just PID) *)
      match parseInt content with
      | Some p => if 0 <? p then Some {| pid := inject_Z p; timestamp := 0 |} else None
      | None => None
      end
  end.

(** [JSON.stringify({ pid, timestamp })] for the marker the process writes. *)
Definition stringify_lock (p t : Z) : string :=
  "{" ++ quoted "pid" ++ ":" ++ show_Z p ++ "," ++ quoted "timestamp" ++ ":" ++ show_Z t ++ "}".

Definition isLockStale (lockInfo : LockInfo) : M bool :=
  if Qeq_bool (timestamp lockInfo) 0 then ret true
  else
    now <- Date_now ;;
    ret (negb (Qle_bool (inject_Z now - timestamp lockInfo) (inject_Z LOCK_STALE_MS))).

Definition isProcessRunning (p : Q) : M bool :=
  try_catch
    (if Qle_bool p 0 then ret false
     else
       pf <- gets platform ;;
       match pf with
       | win32 => ret (negb (Qle_bool p 0) && negb (Qle_bool (inject_Z 4194304) p))
       | posix => process_kill0 p ;; ret true
       end)
    (fun _ => ret false).

(** How one pass through the body of the loop of [acquireLock] ends. *)
Inductive Pass : Type :=
| Return (b : bool)   (* [return b] *)
| Continue            (* [continue], or the end of the body *)
| Backoff.            (* fell through to [sleepSync(LOCK_RETRY_MS)] *)

Definition is_errno (e : Error) (c : string) : bool :=
  match e with
  | Errno c' => String.eqb c' c
  | _ => false
  end.

Definition write_own_lock : M unit :=
  self <- gets process_pid ;;
  now <- Date_now ;;
  writeFileSync_wx_lock (stringify_lock self now).

Definition ignore_errors (m : M unit) : M unit :=
  try_catch m (fun _ => ret tt).

(** The body of the [while] loop (l.123-189). *)
Definition acquireLock_pass : M Pass :=
  try_catch
    (write_own_lock ;; ret (Return true))
    (fun err =>
       if is_errno err "EEXIST" then
         r <- try_catch
                (content <- readFileSync_lock ;;
                 match parseLockInfo content with
                 | Some lockInfo =>
                     self <- gets process_pid ;;
                     if Qeq_bool (pid lockInfo) (inject_Z self) then ret (Return true)
                     else
                       processAlive <- isProcessRunning (pid lockInfo) ;;
                       stale <- (if negb processAlive then ret true
                                 else isLockStale lockInfo) ;;
                       if stale then
                         try_catch
                           (unlinkSync_lock ;; write_own_lock ;; ret (Return true))
                           (fun _ => ret Continue)
                       else ret Backoff
                 | None =>
                     ignore_errors unlinkSync_lock ;; ret Continue
                 end)
                (fun _ => ignore_errors unlinkSync_lock ;; ret Continue) ;;
         match r with
         | Backoff => sleepSync LOCK_RETRY_MS ;; ret Continue
         | other => ret other
         end
       else
         ensureConfigDir ;; ret Continue).

Fixpoint acquireLock_loop (fuel : nat) (startTime : Z) : M bool :=
  match fuel with
  | O => throw OutOfFuel
  | S fuel' =>
      now <- Date_now ;;
      if now - startTime <? LOCK_TIMEOUT_MS then
        r <- acquireLock_pass ;;
        match r with
        | Return b => ret b
        | _ => acquireLock_loop fuel' startTime
        end
      else ret false
  end.

(** The loop runs while less than [LOCK_TIMEOUT_MS] have passed; a pass that
    neither returns nor sleeps removes the marker or creates the directory,
    so [LOCK_TIMEOUT_MS + 4] passes are never exceeded
    (see [acquireLock_returns]). *)
Definition acquireLock_fuel : nat := 4 + Z.to_nat LOCK_TIMEOUT_MS.

Definition acquireLock : M bool :=
  startTime <- Date_now ;;
  acquireLock_loop acquireLock_fuel startTime.

Definition releaseLock : M unit :=
  ignore_errors unlinkSync_lock.

Definition lock_error : Error :=
  JsError "Could not acquire manifest lock - another operation may be in progress".

Definition withLock {T} (fn : M T) : M T :=
  ok <- acquireLock ;;
  if negb ok then throw lock_error
  else try_finally fn releaseLock.

Definition migrateManifest (manifest : Manifest) : Manifest :=
  let current := manifest in
  {| version := MANIFEST_VERSION; skills := skills current |}.

Definition JSON_stringify (manifest : Manifest) : ManifestText := Document manifest.

Definition saveManifest (manifest : Manifest) : M unit :=
  ensureConfigDir ;;
  writeFileSync_tmp (JSON_stringify manifest) ;;
  renameSync_tmp.

Definition emptyManifest : Manifest :=
  {| version := MANIFEST_VERSION; skills := [] |}.

Definition loadManifest : M Manifest :=
  ex <- existsSync_manifest ;;
  if negb ex then ret emptyManifest
  else
    try_catch
      (content <- readFileSync_manifest ;;
       match content with
       | Unparseable => throw (JsError "SyntaxError")
       | WrongShape => ret emptyManifest
       | Document parsed =>
           if version parsed <? MANIFEST_VERSION then
             let migrated := migrateManifest parsed in
             saveManifest migrated ;;
             ret migrated
           else ret parsed
       end)
      (fun _ => ret emptyManifest).

(** [scope ?? "project"] *)
Definition scope_or_project (sc : option InstallScope) : InstallScope :=
  match sc with
  | Some s => s
  | None => project
  end.

(** [s.name === name && s.agent === agent && (s.scope ?? "project") === scope] *)
Definition same_key (nm ag : string) (sc : InstallScope) (s : InstalledSkillRecord) : bool :=
  String.eqb (name s) nm && String.eqb (agent s) ag
  && InstallScope_eqb (scope_or_project (scope s)) sc.

Definition with_skills (manifest : Manifest) (l : list InstalledSkillRecord) : Manifest :=
  {| version := version manifest; skills := l |}.

Definition addSkillRecord (record : InstalledSkillRecord) : M unit :=
  withLock
    (manifest <- loadManifest ;;
     let sc := scope_or_project (scope record) in
     let manifest :=
       with_skills manifest
         (List.filter (fun s => negb (same_key (name record) (agent record) sc s))
                      (skills manifest)) in
     let manifest := with_skills manifest (skills manifest ++ [record]) in
     saveManifest manifest).

(** The parameter [scope] defaults to ["project"]. *)
Definition removeSkillRecord (nm ag : string) (sc : option InstallScope) : M unit :=
  let sc := scope_or_project sc in
  withLock
    (manifest <- loadManifest ;;
     let manifest :=
       with_skills manifest
         (List.filter (fun s => negb (same_key nm ag sc s)) (skills manifest)) in
     saveManifest manifest).

Definition getSkillRecord (nm ag : string) (sc : option InstallScope)
  : M (option InstalledSkillRecord) :=
  manifest <- loadManifest ;;
  match sc with
  | Some sc' => ret (List.find (same_key nm ag sc') (skills manifest))
  | None =>
      ret (List.find (fun s => String.eqb (name s) nm && String.eqb (agent s) ag)
                     (skills manifest))
  end.

Definition getSkillsByAgent (ag : string) : M (list InstalledSkillRecord) :=
  manifest <- loadManifest ;;
  ret (List.filter (fun s => String.eqb (agent s) ag) (skills manifest)).

Definition getAllInstalledSkills : M (list InstalledSkillRecord) :=
  manifest <- loadManifest ;;
  ret (skills manifest).

(** ** [src/utils/fs.ts], [src/core/config.ts]: paths

    Paths are kept in normal form ([homedir] is absolute and has no trailing
    separator), so [join] is concatenation and [resolve] is the identity. *)

Definition sep : string := "/".
Definition join (a b : string) : string := a ++ sep ++ b.

Definition getConfigDir : M string :=
  h <- gets homedir ;; ret (join h ".openskill").

Definition getReposCacheDir : M string :=
  d <- getConfigDir ;; ret (join d "repos").

Definition isPathWithin (basePath targetPath : string) : bool :=
  String.eqb targetPath basePath || String.prefix (basePath ++ sep) targetPath.

Definition is_lower (c : ascii) : bool := (97 <=? code c) && (code c <=? 122).
Definition is_upper (c : ascii) : bool := (65 <=? code c) && (code c <=? 90).

(** [/^[a-zA-Z0-9_-]+$/.test(name) && name.length > 0 && name.length <= 100] *)
Definition is_config_name_char (c : ascii) : bool :=
  is_lower c || is_upper c || is_digit c || (code c =? 95) || (code c =? 45).

Definition isValidConfigRepoName (nm : string) : bool :=
  let cs := list_ascii_of_string nm in
  (forallb is_config_name_char cs && negb (Nat.eqb (List.length cs) 0))
  && (0 <? Z.of_nat (String.length nm)) && (Z.of_nat (String.length nm) <=? 100).

(** ** [src/core/registry.ts]: the repository cache *)

Definition getCachePath (repoName' : string) : M string :=
  if negb (isValidConfigRepoName repoName') then
    throw (JsError ("Invalid repository name: " ++ repoName'))
  else
    dir <- getReposCacheDir ;;
    let cachePath := join dir (repoName' ++ ".json") in
    if negb (isPathWithin dir cachePath) then
      throw (JsError ("Invalid cache path for repository: " ++ repoName'))
    else ret cachePath.

Definition existsSync_cache (path : string) : M bool :=
  event (FsExists (CacheFile path)) ;;
  files <- gets repoCache ;;
  ret (match files !! path with Some _ => true | None => false end).

Definition readFileSync_cache (path : string) : M string :=
  event (FsRead (CacheFile path)) ;;
  files <- gets repoCache ;;
  match files !! path with
  | Some content => ret content
  | None => throw (Errno "ENOENT")
  end.

(** The cached skills are returned as they were parsed. *)
Definition loadRepoCache (nm : string) : M (list json) :=
  cachePath <- getCachePath nm ;;
  ex <- existsSync_cache cachePath ;;
  if negb ex then ret []
  else
    try_catch
      (content <- readFileSync_cache cachePath ;;
       match parse content with
       | None => throw (JsError "SyntaxError")
       | Some JNull => throw TypeError          (* [cache.skills] on [null] *)
       | Some cache =>
           match get cache "skills" with
           | Some (JArr l) => ret l
           | _ => ret []
           end
       end)
      (fun _ => ret []).

(** ** [src/core/skill.ts]: validation *)

Definition is_skill_name_char (c : ascii) : bool :=
  is_lower c || is_digit c || (code c =? 45).

(** [/^[a-z][a-z0-9-]*[a-z0-9]$|^[a-z]$/] *)
Definition skill_name_regex (nm : string) : bool :=
  match list_ascii_of_string nm with
  | [] => false
  | [c] => is_lower c
  | c :: rest =>
      is_lower c
      && forallb is_skill_name_char (removelast rest)
      && (let l := List.last rest c in is_lower l || is_digit l)
  end.

Fixpoint includes_double_hyphen (s : string) : bool :=
  match s with
  | String "-" (String "-" _) => true
  | String _ rest => includes_double_hyphen rest
  | EmptyString => false
  end.

(** The error of the validation, [None] when the name is valid. *)
Definition validateSkillName (nm : string) : option string :=
  if Nat.eqb (String.length nm) 0 then Some "Name cannot be empty"
  else if 64 <? Z.of_nat (String.length nm) then Some "Name must be 64 characters or less"
  else if negb (skill_name_regex nm) then
    Some "Name must be lowercase letters, numbers, and hyphens; cannot start/end with hyphen"
  else if includes_double_hyphen nm then Some "Name cannot contain consecutive hyphens"
  else None.

Definition validateSkillDescription (description : string) : option string :=
  if Nat.eqb (String.length description) 0 then Some "Description cannot be empty"
  else if 1024 <? Z.of_nat (String.length description) then
    Some "Description must be 1024 characters or less"
  else None.

Definition loadSkillFromDir (skillDir : string) : M (option ParsedSkill) :=
  srcs <- gets skillSources ;; ret (srcs !! skillDir).

(** ** [src/agents/index.ts], [src/agents/base.ts] *)

Definition toLowerCase (s : string) : string :=
  string_of_list_ascii
    (List.map (fun c => if is_upper c then chr (code c + 32) else c) (list_ascii_of_string s)).

Definition agents : list string := ["claude"; "antigravity"; "codex"; "cursor"].

(** [getAgent(name)]: the registered agent, given by its [name]. *)
Definition getAgent (nm : string) : option string :=
  List.find (String.eqb (toLowerCase nm)) agents.

(** [agent.validateSkill(skill)]: the list of errors; valid when empty. *)
Definition validateSkill (skill : ParsedSkill) : list string :=
  ((match validateSkillName (frontmatter_name skill) with
    | Some e => [("name: " ++ e)%string]
    | None => []
    end)
   ++
   (match validateSkillDescription (frontmatter_description skill) with
    | Some e => [("description: " ++ e)%string]
    | None => []
    end))%list.

(** [agent.installSkill(skill, skillDir, undefined, scope)]: the skill
    directory of the target is replaced by a copy of [skillDir].  The call
    throws when [skillDir] is missing or the target cannot be written.  (The
    guards on a symbolic link and on a name that leaves the target directory
    are not modelled.) *)
Definition installSkill (agentName : string) (skill : ParsedSkill) (skillDir : string)
    (sc : InstallScope) : M unit :=
  event (AgentInstall agentName (frontmatter_name skill) sc) ;;
  srcs <- gets skillSources ;;
  match srcs !! skillDir with
  | None => throw (JsError ("Skill directory not found: " ++ skillDir))
  | Some _ =>
      broken <- gets brokenTargets ;;
      if decide (agentName ∈ broken) then throw (Errno "EACCES")
      else
        modify (fun w => set_skillDirs ({[ (agentName, sc, frontmatter_name skill) ]}
                                        ∪ skillDirs w) w)
  end.

(** [agent.uninstallSkill(name, undefined, scope)] *)
Definition uninstallSkill (agentName nm : string) (sc : InstallScope) : M bool :=
  event (AgentUninstall agentName nm sc) ;;
  dirs <- gets skillDirs ;;
  if decide ((agentName, sc, nm) ∈ dirs) then
    broken <- gets brokenTargets ;;
    if decide (agentName ∈ broken) then throw (Errno "EACCES")
    else
      modify (fun w => set_skillDirs (skillDirs w ∖ {[ (agentName, sc, nm) ]}) w) ;;
      ret true
  else ret false.

(** ** [src/cli/install.ts]: the install loop of [installFromGitHub] *)

Record InstallContext : Type := {
  owner : string;
  repo : string;
  ctx_commitHash : string;
}.

(** [new Date().toISOString()]; the instant is printed as its number of
    milliseconds, the calendar format is not modelled. *)
Definition toISOString (t : Z) : string := show_Z t.

(** [try { m } catch (e)] with the exception handed back as a value. *)
Definition attempt (m : M unit) : M (option Error) :=
  try_catch (m ;; ret None) (fun e => ret (Some e)).

(** The inner loop (l.296-336).  The local array [installedSkills] is passed
    along and returned together with the exception that left the loop, if
    any, for the [catch] block of l.338. *)
Fixpoint install_to_agents (context : InstallContext) (skillPath : option string)
    (sc : InstallScope) (skill : ParsedSkill) (skillInfo : SkillInfo)
    (selectedAgents : list string) (installedSkills : list (string * string))
  : M (list (string * string) * option Error) :=
  match selectedAgents with
  | [] => ret (installedSkills, None)
  | agentName :: rest =>
      let continue := install_to_agents context skillPath sc skill skillInfo rest in
      match getAgent agentName with
      | None => continue installedSkills
      | Some agent' =>
          match validateSkill skill with
          | _ :: _ => continue installedSkills
          | [] =>
              r <- attempt (installSkill agent' skill (info_path skillInfo) sc) ;;
              match r with
              | Some err => ret (installedSkills, Some err)
              | None =>
                  (* Track for potential rollback *)
                  let installedSkills :=
                    (installedSkills ++ [(frontmatter_name skill, agentName)])%list in
                  (* Record installation in manifest *)
                  now <- Date_now ;;
                  r <- attempt
                         (addSkillRecord
                            {| name := frontmatter_name skill;
                               agent := agentName;
                               repoOwner := owner context;
                               repoName := repo context;
                               repoPath := skillPath;
                               commitHash := ctx_commitHash context;
                               installedAt := toISOString now;
                               scope := Some sc |}) ;;
                  match r with
                  | Some err => ret (installedSkills, Some err)
                  | None => continue installedSkills
                  end
              end
          end
      end
  end.

(** The outer loop (l.289-337). *)
Fixpoint install_skills (context : InstallContext) (skillPath : option string)
    (sc : InstallScope) (selectedSkills : list SkillInfo) (selectedAgents : list string)
    (installedSkills : list (string * string))
  : M (list (string * string) * option Error) :=
  match selectedSkills with
  | [] => ret (installedSkills, None)
  | skillInfo :: rest =>
      sk <- loadSkillFromDir (info_path skillInfo) ;;
      match sk with
      | None => install_skills context skillPath sc rest selectedAgents installedSkills
      | Some skill =>
          r <- install_to_agents context skillPath sc skill skillInfo selectedAgents
                 installedSkills ;;
          match r with
          | (installedSkills, Some err) => ret (installedSkills, Some err)
          | (installedSkills, None) =>
              install_skills context skillPath sc rest selectedAgents installedSkills
          end
      end
  end.

(** The loop of the [catch] block (l.344-356). *)
Fixpoint rollback (sc : InstallScope) (installedSkills : list (string * string)) : M unit :=
  match installedSkills with
  | [] => ret tt
  | (nm, agentName) :: rest =>
      match getAgent agentName with
      | Some agent' =>
          try_catch (uninstallSkill agent' nm sc ;; ret tt) (fun _ => ret tt)
      | None => ret tt
      end ;;
      rollback sc rest
  end.

(** [installFromGitHub] from l.280 on: the selected skills and agents are
    installed pair by pair; an exception rolls back and is thrown again. *)
Definition installFromGitHub_install (context : InstallContext) (skillPath : option string)
    (sc : InstallScope) (selectedSkills : list SkillInfo) (selectedAgents : list string)
  : M unit :=
  r <- install_skills context skillPath sc selectedSkills selectedAgents [] ;;
  match r with
  | (_, None) => ret tt
  | (installedSkills, Some err) =>
      (if Nat.ltb 0 (List.length installedSkills) then rollback sc installedSkills
       else ret tt) ;;
      throw err
  end.

(** ** Notions used in the statements *)

(** The manifest [loadManifest] returns for the file of a world (when the
    disk works). *)
Definition stored (w : World) : Manifest :=
  match manifestFile w with
  | Some (Document m) => if version m <? MANIFEST_VERSION then migrateManifest m else m
  | _ => emptyManifest
  end.

(** The records of a list under a key [(name, agent, scope)]. *)
Definition records_at (nm ag : string) (sc : InstallScope) (l : list InstalledSkillRecord)
  : list InstalledSkillRecord :=
  List.filter (same_key nm ag sc) l.


(** The mutations of the two locked operations, on the list of records. *)
Definition upsert (record : InstalledSkillRecord) (l : list InstalledSkillRecord)
  : list InstalledSkillRecord :=
  List.filter
    (fun s => negb (same_key (name record) (agent record) (scope_or_project (scope record)) s)) l
  ++ [record].

Definition remove (nm ag : string) (sc : option InstallScope) (l : list InstalledSkillRecord)
  : list InstalledSkillRecord :=
  List.filter (fun s => negb (same_key nm ag (scope_or_project sc) s)) l.

(** A call of the store, and a sequence of calls run one after the other. *)
Inductive StoreOp : Type :=
| Upsert (record : InstalledSkillRecord)
| Remove (nm ag : string) (sc : option InstallScope).

Definition run_op (op : StoreOp) : M unit :=
  match op with
  | Upsert record => addSkillRecord record
  | Remove nm ag sc => removeSkillRecord nm ag sc
  end.






(** The worlds a call of [acquireLock] leaves behind when it takes a free
    marker, and what [releaseLock] does to a marker. *)
Definition ensured (w : World) : World :=
  if configDir w then w else set_configDir true (emit FsMkdir w).

Definition own_marker (w : World) : string :=
  stringify_lock (process_pid w) (clock w).

Definition released (w : World) : World :=
  match lockFile w with
  | Some _ => set_lockFile None (emit (FsUnlink LockFile) w)
  | None => emit (FsUnlink LockFile) w
  end.

(** The world after a successful [saveManifest]. *)
Definition saved (m : Manifest) (w : World) : World :=
  set_manifestTmp None
    (set_manifestFile (Some (Document m))
       (emit (FsRename ManifestJsonTmp ManifestJson)
          (set_manifestTmp (Some (Document m))
             (emit (FsWrite ManifestJsonTmp) (ensured w))))).

(** The world after [loadManifest] (when the disk works). *)
Definition loaded (w : World) : World :=
  match manifestFile w with
  | None => emit (FsExists ManifestJson) w
  | Some (Document m) =>
      if version m <? MANIFEST_VERSION then
        saved (migrateManifest m) (emit (FsRead ManifestJson) (emit (FsExists ManifestJson) w))
      else emit (FsRead ManifestJson) (emit (FsExists ManifestJson) w)
  | Some _ => emit (FsRead ManifestJson) (emit (FsExists ManifestJson) w)
  end.

(** Events of [acquireLock] and [releaseLock]: they touch the marker and
    the directory, and sleep. *)
Definition lock_event (e : Event) : bool :=
  match e with
  | FsWriteExcl LockFile | FsRead LockFile | FsUnlink LockFile | FsMkdir | Slept _ => true
  | _ => false
  end.

(** [w'] differs from [w] in the marker, the directory, the clock and by
    lock events only. *)
Record lock_frame (w w' : World) : Prop := {
  lf_manifestFile : manifestFile w' = manifestFile w;
  lf_manifestTmp : manifestTmp w' = manifestTmp w;
  lf_repoCache : repoCache w' = repoCache w;
  lf_skillDirs : skillDirs w' = skillDirs w;
  lf_skillSources : skillSources w' = skillSources w;
  lf_brokenTargets : brokenTargets w' = brokenTargets w;
  lf_diskFault : diskFault w' = diskFault w;
  lf_platform : platform w' = platform w;
  lf_processTable : processTable w' = processTable w;
  lf_process_pid : process_pid w' = process_pid w;
  lf_homedir : homedir w' = homedir w;
  lf_clock : clock w <= clock w';
  lf_trace : exists evs, trace w' = (trace w ++ evs)%list /\ forallb lock_event evs = true;
}.

(** The steps of [saveManifest], to stop it between two of them. *)
Definition saveManifest_steps (manifest : Manifest) : list (M unit) :=
  [ensureConfigDir; writeFileSync_tmp (JSON_stringify manifest); renameSync_tmp].

Fixpoint run_steps (steps : list (M unit)) : M unit :=
  match steps with
  | [] => ret tt
  | s :: rest => s ;; run_steps rest
  end.

(** What [loadRepoCache] makes of the text of a cache file. *)
Definition cached_skills (file : option string) : list json :=
  match file with
  | None => []
  | Some content =>
      match parse content with
      | Some cache =>
          match get cache "skills" with
          | Some (JArr l) => l
          | _ => []
          end
      | None => []
      end
  end.

Definition cache_path (w : World) (nm : string) : string :=
  join (join (join (homedir w) ".openskill") "repos") (nm ++ ".json").

(** The marker's process does not run: the process table has no process
    for its id. *)
Definition holder_gone (w : World) (p : Q) : Prop :=
  forall z, Qint p = Some z -> processTable w z = NoSuchProcess.

(** The marker is older than the staleness threshold. *)
Definition older_than_threshold (w : World) (lockInfo : LockInfo) : Prop :=
  (inject_Z LOCK_STALE_MS < inject_Z (clock w) - timestamp lockInfo)%Q.

(** What [isProcessRunning] and [isLockStale] answer in a world. *)
Definition processAlive (w : World) (p : Q) : bool :=
  if Qle_bool p 0 then false
  else
    match platform w with
    | win32 => negb (Qle_bool p 0) && negb (Qle_bool (inject_Z 4194304) p)
    | posix =>
        match Qint p with
        | Some z =>
            if (- 2147483648 <=? z) && (z <=? 2147483647) then
              match processTable w z with
              | Signalable => true
              | _ => false
              end
            else false
        | None => false
        end
    end.

Definition lockStale (w : World) (lockInfo : LockInfo) : bool :=
  if Qeq_bool (timestamp lockInfo) 0 then true
  else negb (Qle_bool (inject_Z (clock w) - timestamp lockInfo) (inject_Z LOCK_STALE_MS)).

(** Whether a pass takes the marker of another holder for abandoned:
    [!processAlive || isLockStale(lockInfo)]. *)
Definition abandoned (lockInfo : LockInfo) (w : World) : bool :=
  negb (processAlive w (pid lockInfo)) || lockStale w lockInfo.

(** A run of decimal digits that does not start with a zero: a bare
    positive integer such as a process id. *)
Definition bare_positive_integer (s : string) : Prop :=
  match s with
  | String c rest =>
      is_digit c = true /\ c <> "0"%char
      /\ Forall (fun d => is_digit d = true) (list_ascii_of_string rest)
  | EmptyString => False
  end.

(** ** Worlds for the examples *)

Definition world0 : World :=
  {| configDir := true; lockFile := None; manifestFile := None; manifestTmp := None;
     repoCache := ∅; skillDirs := ∅; skillSources := ∅; brokenTargets := ∅;
     diskFault := NoFault; clock := 1700000000000; platform := posix;
     processTable := fun p => if p =? 4242 then Signalable else NoSuchProcess;
     process_pid := 77; homedir := "/home/u"; trace := [] |}.

Definition record_of (nm ag : string) (sc : option InstallScope) : InstalledSkillRecord :=
  {| name := nm; agent := ag; repoOwner := "anthropics"; repoName := "skills";
     repoPath := None; commitHash := "abc123"; installedAt := "2024-01-01T00:00:00Z";
     scope := sc |}.

(** ** Notions of the proofs and further example worlds *)

(** A parse that succeeds consumes at least one character, and succeeds
    with the same result on any fuel that is at least twice the number of
    characters it consumes. *)
Definition enough_for_value (f : nat) : Prop :=
  forall s v rest,
    parse_value f s = Some (v, rest) ->
    (String.length rest < String.length s)%nat
    /\ forall g, (2 * (String.length s - String.length rest) <= g)%nat ->
                 parse_value g s = Some (v, rest).

Definition enough_for_elements (f : nat) : Prop :=
  forall s acc v rest,
    parse_elements f s acc = Some (v, rest) ->
    (String.length rest < String.length s)%nat
    /\ forall g, (2 * (String.length s - String.length rest) <= g)%nat ->
                 parse_elements g s acc = Some (v, rest).

Definition enough_for_members (f : nat) : Prop :=
  forall s acc v rest,
    parse_members f s acc = Some (v, rest) ->
    (String.length rest < String.length s)%nat
    /\ forall g, (2 * (String.length s - String.length rest) <= g)%nat ->
                 parse_members g s acc = Some (v, rest).

(** A computation keeps the frame when every run of it does. *)
Definition keeps {A} (m : M A) : Prop :=
  forall w r w', m w = (r, w') -> lock_frame w w'.


(** The world in which [acquireLock] has taken a free marker. *)
Definition taken (w : World) : World :=
  if configDir w then
    set_lockFile (Some (own_marker w)) (emit (FsWriteExcl LockFile) w)
  else
    set_lockFile (Some (own_marker w))
      (emit (FsWriteExcl LockFile)
         (set_configDir true (emit FsMkdir (emit (FsWriteExcl LockFile) w)))).




Definition world_one_row : World :=
  set_manifestFile
    (Some (Document {| version := 1; skills := [record_of "pdf" "claude" None] |})) world0.

(** A document of version 0, as the migration test of the repository has
    it. *)
Definition world_version0 : World :=
  set_manifestFile
    (Some (Document {| version := 0; skills := [record_of "pdf" "claude" None] |})) world0.

(** A marker of process 4242, which runs, written one second ago. *)
Definition world_held : World :=
  set_lockFile (Some (stringify_lock 4242 1699999999000)) world0.

(** A marker of process 4243, which does not run. *)
Definition world_dead_holder : World :=
  set_lockFile (Some (stringify_lock 4243 1699999999000)) world0.

(** A marker of process 4242, which runs, written 31 seconds ago. *)
Definition world_stale_marker : World :=
  set_lockFile (Some (stringify_lock 4242 1699999969000)) world0.

(** The dead holder's marker, on win32. *)
Definition world_dead_holder_win32 : World :=
  {| configDir := true;
     lockFile := Some (stringify_lock 4243 1699999999000);
     manifestFile := None; manifestTmp := None;
     repoCache := ∅; skillDirs := ∅; skillSources := ∅; brokenTargets := ∅;
     diskFault := NoFault; clock := 1700000000000; platform := win32;
     processTable := fun p => if p =? 4242 then Signalable else NoSuchProcess;
     process_pid := 77; homedir := "/home/u"; trace := [] |}.

(** The cache file of the source "anthropic-official" with one skill. *)
Definition cache_text : string :=
  "{" ++ quoted "lastUpdated" ++ ":" ++ quoted "2024-01-01T00:00:00Z" ++ ","
  ++ quoted "skills" ++ ":[{" ++ quoted "name" ++ ":" ++ quoted "pdf-tools" ++ "}]}".

Definition world_cached : World :=
  {| configDir := true; lockFile := None; manifestFile := None; manifestTmp := None;
     repoCache := {[ "/home/u/.openskill/repos/anthropic-official.json" := cache_text ]};
     skillDirs := ∅; skillSources := ∅; brokenTargets := ∅;
     diskFault := NoFault; clock := 1700000000000; platform := posix;
     processTable := fun _ => NoSuchProcess;
     process_pid := 77; homedir := "/home/u"; trace := [] |}.

(** The marker "1234", met by the process 1234 itself. *)
Definition world_legacy_marker : World :=
  {| configDir := true; lockFile := Some "1234";
     manifestFile := None; manifestTmp := None;
     repoCache := ∅; skillDirs := ∅; skillSources := ∅; brokenTargets := ∅;
     diskFault := NoFault; clock := 1700000000000; platform := posix;
     processTable := fun p => if p =? 1234 then Signalable else NoSuchProcess;
     process_pid := 1234; homedir := "/home/u"; trace := [] |}.

Definition pdf_skill : ParsedSkill :=
  {| frontmatter_name := "pdf"; frontmatter_description := "PDF utilities" |}.

(** One skill in the clone of anthropics/skills; the skill directory of
    cursor cannot be written. *)
Definition world_install : World :=
  {| configDir := true; lockFile := None; manifestFile := None; manifestTmp := None;
     repoCache := ∅; skillDirs := ∅;
     skillSources := {[ "/home/u/.openskill/skills/anthropics-skills/pdf" := pdf_skill ]};
     brokenTargets := {[ "cursor" ]};
     diskFault := NoFault; clock := 1700000000000; platform := posix;
     processTable := fun _ => NoSuchProcess;
     process_pid := 77; homedir := "/home/u"; trace := [] |}.

Definition install_request : M unit :=
  installFromGitHub_install
    {| owner := "anthropics"; repo := "skills"; ctx_commitHash := "abc123" |}
    None project
    [ {| info_name := "pdf"; info_path := "/home/u/.openskill/skills/anthropics-skills/pdf" |} ]
    ["claude"; "cursor"; "codex"].

(** ** [src/core/registry.ts]: lookups in the repository cache *)

(** The truthiness of a parsed value.  (A number literal that a double
    rounds to zero is not modelled: a number is falsy when it is zero.) *)
Definition truthy (v : json) : bool :=
  match v with
  | JNull => false
  | JBool b => b
  | JNum q => negb (Qeq_bool q 0)
  | JStr s => negb (String.eqb s EmptyString)
  | JArr _ | JObj _ => true
  end.

(** [s.name === skillName] on an element of the cached array; reading a
    property of [null] throws a TypeError. *)
Definition name_is (skillName : string) (s : json) : M bool :=
  match s with
  | JNull => throw TypeError
  | _ =>
      ret (match get s "name" with
           | Some (JStr n) => String.eqb n skillName
           | _ => false
           end)
  end.

(** [array.find(p)] for a test that may throw. *)
Fixpoint array_find (p : json -> M bool) (l : list json) : M (option json) :=
  match l with
  | [] => ret None
  | x :: rest =>
      b <- p x ;;
      if b then ret (Some x) else array_find p rest
  end.

(** [getSkillFromRepo] (l.155-158): [skills.find(...) || null]. *)
Definition getSkillFromRepo (repoName' skillName : string) : M (option json) :=
  skills <- loadRepoCache repoName' ;;
  found <- array_find (name_is skillName) skills ;;
  ret (match found with
       | Some s => if truthy s then Some s else None
       | None => None
       end).

Record RepoInfo : Type := {
  repo_info_name : string;
  repo_info_url : string;
  skillCount : Z;
  lastUpdated : option json;
}.

(** [getRepoInfo] (l.167-189). *)
Definition getRepoInfo (nm url : string) : M RepoInfo :=
  cachePath <- getCachePath nm ;;
  ex <- existsSync_cache cachePath ;;
  r <- (if ex then
          try_catch
            (content <- readFileSync_cache cachePath ;;
             match parse content with
             | None => throw (JsError "SyntaxError")
             | Some JNull => throw TypeError      (* [cache.skills] on [null] *)
             | Some cache =>
                 let skillCount :=
                   match get cache "skills" with
                   | Some (JArr l) => Z.of_nat (List.length l)
                   | _ => 0
                   end in
                 let lastUpdated :=
                   match get cache "lastUpdated" with
                   | Some v => if truthy v then Some v else None
                   | None => None
                   end in
                 ret (skillCount, lastUpdated)
             end)
            (fun _ => ret (0, None))
        else ret (0, None)) ;;
  ret {| repo_info_name := nm; repo_info_url := url;
         skillCount := fst r; lastUpdated := snd r |}.

(** ** [src/cli/uninstall.ts]: the loop of [uninstall <skill> --all] *)




(** ** [src/utils/fs.ts]: the discovery of skill directories

    A directory tree as [readdirSync(dir, { withFileTypes: true })] and
    [existsSync] show it: an entry is a directory, with its entries, or
    something else (a file, a symbolic link); a directory may refuse to be
    listed.  Names are compared as they are written. *)








(** ** Further notions of the statements and example worlds *)

(** The value of a run of decimal digits, folded from the left as
    [read_digits] does. *)
Fixpoint uint_val (d : Decimal.uint) (acc : Z) : Z :=
  match d with
  | Decimal.Nil => acc
  | Decimal.D0 d' => uint_val d' (10 * acc + 0)
  | Decimal.D1 d' => uint_val d' (10 * acc + 1)
  | Decimal.D2 d' => uint_val d' (10 * acc + 2)
  | Decimal.D3 d' => uint_val d' (10 * acc + 3)
  | Decimal.D4 d' => uint_val d' (10 * acc + 4)
  | Decimal.D5 d' => uint_val d' (10 * acc + 5)
  | Decimal.D6 d' => uint_val d' (10 * acc + 6)
  | Decimal.D7 d' => uint_val d' (10 * acc + 7)
  | Decimal.D8 d' => uint_val d' (10 * acc + 8)
  | Decimal.D9 d' => uint_val d' (10 * acc + 9)
  end.

(** The text after a number literal does not continue it: it is empty or
    starts with a character that is no digit, point or exponent mark. *)
Definition ends_number (rest : string) : bool :=
  match rest with
  | EmptyString => true
  | String c _ =>
      negb (is_digit c) && negb (Ascii.eqb c ".") && negb (Ascii.eqb c "e")
      && negb (Ascii.eqb c "E")
  end.

(** The process id a marker names, when the marker parses. *)
Definition marker_pid (w : World) : option Q :=
  match lockFile w with
  | Some content => option_map pid (parseLockInfo content)
  | None => None
  end.

(** The marker names this process. *)
Definition owns_lock (w : World) : bool :=
  match marker_pid w with
  | Some p => Qeq_bool p (inject_Z (process_pid w))
  | None => false
  end.

(** The marker names another process, which counts as running. *)
Definition held_by_other (w : World) : bool :=
  match marker_pid w with
  | Some p => negb (Qeq_bool p (inject_Z (process_pid w))) && processAlive w p
  | None => false
  end.

Definition is_unlink_lock (e : Event) : bool :=
  match e with
  | FsUnlink LockFile => true
  | _ => false
  end.

(** [loadManifest] will rewrite the file: it holds a document below the
    current version. *)
Definition needs_migration (w : World) : bool :=
  match manifestFile w with
  | Some (Document m) => version m <? MANIFEST_VERSION
  | _ => false
  end.

(** The calls [loadManifest] makes when it does not migrate. *)
Definition load_calls (w : World) : list Event :=
  match manifestFile w with
  | Some _ => [FsExists ManifestJson; FsRead ManifestJson]
  | None => [FsExists ManifestJson]
  end.


(** The document of version 0 on a disk whose rename fails. *)
Definition world_version0_rename_fails : World :=
  {| configDir := true; lockFile := None;
     manifestFile :=
       Some (Document {| version := 0; skills := [record_of "pdf" "claude" None] |});
     manifestTmp := None; repoCache := ∅; skillDirs := ∅; skillSources := ∅;
     brokenTargets := ∅; diskFault := RenameFails;
     clock := 1700000000000; platform := posix; processTable := fun _ => NoSuchProcess;
     process_pid := 77; homedir := "/home/u"; trace := [] |}.

(** A marker is free and the disk fails at the rename. *)
Definition world_one_row_rename_fails : World :=
  {| configDir := true; lockFile := None;
     manifestFile :=
       Some (Document {| version := 1; skills := [record_of "pdf" "claude" None] |});
     manifestTmp := None; repoCache := ∅; skillDirs := ∅; skillSources := ∅;
     brokenTargets := ∅; diskFault := RenameFails;
     clock := 1700000000000; platform := posix; processTable := fun _ => NoSuchProcess;
     process_pid := 77; homedir := "/home/u"; trace := [] |}.

(** The pure test of [name_is] on an element that is not [null]. *)
Definition named (skillName : string) (s : json) : bool :=
  match get s "name" with
  | Some (JStr n) => String.eqb n skillName
  | _ => false
  end.

Definition is_null (s : json) : bool :=
  match s with
  | JNull => true
  | _ => false
  end.

(** A cache file with a [null] entry before the skill "pdf-tools". *)
Definition cache_text_null_entry : string :=
  "{" ++ quoted "skills" ++ ":[null,{" ++ quoted "name" ++ ":" ++ quoted "pdf-tools" ++ "}]}".

Definition world_cached_null_entry : World :=
  {| configDir := true; lockFile := None; manifestFile := None; manifestTmp := None;
     repoCache :=
       {[ "/home/u/.openskill/repos/anthropic-official.json" := cache_text_null_entry ]};
     skillDirs := ∅; skillSources := ∅; brokenTargets := ∅;
     diskFault := NoFault; clock := 1700000000000; platform := posix;
     processTable := fun _ => NoSuchProcess;
     process_pid := 77; homedir := "/home/u"; trace := [] |}.

(** Calls of an agent, as opposed to calls of the file system. *)
Definition agent_event (e : Event) : bool :=
  match e with
  | AgentInstall _ _ _ | AgentUninstall _ _ _ => true
  | _ => false
  end.

(** [w'] differs from [w] in the files under the configuration directory
    and the clock, and by calls of the file system only: the skill
    directories, the sources and the environment are the same. *)
Record store_frame (w w' : World) : Prop := {
  sf_repoCache : repoCache w' = repoCache w;
  sf_skillDirs : skillDirs w' = skillDirs w;
  sf_skillSources : skillSources w' = skillSources w;
  sf_brokenTargets : brokenTargets w' = brokenTargets w;
  sf_diskFault : diskFault w' = diskFault w;
  sf_platform : platform w' = platform w;
  sf_processTable : processTable w' = processTable w;
  sf_process_pid : process_pid w' = process_pid w;
  sf_homedir : homedir w' = homedir w;
  sf_clock : clock w <= clock w';
  sf_trace : exists evs,
      trace w' = (trace w ++ evs)%list /\ forallb (fun e => negb (agent_event e)) evs = true;
}.

Definition frames {A} (m : M A) : Prop :=
  forall w r w', m w = (r, w') -> store_frame w w'.







(** The skill directories the rollback loop asks the agents to remove. *)
Definition rollback_targets (sc : InstallScope) (installedSkills : list (string * string))
  : gset (string * InstallScope * string) :=
  list_to_set
    (omap (fun p => match getAgent (snd p) with
                    | Some agent' => Some (agent', sc, fst p)
                    | None => None
                    end) installedSkills).

(** The skill "pdf" is installed for claude and for cursor. *)
Definition world_two_dirs : World :=
  {| configDir := true; lockFile := None; manifestFile := None; manifestTmp := None;
     repoCache := ∅;
     skillDirs := {[ ("claude", project, "pdf"); ("cursor", project, "pdf") ]};
     skillSources := ∅; brokenTargets := ∅;
     diskFault := NoFault; clock := 1700000000000; platform := posix;
     processTable := fun _ => NoSuchProcess;
     process_pid := 77; homedir := "/home/u"; trace := [] |}.

(** A call of an agent that the install request may make: for a registered
    agent and the scope of the request, and, for an install, with a skill
    name that passes the validation. *)
Definition request_event_ok (sc : InstallScope) (e : Event) : bool :=
  match e with
  | AgentInstall ag nm sc' =>
      InstallScope_eqb sc' sc && existsb (String.eqb ag) agents
      && match validateSkillName nm with
         | None => true
         | Some _ => false
         end
  | AgentUninstall ag nm sc' =>
      InstallScope_eqb sc' sc && existsb (String.eqb ag) agents
  | _ => true
  end.

Definition is_uninstall (e : Event) : bool :=
  match e with
  | AgentUninstall _ _ _ => true
  | _ => false
  end.

(** The calls [evs] of the install loop so far: every call is allowed, none
    is an uninstall, and every tracked pair was handed to [installSkill]. *)
Definition request_calls_ok (sc : InstallScope) (evs : list Event)
    (installedSkills : list (string * string)) : Prop :=
  forallb (request_event_ok sc) evs = true
  /\ forallb (fun e => negb (is_uninstall e)) evs = true
  /\ forall nm agentName agent',
       In (nm, agentName) installedSkills -> getAgent agentName = Some agent' ->
       In (AgentInstall agent' nm sc) evs.



(** A marker of process 4242, written one second ago; the process runs, but
    the caller may not signal it. *)
Definition world_foreign_holder : World :=
  {| configDir := true;
     lockFile := Some (stringify_lock 4242 1699999999000);
     manifestFile := None; manifestTmp := None;
     repoCache := ∅; skillDirs := ∅; skillSources := ∅; brokenTargets := ∅;
     diskFault := NoFault; clock := 1700000000000; platform := posix;
     processTable := fun p => if p =? 4242 then NotPermitted else NoSuchProcess;
     process_pid := 77; homedir := "/home/u"; trace := [] |}.

(** The characters of a name, as a list. *)
Definition name_chars (nm : string) : list ascii := list_ascii_of_string nm.

(** A skill name as the validation accepts it: 1 to 64 characters from
    [a-z0-9-], the first a letter, the last no hyphen, no two hyphens in a
    row. *)
Definition well_formed_skill_name (nm : string) : bool :=
  (Nat.leb 1 (List.length (name_chars nm)) && Nat.leb (List.length (name_chars nm)) 64)
  && forallb is_skill_name_char (name_chars nm)
  && match name_chars nm with
     | c :: _ => is_lower c
     | [] => false
     end
  && negb (Ascii.eqb (List.last (name_chars nm) "a"%char) "-")
  && negb (includes_double_hyphen nm).




(** The clone with the skill "pdf", while process 4242, which runs, holds
    the lock since one second; the skill is already installed for claude. *)
Definition world_install_held : World :=
  {| configDir := true;
     lockFile := Some (stringify_lock 4242 1699999999000);
     manifestFile := None; manifestTmp := None;
     repoCache := ∅; skillDirs := {[ ("claude", project, "pdf") ]};
     skillSources := {[ "/home/u/.openskill/skills/anthropics-skills/pdf" := pdf_skill ]};
     brokenTargets := ∅;
     diskFault := NoFault; clock := 1700000000000; platform := posix;
     processTable := fun p => if p =? 4242 then Signalable else NoSuchProcess;
     process_pid := 77; homedir := "/home/u"; trace := [] |}.

(** * Proofs *)

(** ** The fuel of [JSON.parse] is enough *)

Lemma skip_ws_length s : (String.length (skip_ws s) <= String.length s)%nat.
Proof.
  induction s as [| c s IH]; cbn [skip_ws]; [ lia | ].
  destruct (is_json_ws c); cbn [String.length] in *; lia.
Qed.

Lemma starts_with_length c s r :
  starts_with c s = Some r -> String.length s = S (String.length r).
Proof.
  destruct s as [| c' s]; cbn; [ discriminate | ].
  destruct (Ascii.eqb c c'); [ | discriminate ]. by intros [= ->].
Qed.

Lemma strip_prefix_length p s r :
  strip_prefix p s = Some r -> String.length s = (String.length p + String.length r)%nat.
Proof.
  revert s. induction p as [| a p IH]; intros s; cbn [strip_prefix].
  - by intros [= ->].
  - destruct s as [| b s]; [ discriminate | ].
    destruct (Ascii.eqb a b); [ | discriminate ].
    intros H. apply IH in H. cbn [String.length]. lia.
Qed.

Lemma read_digits_length s acc n v k rest :
  read_digits s acc n = (v, k, rest) -> (String.length rest <= String.length s)%nat.
Proof.
  revert acc n. induction s as [| c s IH]; intros acc n; cbn [read_digits].
  - intros [= <- <- <-]. lia.
  - destruct (is_digit c).
    + intros H. apply IH in H. cbn [String.length]. lia.
    + intros [= <- <- <-]. lia.
Qed.

Lemma read_int_part_length s v rest :
  read_int_part s = Some (v, rest) -> (String.length rest < String.length s)%nat.
Proof.
  destruct s as [| c s]; cbn [read_int_part]; [ discriminate | ].
  destruct (code c =? 48).
  - intros [= <- <-]. cbn. lia.
  - destruct (is_digit c) eqn:Hc; [ | discriminate ].
    cbn [read_digits]. rewrite Hc.
    destruct (read_digits s (10 * 0 + digit_val c) 1) as [[v' k] rest'] eqn:E.
    intros [= <- <-]. apply read_digits_length in E. cbn [String.length]. lia.
Qed.

Lemma read_frac_part_length s v n rest :
  read_frac_part s = Some (v, n, rest) -> (String.length rest <= String.length s)%nat.
Proof.
  unfold read_frac_part. destruct (starts_with "." s) as [r |] eqn:E.
  - apply starts_with_length in E.
    destruct (read_digits r 0 0) as [[v' k] rest'] eqn:Ed.
    apply read_digits_length in Ed.
    destruct k; [ discriminate | ]. intros [= <- <- <-]. lia.
  - intros [= <- <- <-]. lia.
Qed.

Lemma read_exp_digits_length s v rest :
  read_exp_digits s = Some (v, rest) -> (String.length rest <= String.length s)%nat.
Proof.
  unfold read_exp_digits. destruct (read_digits s 0 0) as [[v' k] rest'] eqn:Ed.
  apply read_digits_length in Ed. destruct k; [ discriminate | ]. by intros [= <- <-].
Qed.

Lemma read_exp_part_length s v rest :
  read_exp_part s = Some (v, rest) -> (String.length rest <= String.length s)%nat.
Proof.
  destruct s as [| c s]; cbn [read_exp_part]; [ by intros [= <- <-] | ].
  destruct ((code c =? 101) || (code c =? 69)); [ | by intros [= <- <-] ].
  destruct (starts_with "+" s) as [r |] eqn:Ep.
  { apply starts_with_length in Ep. intros H. apply read_exp_digits_length in H.
    cbn [String.length]. lia. }
  destruct (starts_with "-" s) as [r |] eqn:Em.
  { apply starts_with_length in Em.
    destruct (read_exp_digits r) as [[v' r'] |] eqn:Ed; [ | discriminate ].
    apply read_exp_digits_length in Ed. intros [= <- <-]. cbn [String.length]. lia. }
  intros H. apply read_exp_digits_length in H. cbn [String.length]. lia.
Qed.

Lemma parse_number_length s q rest :
  parse_number s = Some (q, rest) -> (String.length rest < String.length s)%nat.
Proof.
  unfold parse_number.
  assert (Hs1 : (String.length
                   (snd (match starts_with "-" s with
                         | Some r => (true, r)
                         | None => (false, s)
                         end)) <= String.length s)%nat).
  { destruct (starts_with "-" s) as [r |] eqn:E; cbn [snd]; [ | lia ].
    apply starts_with_length in E. lia. }
  destruct (match starts_with "-" s with
            | Some r => (true, r)
            | None => (false, s)
            end) as [neg s1]. cbn [snd] in Hs1.
  destruct (read_int_part s1) as [[ip s2] |] eqn:Ei; [ | discriminate ].
  destruct (read_frac_part s2) as [[[fp fn] s3] |] eqn:Ef; [ | discriminate ].
  destruct (read_exp_part s3) as [[ex s4] |] eqn:Ee; [ | discriminate ].
  intros [= _ <-].
  apply read_int_part_length in Ei. apply read_frac_part_length in Ef.
  apply read_exp_part_length in Ee. lia.
Qed.

Lemma parse_string_chars_length_bounded n :
  forall s acc str rest,
    (String.length s <= n)%nat ->
    parse_string_chars s acc = Some (str, rest) ->
    (String.length rest < String.length s)%nat.
Proof.
  induction n as [| n IH]; intros s acc str rest Hn.
  - destruct s; [ discriminate | cbn in Hn; lia ].
  - destruct s as [| c s]; [ discriminate | ]. cbn [parse_string_chars String.length] in *.
    destruct (Ascii.eqb c dquote); [ intros [= _ <-]; lia | ].
    destruct (Ascii.eqb c backslash).
    + destruct s as [| e s]; [ discriminate | ]. cbn [String.length] in *.
      destruct (Ascii.eqb e "u").
      * destruct s as [| h1 [| h2 [| h3 [| h4 s]]]]; try discriminate.
        cbn [String.length] in *.
        destruct (hex_val h1), (hex_val h2), (hex_val h3), (hex_val h4); try discriminate.
        intros H. apply IH in H; lia.
      * repeat match goal with
               | |- (if ?b then _ else _) = _ -> _ =>
                   destruct b; [ intros H; apply IH in H; lia | ]
               end.
        discriminate.
    + destruct (code c <? 32); [ discriminate | ].
      intros H. apply IH in H; lia.
Qed.

Lemma parse_string_chars_length s acc str rest :
  parse_string_chars s acc = Some (str, rest) ->
  (String.length rest < String.length s)%nat.
Proof. by apply (parse_string_chars_length_bounded (String.length s)). Qed.

Ltac lengths :=
  repeat match goal with
         | H : starts_with _ _ = Some _ |- _ => apply starts_with_length in H
         | H : strip_prefix _ _ = Some _ |- _ =>
             apply strip_prefix_length in H; cbn [String.length] in H
         | H : parse_string_chars _ _ = Some _ |- _ => apply parse_string_chars_length in H
         | H : parse_number _ = Some _ |- _ => apply parse_number_length in H
         end;
  repeat match goal with
         | H : context [skip_ws ?s] |- _ =>
             lazymatch goal with
             | _ : (String.length (skip_ws s) <= String.length s)%nat |- _ => fail
             | _ => pose proof (skip_ws_length s)
             end
         end.

Ltac refuel g :=
  let g' := fresh "g" in
  destruct g as [| g']; [ exfalso; lengths; lia | ].

Lemma fuel_step_value f :
  enough_for_elements f -> enough_for_members f -> enough_for_value (S f).
Proof.
  intros IHe IHm s v rest. cbn [parse_value]. unfold value_step. intros H.
  destruct (starts_with "{" (skip_ws s)) as [r |] eqn:E1.
  { destruct (starts_with "}" (skip_ws r)) as [r' |] eqn:E2.
    - injection H as <- <-. split.
      + lengths; lia.
      + intros g Hg. refuel g. cbn [parse_value]. unfold value_step.
        by rewrite E1, E2.
    - apply IHm in H as [Hlen Hfuel]. split.
      + lengths; lia.
      + intros g Hg. refuel g. cbn [parse_value]. unfold value_step.
        rewrite E1, E2. apply Hfuel. lengths; lia. }
  destruct (starts_with "[" (skip_ws s)) as [r |] eqn:E2.
  { destruct (starts_with "]" (skip_ws r)) as [r' |] eqn:E3.
    - injection H as <- <-. split.
      + lengths; lia.
      + intros g Hg. refuel g. cbn [parse_value]. unfold value_step.
        by rewrite E1, E2, E3.
    - apply IHe in H as [Hlen Hfuel]. split.
      + lengths; lia.
      + intros g Hg. refuel g. cbn [parse_value]. unfold value_step.
        rewrite E1, E2, E3. apply Hfuel. lengths; lia. }
  assert (Hscalar : forall g, parse_value (S g) s = Some (v, rest)).
  { intros g. cbn [parse_value]. unfold value_step. rewrite E1, E2. exact H. }
  split.
  - destruct (starts_with dquote (skip_ws s)) as [r |] eqn:E3.
    { destruct (parse_string_chars r []) as [[str r'] |] eqn:E4; [ | discriminate ].
      injection H as <- <-. lengths; lia. }
    destruct (strip_prefix "true" (skip_ws s)) as [r |] eqn:E4.
    { injection H as <- <-. lengths; lia. }
    destruct (strip_prefix "false" (skip_ws s)) as [r |] eqn:E5.
    { injection H as <- <-. lengths; lia. }
    destruct (strip_prefix "null" (skip_ws s)) as [r |] eqn:E6.
    { injection H as <- <-. lengths; lia. }
    destruct (parse_number (skip_ws s)) as [[q r] |] eqn:E7; [ | discriminate ].
    injection H as <- <-. lengths; lia.
  - intros g Hg. destruct g as [| g]; [ | apply Hscalar ].
    exfalso. clear Hscalar.
    destruct (starts_with dquote (skip_ws s)) as [r |] eqn:E3.
    { destruct (parse_string_chars r []) as [[str r'] |] eqn:E4; [ | discriminate ].
      injection H as <- <-. lengths; lia. }
    destruct (strip_prefix "true" (skip_ws s)) as [r |] eqn:E4.
    { injection H as <- <-. lengths; lia. }
    destruct (strip_prefix "false" (skip_ws s)) as [r |] eqn:E5.
    { injection H as <- <-. lengths; lia. }
    destruct (strip_prefix "null" (skip_ws s)) as [r |] eqn:E6.
    { injection H as <- <-. lengths; lia. }
    destruct (parse_number (skip_ws s)) as [[q r] |] eqn:E7; [ | discriminate ].
    injection H as <- <-. lengths; lia.
Qed.

Lemma fuel_step_elements f :
  enough_for_value f -> enough_for_elements f -> enough_for_elements (S f).
Proof.
  intros IHv IHe s acc v rest. cbn [parse_elements]. unfold elements_step. intros H.
  destruct (parse_value f s) as [[v1 r1] |] eqn:E1; [ | discriminate ].
  apply IHv in E1 as [Hlen1 Hfuel1].
  destruct (starts_with "," (skip_ws r1)) as [r2 |] eqn:E2.
  { apply IHe in H as [Hlen2 Hfuel2]. split.
    - lengths; lia.
    - intros g Hg. refuel g. cbn [parse_elements]. unfold elements_step.
      rewrite Hfuel1 by (lengths; lia). rewrite E2. apply Hfuel2. lengths; lia. }
  destruct (starts_with "]" (skip_ws r1)) as [r2 |] eqn:E3; [ | discriminate ].
  injection H as <- <-. split.
  - lengths; lia.
  - intros g Hg. refuel g. cbn [parse_elements]. unfold elements_step.
    rewrite Hfuel1 by (lengths; lia). by rewrite E2, E3.
Qed.

Lemma fuel_step_members f :
  enough_for_value f -> enough_for_members f -> enough_for_members (S f).
Proof.
  intros IHv IHm s acc v rest. cbn [parse_members]. unfold members_step. intros H.
  destruct (starts_with dquote (skip_ws s)) as [r0 |] eqn:E0; [ | discriminate ].
  destruct (parse_string_chars r0 []) as [[key r1] |] eqn:E1; [ | discriminate ].
  destruct (starts_with ":" (skip_ws r1)) as [r2 |] eqn:E2; [ | discriminate ].
  destruct (parse_value f r2) as [[v3 r3] |] eqn:E3; [ | discriminate ].
  apply IHv in E3 as [Hlen3 Hfuel3].
  destruct (starts_with "," (skip_ws r3)) as [r4 |] eqn:E4.
  { apply IHm in H as [Hlen4 Hfuel4]. split.
    - lengths; lia.
    - intros g Hg. refuel g. cbn [parse_members]. unfold members_step.
      rewrite E0, E1, E2. rewrite Hfuel3 by (lengths; lia). rewrite E4.
      apply Hfuel4. lengths; lia. }
  destruct (starts_with "}" (skip_ws r3)) as [r4 |] eqn:E5; [ | discriminate ].
  injection H as <- <-. split.
  - lengths; lia.
  - intros g Hg. refuel g. cbn [parse_members]. unfold members_step.
    rewrite E0, E1, E2. rewrite Hfuel3 by (lengths; lia). by rewrite E4, E5.
Qed.

Lemma fuel_enough f : enough_for_value f /\ enough_for_elements f /\ enough_for_members f.
Proof.
  induction f as [| f (IHv & IHe & IHm)].
  - repeat split; intros *; discriminate.
  - split; [ by apply fuel_step_value | ].
    split; [ by apply fuel_step_elements | by apply fuel_step_members ].
Qed.

(** More fuel than [parse] takes changes nothing: a text is rejected
    because it is not JSON, never because the fuel ran out. *)
Lemma parse_value_fuel s g :
  (2 * String.length s + 2 <= g)%nat ->
  parse_value g s = parse_value (2 * String.length s + 2) s.
Proof.
  intros Hg.
  destruct (parse_value (2 * String.length s + 2) s) as [[v rest] |] eqn:E.
  - destruct (fuel_enough (2 * String.length s + 2)) as (Hv & _).
    apply Hv in E as [_ Hfuel]. apply Hfuel. lia.
  - destruct (parse_value g s) as [[v rest] |] eqn:E'; [ | reflexivity ].
    destruct (fuel_enough g) as (Hv & _).
    apply Hv in E' as [Hlen Hfuel]. rewrite Hfuel in E by lia. discriminate.
Qed.

(** ** The frame of the lock operations *)

Lemma lock_frame_refl w : lock_frame w w.
Proof.
  split; try reflexivity; try lia.
  exists []. split; [ by rewrite app_nil_r | reflexivity ].
Qed.

Lemma lock_frame_trans w1 w2 w3 :
  lock_frame w1 w2 -> lock_frame w2 w3 -> lock_frame w1 w3.
Proof.
  intros [] []. split; try congruence; try lia.
  destruct lf_trace0 as (e1 & He1 & Hf1), lf_trace1 as (e2 & He2 & Hf2).
  exists (e1 ++ e2)%list. split.
  - rewrite He2, He1. by rewrite <- app_assoc.
  - rewrite forallb_app, Hf1, Hf2. reflexivity.
Qed.

Lemma lock_frame_emit e w : lock_event e = true -> lock_frame w (emit e w).
Proof.
  intros He. split; try reflexivity; try (simpl; lia).
  exists [e]. split; [ reflexivity | simpl; by rewrite He ].
Qed.

Lemma lock_frame_set_lockFile v w : lock_frame w (set_lockFile v w).
Proof.
  split; try reflexivity; try (simpl; lia).
  exists []. split; [ simpl; by rewrite app_nil_r | reflexivity ].
Qed.

Lemma lock_frame_set_configDir v w : lock_frame w (set_configDir v w).
Proof.
  split; try reflexivity; try (simpl; lia).
  exists []. split; [ simpl; by rewrite app_nil_r | reflexivity ].
Qed.

Lemma lock_frame_set_clock v w : clock w <= v -> lock_frame w (set_clock v w).
Proof.
  intros Hv. split; try reflexivity; try (simpl; lia).
  exists []. split; [ simpl; by rewrite app_nil_r | reflexivity ].
Qed.

Lemma keeps_ret {A} (a : A) : keeps (ret a).
Proof. intros w r w' [= <- <-]. apply lock_frame_refl. Qed.

Lemma keeps_throw {A} e : keeps (@throw A e).
Proof. intros w r w' [= <- <-]. apply lock_frame_refl. Qed.

Lemma keeps_gets {A} (f : World -> A) : keeps (gets f).
Proof. intros w r w' [= <- <-]. apply lock_frame_refl. Qed.

Lemma keeps_bind {A B} (m : M A) (k : A -> M B) :
  keeps m -> (forall a, keeps (k a)) -> keeps (bind m k).
Proof.
  intros Hm Hk w r w'. unfold bind.
  destruct (m w) as [[a | e] w1] eqn:E; intros H.
  - eapply lock_frame_trans; [ eapply Hm, E | eapply Hk, H ].
  - injection H as <- <-. eapply Hm, E.
Qed.

Lemma keeps_try_catch {A} (m : M A) (h : Error -> M A) :
  keeps m -> (forall e, keeps (h e)) -> keeps (try_catch m h).
Proof.
  intros Hm Hh w r w'. unfold try_catch.
  destruct (m w) as [[a | e] w1] eqn:E; intros H.
  - injection H as <- <-. eapply Hm, E.
  - eapply lock_frame_trans; [ eapply Hm, E | eapply Hh, H ].
Qed.

Lemma keeps_event e : lock_event e = true -> keeps (event e).
Proof. intros He w r w' [= <- <-]. by apply lock_frame_emit. Qed.

Lemma keeps_if {A} (b : bool) (m1 m2 : M A) : keeps m1 -> keeps m2 -> keeps (if b then m1 else m2).
Proof. by destruct b. Qed.

Lemma keeps_sleepSync ms : 0 <= ms -> keeps (sleepSync ms).
Proof.
  intros Hms. apply keeps_bind; [ by apply keeps_event | intros _ ].
  intros w r w' [= <- <-]. apply lock_frame_set_clock. lia.
Qed.

Lemma keeps_ensureConfigDir : keeps ensureConfigDir.
Proof.
  apply keeps_bind; [ apply keeps_gets | intros ex ].
  apply keeps_if; [ apply keeps_ret | ].
  apply keeps_bind; [ by apply keeps_event | intros _ ].
  intros w r w' [= <- <-]. apply lock_frame_set_configDir.
Qed.

Lemma keeps_writeFileSync_wx_lock content : keeps (writeFileSync_wx_lock content).
Proof.
  apply keeps_bind; [ by apply keeps_event | intros _ ].
  apply keeps_bind; [ apply keeps_gets | intros [c |] ]; [ apply keeps_throw | ].
  apply keeps_bind; [ apply keeps_gets | intros dir ].
  apply keeps_if; [ | apply keeps_throw ].
  intros w r w' [= <- <-]. apply lock_frame_set_lockFile.
Qed.

Lemma keeps_readFileSync_lock : keeps readFileSync_lock.
Proof.
  apply keeps_bind; [ by apply keeps_event | intros _ ].
  apply keeps_bind; [ apply keeps_gets | intros [c |] ];
    [ apply keeps_ret | apply keeps_throw ].
Qed.

Lemma keeps_unlinkSync_lock : keeps unlinkSync_lock.
Proof.
  apply keeps_bind; [ by apply keeps_event | intros _ ].
  apply keeps_bind; [ apply keeps_gets | intros [c |] ]; [ | apply keeps_throw ].
  intros w r w' [= <- <-]. apply lock_frame_set_lockFile.
Qed.

Lemma keeps_write_own_lock : keeps write_own_lock.
Proof.
  apply keeps_bind; [ apply keeps_gets | intros self ].
  apply keeps_bind; [ apply keeps_gets | intros now ].
  apply keeps_writeFileSync_wx_lock.
Qed.

Lemma keeps_ignore_errors m : keeps m -> keeps (ignore_errors m).
Proof. intros Hm. apply keeps_try_catch; [ exact Hm | intros _; apply keeps_ret ]. Qed.

(** [isProcessRunning] and [isLockStale] only look at the world. *)
Lemma isProcessRunning_eq p w : isProcessRunning p w = (Ok (processAlive w p), w).
Proof.
  unfold isProcessRunning, processAlive, try_catch, process_kill0, bind, gets, ret, throw.
  destruct (Qle_bool p 0); [ reflexivity | ].
  destruct (platform w); [ reflexivity | ].
  destruct (Qint p) as [z |]; [ | reflexivity ].
  destruct ((- 2147483648 <=? z) && (z <=? 2147483647)); [ | reflexivity ].
  destruct (processTable w z); reflexivity.
Qed.

Lemma isLockStale_eq lockInfo w : isLockStale lockInfo w = (Ok (lockStale w lockInfo), w).
Proof.
  unfold isLockStale, lockStale, Date_now, bind, gets, ret.
  destruct (Qeq_bool (timestamp lockInfo) 0); reflexivity.
Qed.

Lemma keeps_isProcessRunning p : keeps (isProcessRunning p).
Proof.
  intros w r w' H. rewrite isProcessRunning_eq in H.
  injection H as <- <-. apply lock_frame_refl.
Qed.

Lemma keeps_isLockStale lockInfo : keeps (isLockStale lockInfo).
Proof.
  intros w r w' H. rewrite isLockStale_eq in H.
  injection H as <- <-. apply lock_frame_refl.
Qed.

Lemma keeps_acquireLock_pass : keeps acquireLock_pass.
Proof.
  apply keeps_try_catch.
  { apply keeps_bind; [ apply keeps_write_own_lock | intros _; apply keeps_ret ]. }
  intros err. apply keeps_if.
  - apply keeps_bind.
    + apply keeps_try_catch.
      * apply keeps_bind; [ apply keeps_readFileSync_lock | intros content ].
        destruct (parseLockInfo content) as [lockInfo |].
        -- apply keeps_bind; [ apply keeps_gets | intros self ].
           apply keeps_if; [ apply keeps_ret | ].
           apply keeps_bind; [ apply keeps_isProcessRunning | intros alive ].
           apply keeps_bind.
           { apply keeps_if; [ apply keeps_ret | apply keeps_isLockStale ]. }
           intros stale. apply keeps_if; [ | apply keeps_ret ].
           apply keeps_try_catch; [ | intros _; apply keeps_ret ].
           apply keeps_bind; [ apply keeps_unlinkSync_lock | intros _ ].
           apply keeps_bind; [ apply keeps_write_own_lock | intros _; apply keeps_ret ].
        -- apply keeps_bind; [ | intros _; apply keeps_ret ].
           apply keeps_ignore_errors, keeps_unlinkSync_lock.
      * intros _. apply keeps_bind; [ | intros _; apply keeps_ret ].
        apply keeps_ignore_errors, keeps_unlinkSync_lock.
    + intros [b | |]; try apply keeps_ret.
      apply keeps_bind; [ by apply keeps_sleepSync | intros _; apply keeps_ret ].
  - apply keeps_bind; [ apply keeps_ensureConfigDir | intros _; apply keeps_ret ].
Qed.

Lemma keeps_acquireLock_loop fuel startTime : keeps (acquireLock_loop fuel startTime).
Proof.
  induction fuel as [| n IH]; simpl.
  - apply keeps_throw.
  - apply keeps_bind; [ apply keeps_gets | intros now ].
    apply keeps_if; [ | apply keeps_ret ].
    apply keeps_bind; [ apply keeps_acquireLock_pass | intros [b | |] ];
      [ apply keeps_ret | exact IH | exact IH ].
Qed.

Lemma keeps_acquireLock : keeps acquireLock.
Proof.
  apply keeps_bind; [ apply keeps_gets | intros start ].
  apply keeps_acquireLock_loop.
Qed.

Lemma keeps_releaseLock : keeps releaseLock.
Proof. apply keeps_ignore_errors, keeps_unlinkSync_lock. Qed.

(** ** One pass of the loop of [acquireLock], case by case *)

Ltac run_pass :=
  unfold acquireLock_pass, write_own_lock, writeFileSync_wx_lock, readFileSync_lock,
    unlinkSync_lock, ignore_errors, ensureConfigDir, sleepSync, Date_now,
    try_catch, bind, gets, modify, event, ret, throw; cbn.

Lemma pass_free w :
  lockFile w = None -> configDir w = true ->
  acquireLock_pass w
  = (Ok (Return true), set_lockFile (Some (own_marker w)) (emit (FsWriteExcl LockFile) w)).
Proof. intros Hl Hd. run_pass. repeat (progress (rewrite ?Hl, ?Hd; cbn)). reflexivity. Qed.

Lemma pass_no_directory w :
  lockFile w = None -> configDir w = false ->
  acquireLock_pass w
  = (Ok Continue, set_configDir true (emit FsMkdir (emit (FsWriteExcl LockFile) w))).
Proof. intros Hl Hd. run_pass. repeat (progress (rewrite ?Hl, ?Hd; cbn)). reflexivity. Qed.

Lemma pass_invalid_marker w content :
  lockFile w = Some content -> parseLockInfo content = None ->
  acquireLock_pass w
  = (Ok Continue,
     set_lockFile None
       (emit (FsUnlink LockFile) (emit (FsRead LockFile) (emit (FsWriteExcl LockFile) w)))).
Proof. intros Hl Hp. run_pass. repeat (progress (rewrite ?Hl, ?Hp; cbn)). reflexivity. Qed.

Lemma pass_own_marker w content lockInfo :
  lockFile w = Some content -> parseLockInfo content = Some lockInfo ->
  Qeq_bool (pid lockInfo) (inject_Z (process_pid w)) = true ->
  acquireLock_pass w
  = (Ok (Return true), emit (FsRead LockFile) (emit (FsWriteExcl LockFile) w)).
Proof. intros Hl Hp Hq. run_pass. repeat (progress (rewrite ?Hl, ?Hp, ?Hq; cbn)). reflexivity. Qed.

Lemma processAlive_emit e w p : processAlive (emit e w) p = processAlive w p.
Proof. reflexivity. Qed.

Lemma lockStale_emit e w lockInfo : lockStale (emit e w) lockInfo = lockStale w lockInfo.
Proof. reflexivity. Qed.

#[local] Arguments processAlive : simpl never.
#[local] Arguments lockStale : simpl never.

Ltac run_marker_pass Hl Hp Hq :=
  run_pass;
  repeat (progress (rewrite ?Hl, ?Hp, ?Hq, ?isProcessRunning_eq, ?isLockStale_eq,
                      ?processAlive_emit, ?lockStale_emit; cbn)).

Lemma pass_abandoned_marker w content lockInfo :
  lockFile w = Some content -> parseLockInfo content = Some lockInfo ->
  Qeq_bool (pid lockInfo) (inject_Z (process_pid w)) = false ->
  abandoned lockInfo w = true ->
  configDir w = true ->
  acquireLock_pass w
  = (Ok (Return true),
     set_lockFile (Some (own_marker w))
       (emit (FsWriteExcl LockFile)
          (set_lockFile None
             (emit (FsUnlink LockFile)
                (emit (FsRead LockFile) (emit (FsWriteExcl LockFile) w)))))).
Proof.
  intros Hl Hp Hq Ha Hd. unfold abandoned in Ha.
  run_marker_pass Hl Hp Hq.
  destruct (processAlive w (pid lockInfo)); cbn in *.
  - run_marker_pass Hl Hp Hq. rewrite Ha. cbn. rewrite Hl. cbn. rewrite Hd. reflexivity.
  - rewrite Hl. cbn. rewrite Hd. reflexivity.
Qed.

Lemma pass_held_marker w content lockInfo :
  lockFile w = Some content -> parseLockInfo content = Some lockInfo ->
  Qeq_bool (pid lockInfo) (inject_Z (process_pid w)) = false ->
  abandoned lockInfo w = false ->
  acquireLock_pass w
  = (Ok Continue,
     set_clock (clock w + LOCK_RETRY_MS)
       (emit (Slept LOCK_RETRY_MS)
          (emit (FsRead LockFile) (emit (FsWriteExcl LockFile) w)))).
Proof.
  intros Hl Hp Hq Ha. unfold abandoned in Ha.
  run_marker_pass Hl Hp Hq.
  destruct (processAlive w (pid lockInfo)); [ | discriminate ]. cbn in *.
  run_marker_pass Hl Hp Hq. rewrite Ha. reflexivity.
Qed.

Lemma pass_abandoned_no_directory w content lockInfo :
  lockFile w = Some content -> parseLockInfo content = Some lockInfo ->
  Qeq_bool (pid lockInfo) (inject_Z (process_pid w)) = false ->
  abandoned lockInfo w = true ->
  configDir w = false ->
  acquireLock_pass w
  = (Ok Continue,
     emit (FsWriteExcl LockFile)
       (set_lockFile None
          (emit (FsUnlink LockFile)
             (emit (FsRead LockFile) (emit (FsWriteExcl LockFile) w))))).
Proof.
  intros Hl Hp Hq Ha Hd. unfold abandoned in Ha.
  run_marker_pass Hl Hp Hq.
  destruct (processAlive w (pid lockInfo)); cbn in *.
  - run_marker_pass Hl Hp Hq. rewrite Ha. cbn. rewrite Hl. cbn. rewrite Hd. reflexivity.
  - rewrite Hl. cbn. rewrite Hd. reflexivity.
Qed.

(** ** [acquireLock] returns *)


Lemma acquireLock_loop_unfold fuel startTime w :
  acquireLock_loop (S fuel) startTime w
  = if clock w - startTime <? LOCK_TIMEOUT_MS then
      match acquireLock_pass w with
      | (Ok (Return b), w') => (Ok b, w')
      | (Ok _, w') => acquireLock_loop fuel startTime w'
      | (Throw e, w') => (Throw e, w')
      end
    else (Ok false, w).
Proof.
  cbn [acquireLock_loop]. unfold bind at 1. unfold Date_now, gets at 1.
  destruct (clock w - startTime <? LOCK_TIMEOUT_MS); [ | reflexivity ].
  unfold bind. destruct (acquireLock_pass w) as [[[b | |] | e] w']; reflexivity.
Qed.



(** A marker of another process that runs, and that stays fresh until the
    deadline, is waited for until the timeout. *)
Lemma lockStale_fresh w lockInfo deadline :
  Qeq_bool (timestamp lockInfo) 0 = false ->
  (inject_Z deadline - timestamp lockInfo <= inject_Z LOCK_STALE_MS)%Q ->
  clock w <= deadline ->
  lockStale w lockInfo = false.
Proof.
  intros Hz Hf Hc. unfold lockStale. rewrite Hz.
  apply negb_false_iff, Qle_bool_iff.
  rewrite Zle_Qle in Hc. lra.
Qed.

Lemma acquireLock_loop_held fuel startTime w content lockInfo :
  lockFile w = Some content -> parseLockInfo content = Some lockInfo ->
  Qeq_bool (pid lockInfo) (inject_Z (process_pid w)) = false ->
  processAlive w (pid lockInfo) = true ->
  Qeq_bool (timestamp lockInfo) 0 = false ->
  (inject_Z (startTime + LOCK_TIMEOUT_MS) - timestamp lockInfo <= inject_Z LOCK_STALE_MS)%Q ->
  (Z.to_nat (startTime + LOCK_TIMEOUT_MS - clock w) < fuel)%nat ->
  exists w',
    acquireLock_loop fuel startTime w = (Ok false, w')
    /\ lockFile w' = Some content
    /\ LOCK_TIMEOUT_MS <= clock w' - startTime.
Proof.
  intros Hl Hp Hq Hal Hz Hf. revert w Hl Hq Hal.
  induction fuel as [| n IH]; intros w Hl Hq Hal Hm; [ lia | ].
  rewrite acquireLock_loop_unfold.
  destruct (clock w - startTime <? LOCK_TIMEOUT_MS) eqn:Ht.
  - apply Z.ltb_lt in Ht.
    assert (Ha : abandoned lockInfo w = false).
    { unfold abandoned. rewrite Hal. cbn.
      apply (lockStale_fresh w lockInfo (startTime + LOCK_TIMEOUT_MS)); [ done | done | lia ]. }
    rewrite (pass_held_marker w content lockInfo Hl Hp Hq Ha).
    apply IH; [ exact Hl | exact Hq | exact Hal | ].
    cbn. unfold LOCK_RETRY_MS. lia.
  - apply Z.ltb_ge in Ht. exists w. split; [ reflexivity | ]. split; [ exact Hl | exact Ht ].
Qed.

Lemma acquireLock_held_times_out w content lockInfo :
  lockFile w = Some content -> parseLockInfo content = Some lockInfo ->
  Qeq_bool (pid lockInfo) (inject_Z (process_pid w)) = false ->
  processAlive w (pid lockInfo) = true ->
  Qeq_bool (timestamp lockInfo) 0 = false ->
  (inject_Z (clock w + LOCK_TIMEOUT_MS) - timestamp lockInfo <= inject_Z LOCK_STALE_MS)%Q ->
  exists w',
    acquireLock w = (Ok false, w')
    /\ lockFile w' = Some content
    /\ LOCK_TIMEOUT_MS <= clock w' - clock w.
Proof.
  intros Hl Hp Hq Hal Hz Hf.
  unfold acquireLock, bind, Date_now, gets.
  eapply acquireLock_loop_held; try eassumption.
  unfold acquireLock_fuel, LOCK_TIMEOUT_MS. lia.
Qed.

(** ** The manifest operations when the disk works *)

Ltac run_fs :=
  unfold saveManifest, loadManifest, ensureConfigDir, writeFileSync_tmp, renameSync_tmp,
    existsSync_manifest, readFileSync_manifest, releaseLock, ignore_errors, unlinkSync_lock,
    JSON_stringify, try_catch, try_finally, bind, gets, modify, event, ret, throw; cbn.

Lemma ensureConfigDir_eq w : ensureConfigDir w = (Ok tt, ensured w).
Proof. unfold ensured. run_fs. destruct (configDir w); reflexivity. Qed.

Lemma ensured_fields w :
  lockFile (ensured w) = lockFile w /\ manifestFile (ensured w) = manifestFile w
  /\ manifestTmp (ensured w) = manifestTmp w /\ diskFault (ensured w) = diskFault w
  /\ configDir (ensured w) = true.
Proof. unfold ensured. destruct (configDir w) eqn:E; cbn; auto. Qed.

Lemma saveManifest_ok manifest w :
  diskFault w = NoFault -> saveManifest manifest w = (Ok tt, saved manifest w).
Proof.
  intros Hf. unfold saveManifest. unfold bind at 1. rewrite ensureConfigDir_eq.
  destruct (ensured_fields w) as (_ & _ & _ & Hf' & _). rewrite Hf in Hf'.
  unfold saved. run_fs. rewrite Hf'. cbn. rewrite Hf'. reflexivity.
Qed.

Lemma saveManifest_write_fails manifest w residue :
  diskFault w = WriteFails residue ->
  saveManifest manifest w
  = (Throw (Errno "EIO"), set_manifestTmp residue (emit (FsWrite ManifestJsonTmp) (ensured w))).
Proof.
  intros Hf. unfold saveManifest. unfold bind at 1. rewrite ensureConfigDir_eq.
  destruct (ensured_fields w) as (_ & _ & _ & Hf' & _). rewrite Hf in Hf'.
  run_fs. rewrite Hf'. reflexivity.
Qed.

Lemma saveManifest_rename_fails manifest w :
  diskFault w = RenameFails ->
  saveManifest manifest w
  = (Throw (Errno "EIO"),
     emit (FsRename ManifestJsonTmp ManifestJson)
       (set_manifestTmp (Some (Document manifest))
          (emit (FsWrite ManifestJsonTmp) (ensured w)))).
Proof.
  intros Hf. unfold saveManifest. unfold bind at 1. rewrite ensureConfigDir_eq.
  destruct (ensured_fields w) as (_ & _ & _ & Hf' & _). rewrite Hf in Hf'.
  run_fs. rewrite Hf'. cbn. rewrite Hf'. reflexivity.
Qed.

Lemma loadManifest_ok w :
  diskFault w = NoFault -> loadManifest w = (Ok (stored w), loaded w).
Proof.
  intros Hf. unfold stored, loaded.
  destruct (manifestFile w) as [[| | m] |] eqn:Hm.
  - run_fs. rewrite Hm. cbn. rewrite Hm. reflexivity.
  - run_fs. rewrite Hm. cbn. rewrite Hm. reflexivity.
  - destruct (version m <? MANIFEST_VERSION) eqn:Hv.
    + unfold loadManifest, existsSync_manifest, readFileSync_manifest.
      unfold bind at 1 2 3. unfold event, modify, gets, ret. cbn. rewrite Hm. cbn.
      unfold try_catch, bind at 1 2 3. cbn. rewrite Hm. cbn. rewrite Hv.
      unfold bind at 1. rewrite saveManifest_ok by exact Hf. reflexivity.
    + run_fs. rewrite Hm. cbn. rewrite Hm. cbn. rewrite Hv. reflexivity.
  - run_fs. rewrite Hm. reflexivity.
Qed.

Lemma releaseLock_eq w : releaseLock w = (Ok tt, released w).
Proof. unfold released. run_fs. destruct (lockFile w); reflexivity. Qed.

Lemma withLock_acquired {T} (fn : M T) w w1 :
  acquireLock w = (Ok true, w1) -> withLock fn w = try_finally fn releaseLock w1.
Proof. intros H. unfold withLock, bind. rewrite H. reflexivity. Qed.

Lemma withLock_timeout {T} (fn : M T) w w1 :
  acquireLock w = (Ok false, w1) -> withLock fn w = (Throw lock_error, w1).
Proof. intros H. unfold withLock, bind. rewrite H. reflexivity. Qed.

Lemma acquireLock_free w : lockFile w = None -> acquireLock w = (Ok true, taken w).
Proof.
  intros Hl. unfold acquireLock, bind at 1, Date_now, gets at 1, acquireLock_fuel.
  cbn [Nat.add]. rewrite acquireLock_loop_unfold.
  replace (clock w - clock w <? LOCK_TIMEOUT_MS) with true
    by (rewrite Z.sub_diag; reflexivity).
  unfold taken. destruct (configDir w) eqn:Hd.
  - rewrite pass_free by assumption. reflexivity.
  - rewrite pass_no_directory by assumption.
    rewrite acquireLock_loop_unfold. cbn [clock set_configDir emit].
    replace (clock w - clock w <? LOCK_TIMEOUT_MS) with true
      by (rewrite Z.sub_diag; reflexivity).
    rewrite pass_free by (cbn; first [ exact Hl | reflexivity ]). reflexivity.
Qed.

(** The two locked operations, once the lock is acquired. *)
Lemma addSkillRecord_locked record w w1 :
  acquireLock w = (Ok true, w1) -> diskFault w = NoFault ->
  addSkillRecord record w
  = (Ok tt,
     released (saved (with_skills (stored w) (upsert record (skills (stored w)))) (loaded w1))).
Proof.
  intros Hacq Hf.
  pose proof (keeps_acquireLock _ _ _ Hacq) as Hfr.
  assert (Hf1 : diskFault w1 = NoFault) by (rewrite (lf_diskFault _ _ Hfr); exact Hf).
  assert (Hst : stored w1 = stored w) by (unfold stored; by rewrite (lf_manifestFile _ _ Hfr)).
  unfold addSkillRecord. rewrite (withLock_acquired _ _ _ Hacq).
  unfold try_finally. unfold bind at 1. rewrite loadManifest_ok by exact Hf1.
  rewrite Hst. rewrite saveManifest_ok.
  - rewrite releaseLock_eq. reflexivity.
  - unfold loaded. destruct (manifestFile w1) as [[| | m] |]; try exact Hf1.
    destruct (version m <? MANIFEST_VERSION); [ | exact Hf1 ].
    cbn. destruct (ensured_fields (emit (FsRead ManifestJson) (emit (FsExists ManifestJson) w1)))
      as (_ & _ & _ & Hd & _). exact (eq_trans Hd Hf1).
Qed.

Lemma removeSkillRecord_locked nm ag sc w w1 :
  acquireLock w = (Ok true, w1) -> diskFault w = NoFault ->
  removeSkillRecord nm ag sc w
  = (Ok tt,
     released (saved (with_skills (stored w) (remove nm ag sc (skills (stored w)))) (loaded w1))).
Proof.
  intros Hacq Hf.
  pose proof (keeps_acquireLock _ _ _ Hacq) as Hfr.
  assert (Hf1 : diskFault w1 = NoFault) by (rewrite (lf_diskFault _ _ Hfr); exact Hf).
  assert (Hst : stored w1 = stored w) by (unfold stored; by rewrite (lf_manifestFile _ _ Hfr)).
  unfold removeSkillRecord. rewrite (withLock_acquired _ _ _ Hacq).
  unfold try_finally. unfold bind at 1. rewrite loadManifest_ok by exact Hf1.
  rewrite Hst. rewrite saveManifest_ok.
  - rewrite releaseLock_eq. reflexivity.
  - unfold loaded. destruct (manifestFile w1) as [[| | m] |]; try exact Hf1.
    destruct (version m <? MANIFEST_VERSION); [ | exact Hf1 ].
    cbn. destruct (ensured_fields (emit (FsRead ManifestJson) (emit (FsExists ManifestJson) w1)))
      as (_ & _ & _ & Hd & _). exact (eq_trans Hd Hf1).
Qed.

(** What a saved-and-released world holds. *)
Lemma released_saved_fields manifest w :
  manifestFile (released (saved manifest w)) = Some (Document manifest)
  /\ manifestTmp (released (saved manifest w)) = None
  /\ lockFile (released (saved manifest w)) = None
  /\ diskFault (released (saved manifest w)) = diskFault w
  /\ stored (released (saved manifest w))
     = (if version manifest <? MANIFEST_VERSION then migrateManifest manifest else manifest).
Proof.
  destruct (ensured_fields w) as (_ & _ & _ & Hd & _).
  unfold released, stored.
  destruct (lockFile (saved manifest w)) eqn:E; cbn in *; rewrite ?Hd; auto 10.
Qed.

Lemma stored_version_current w : MANIFEST_VERSION <= version (stored w).
Proof.
  unfold stored. destruct (manifestFile w) as [[| | m] |]; try (cbn; lia).
  destruct (version m <? MANIFEST_VERSION) eqn:Hv; [ cbn; lia | by apply Z.ltb_ge ].
Qed.

(** ** Keys and records *)

Lemma InstallScope_eqb_eq a b : InstallScope_eqb a b = true <-> a = b.
Proof. destruct a, b; cbn; split; congruence. Qed.

Lemma same_key_spec nm ag sc s :
  same_key nm ag sc s = true
  <-> name s = nm /\ agent s = ag /\ scope_or_project (scope s) = sc.
Proof.
  unfold same_key. rewrite !andb_true_iff, !String.eqb_eq, InstallScope_eqb_eq. tauto.
Qed.

Lemma same_key_own s : same_key (name s) (agent s) (scope_or_project (scope s)) s = true.
Proof. apply same_key_spec. auto. Qed.

(** Two keys that match one record are the same key. *)
Lemma same_key_agree nm ag sc nm' ag' sc' s r :
  same_key nm ag sc s = true -> same_key nm' ag' sc' s = true ->
  same_key nm ag sc r = same_key nm' ag' sc' r.
Proof.
  intros H1 H2. apply same_key_spec in H1 as (<- & <- & <-).
  apply same_key_spec in H2 as (<- & <- & <-). reflexivity.
Qed.



Lemma filter_own_key_out f (l : list InstalledSkillRecord) :
  List.filter f (List.filter (fun s => negb (f s)) l) = [].
Proof.
  induction l as [| s l IH]; [ reflexivity | ]. cbn.
  destruct (f s) eqn:E; cbn; [ exact IH | rewrite E; exact IH ].
Qed.

Lemma filter_other_key f g (l : list InstalledSkillRecord) :
  (forall s, f s = true -> g s = false) ->
  List.filter f (List.filter (fun s => negb (g s)) l) = List.filter f l.
Proof.
  intros H. induction l as [| s l IH]; [ reflexivity | ]. cbn.
  destruct (g s) eqn:Eg; cbn.
  - destruct (f s) eqn:Ef; [ rewrite (H _ Ef) in Eg; discriminate | exact IH ].
  - destruct (f s); [ f_equal | ]; exact IH.
Qed.

Lemma filter_ext_bool {A} (f g : A -> bool) (l : list A) :
  (forall x, f x = g x) -> List.filter f l = List.filter g l.
Proof.
  intros H. induction l as [| x l IH]; [ reflexivity | ]. cbn. rewrite H, IH. reflexivity.
Qed.


(** After an upsert the key of the record holds that record alone; other
    keys keep their records. *)
Lemma records_at_upsert nm ag sc record l :
  records_at nm ag sc (upsert record l)
  = if same_key nm ag sc record then [record] else records_at nm ag sc l.
Proof.
  unfold records_at, upsert. rewrite List.filter_app. cbn.
  destruct (same_key nm ag sc record) eqn:E.
  - rewrite (filter_ext_bool (same_key nm ag sc)
               (same_key (name record) (agent record) (scope_or_project (scope record)))).
    + rewrite filter_own_key_out. reflexivity.
    + intros x. apply (same_key_agree _ _ _ _ _ _ record); [ exact E | apply same_key_own ].
  - rewrite app_nil_r. apply filter_other_key. intros s Hs.
    destruct (same_key (name record) (agent record) (scope_or_project (scope record)) s) eqn:E';
      [ | reflexivity ].
    rewrite (same_key_agree _ _ _ _ _ _ s record Hs E') in E.
    rewrite same_key_own in E. discriminate.
Qed.







(** ** The state store: upsert and remove *)









(** ** The scope of a record that has none *)

Lemma getSkillRecord_scoped nm ag sc w :
  diskFault w = NoFault ->
  getSkillRecord nm ag (Some sc) w
  = (Ok (List.find (same_key nm ag sc) (skills (stored w))), loaded w).
Proof.
  intros Hf. unfold getSkillRecord, bind. rewrite loadManifest_ok by exact Hf. reflexivity.
Qed.

Lemma not_in_filter_out {A} (f : A -> bool) (x : A) (l : list A) :
  f x = true -> ~ In x (List.filter (fun y => negb (f y)) l).
Proof. intros Hx Hin. apply filter_In in Hin as [_ H]. rewrite Hx in H. discriminate. Qed.

(** C9.  A record without a scope is keyed as a record of scope "project":
    for two records [a] (no scope) and [p] (scope "project") of one name and
    agent, upserting either removes the other, a removal with scope
    "project" (given or by default) removes both, and a lookup with scope
    "project" finds a record of that key when the record without a scope is
    stored (that very record when it comes first). *)
Theorem absent_scope_is_project (w w1 : World) (a p : InstalledSkillRecord) :
  acquireLock w = (Ok true, w1) -> diskFault w = NoFault ->
  name a = name p -> agent a = agent p -> scope a = None -> scope p = Some project ->
  (forall nm ag, same_key nm ag project a = String.eqb (name a) nm && String.eqb (agent a) ag)
  /\ (exists w',
        addSkillRecord p w = (Ok tt, w')
        /\ ~ In a (skills (stored w'))
        /\ records_at (name a) (agent a) project (skills (stored w')) = [p])
  /\ (exists w',
        addSkillRecord a w = (Ok tt, w')
        /\ ~ In p (skills (stored w'))
        /\ records_at (name p) (agent p) project (skills (stored w')) = [a])
  /\ (forall sc, sc = None \/ sc = Some project ->
        exists w',
          removeSkillRecord (name a) (agent a) sc w = (Ok tt, w')
          /\ ~ In a (skills (stored w')) /\ ~ In p (skills (stored w')))
  /\ (In a (skills (stored w)) ->
        exists r,
          getSkillRecord (name p) (agent p) (Some project) w = (Ok (Some r), loaded w)
          /\ name r = name a /\ agent r = agent a /\ scope_or_project (scope r) = project)
  /\ (forall rest, skills (stored w) = a :: rest ->
        getSkillRecord (name p) (agent p) (Some project) w = (Ok (Some a), loaded w)).
Proof.
  intros Hacq Hf Hn Ha Hsa Hsp.
  assert (Hka : same_key (name p) (agent p) project a = true)
    by (apply same_key_spec; rewrite Hsa; auto).
  assert (Hkp : same_key (name a) (agent a) project p = true)
    by (apply same_key_spec; rewrite Hsp; auto).
  assert (Hne : a <> p) by (intros ->; congruence).
  assert (Hv : forall l, (version (with_skills (stored w) l) <? MANIFEST_VERSION) = false).
  { intros l. apply Z.ltb_ge. cbn. apply stored_version_current. }
  split.
  { intros nm ag. unfold same_key. rewrite Hsa. cbn. by rewrite andb_true_r. }
  split.
  { rewrite (addSkillRecord_locked p w w1 Hacq Hf). eexists. split; [ reflexivity | ].
    destruct (released_saved_fields
                (with_skills (stored w) (upsert p (skills (stored w)))) (loaded w1))
      as (_ & _ & _ & _ & Hst).
    rewrite Hv in Hst. rewrite Hst. cbn [skills with_skills]. split.
    - unfold upsert. rewrite Hsp. cbn [scope_or_project]. intros Hin.
      apply in_app_or in Hin as [Hin | [Hin | []]]; [ | congruence ].
      revert Hin. by apply (not_in_filter_out (same_key (name p) (agent p) project)).
    - rewrite records_at_upsert, Hkp. reflexivity. }
  split.
  { rewrite (addSkillRecord_locked a w w1 Hacq Hf). eexists. split; [ reflexivity | ].
    destruct (released_saved_fields
                (with_skills (stored w) (upsert a (skills (stored w)))) (loaded w1))
      as (_ & _ & _ & _ & Hst).
    rewrite Hv in Hst. rewrite Hst. cbn [skills with_skills]. split.
    - unfold upsert. rewrite Hsa. cbn [scope_or_project]. intros Hin.
      apply in_app_or in Hin as [Hin | [Hin | []]]; [ | congruence ].
      revert Hin. by apply (not_in_filter_out (same_key (name a) (agent a) project)).
    - rewrite records_at_upsert, Hka. reflexivity. }
  split.
  { intros sc Hsc.
    assert (Hsc' : scope_or_project sc = project) by (destruct Hsc as [-> | ->]; reflexivity).
    rewrite (removeSkillRecord_locked (name a) (agent a) sc w w1 Hacq Hf).
    eexists. split; [ reflexivity | ].
    destruct (released_saved_fields
                (with_skills (stored w) (remove (name a) (agent a) sc (skills (stored w))))
                (loaded w1))
      as (_ & _ & _ & _ & Hst).
    rewrite Hv in Hst. rewrite Hst. cbn [skills with_skills]. unfold remove. rewrite Hsc'.
    split; apply (not_in_filter_out (same_key (name a) (agent a) project)).
    - rewrite Hn, Ha. exact Hka.
    - exact Hkp. }
  split.
  { intros Hin. rewrite (getSkillRecord_scoped _ _ _ _ Hf).
    destruct (find (same_key (name p) (agent p) project) (skills (stored w))) as [r |] eqn:E.
    - exists r. split; [ reflexivity | ].
      apply find_some in E as [_ Hr]. apply same_key_spec in Hr as (Hrn & Hra & Hrs).
      rewrite Hrn, Hra, Hrs. auto.
    - apply (find_none _ _ E) in Hin. congruence. }
  intros rest Hsk. rewrite (getSkillRecord_scoped _ _ _ _ Hf), Hsk. cbn [find].
  rewrite Hka. reflexivity.
Qed.

Lemma absent_scope_is_project_witness :
  acquireLock world_one_row = (Ok true, taken world_one_row)
  /\ diskFault world_one_row = NoFault
  /\ exists w',
       addSkillRecord (record_of "pdf" "claude" (Some project)) world_one_row = (Ok tt, w')
       /\ skills (stored w') = [record_of "pdf" "claude" (Some project)].
Proof.
  split; [ apply acquireLock_free; reflexivity | ]. split; [ reflexivity | ].
  destruct (absent_scope_is_project world_one_row (taken world_one_row)
              (record_of "pdf" "claude" None) (record_of "pdf" "claude" (Some project))
              (acquireLock_free world_one_row eq_refl) eq_refl eq_refl eq_refl eq_refl eq_refl)
    as (_ & (w' & Hrun & _ & _) & _).
  exists w'. split; [ exact Hrun | ].
  rewrite (addSkillRecord_locked _ _ _ (acquireLock_free world_one_row eq_refl) eq_refl) in Hrun.
  injection Hrun as <-. reflexivity.
Defined.

(** ** Lock timeout *)



(** ** Abandoned markers *)

Lemma holder_gone_not_alive w p :
  platform w = posix -> holder_gone w p -> processAlive w p = false.
Proof.
  intros Hp Hg. unfold processAlive. rewrite Hp.
  destruct (Qle_bool p 0); [ reflexivity | ].
  destruct (Qint p) as [z |] eqn:Hz; [ | reflexivity ].
  rewrite (Hg z Hz). by destruct ((- 2147483648 <=? z) && (z <=? 2147483647)).
Qed.

Lemma older_than_threshold_stale w lockInfo :
  older_than_threshold w lockInfo -> lockStale w lockInfo = true.
Proof.
  unfold older_than_threshold, lockStale. intros Hold.
  destruct (Qeq_bool (timestamp lockInfo) 0); [ reflexivity | ].
  apply negb_true_iff. destruct (Qle_bool _ _) eqn:E; [ | reflexivity ].
  apply Qle_bool_iff in E. lra.
Qed.

Lemma acquireLock_abandoned w content lockInfo :
  lockFile w = Some content -> configDir w = true ->
  parseLockInfo content = Some lockInfo ->
  Qeq_bool (pid lockInfo) (inject_Z (process_pid w)) = false ->
  abandoned lockInfo w = true ->
  acquireLock w
  = (Ok true,
     set_lockFile (Some (own_marker w))
       (emit (FsWriteExcl LockFile)
          (set_lockFile None
             (emit (FsUnlink LockFile)
                (emit (FsRead LockFile) (emit (FsWriteExcl LockFile) w)))))).
Proof.
  intros Hl Hd Hp Hq Ha.
  unfold acquireLock, bind at 1, Date_now, gets at 1, acquireLock_fuel.
  cbn [Nat.add]. rewrite acquireLock_loop_unfold.
  replace (clock w - clock w <? LOCK_TIMEOUT_MS) with true
    by (rewrite Z.sub_diag; reflexivity).
  rewrite (pass_abandoned_marker w content lockInfo Hl Hp Hq Ha Hd). reflexivity.
Qed.

(** C4 (amended).  A marker of another holder is removed and the lock is
    acquired at once, without a release by that holder, when the marker's
    process does not run and the platform is not win32, or when the marker
    is older than [LOCK_STALE_MS].  (On win32 a process id from 1 to
    4194303 always counts as running, so only its age frees such a marker.) *)
Theorem abandoned_marker_is_taken (w : World) (content : string) (lockInfo : LockInfo) :
  lockFile w = Some content -> configDir w = true ->
  parseLockInfo content = Some lockInfo ->
  Qeq_bool (pid lockInfo) (inject_Z (process_pid w)) = false ->
  (platform w = posix /\ holder_gone w (pid lockInfo)) \/ older_than_threshold w lockInfo ->
  exists w',
    acquireLock w = (Ok true, w')
    /\ lockFile w' = Some (own_marker w)
    /\ clock w' = clock w
    /\ trace w'
       = (trace w ++ [FsWriteExcl LockFile; FsRead LockFile; FsUnlink LockFile;
                      FsWriteExcl LockFile])%list.
Proof.
  intros Hl Hd Hp Hq Hcase.
  assert (Ha : abandoned lockInfo w = true).
  { unfold abandoned. destruct Hcase as [[Hpf Hg] | Hold].
    - by rewrite (holder_gone_not_alive w _ Hpf Hg).
    - rewrite (older_than_threshold_stale w _ Hold). apply orb_true_r. }
  rewrite (acquireLock_abandoned w content lockInfo Hl Hd Hp Hq Ha).
  eexists. split; [ reflexivity | ]. cbn.
  rewrite <- !app_assoc. auto.
Qed.

Lemma abandoned_marker_is_taken_witness :
  (exists w',
     acquireLock world_dead_holder = (Ok true, w')
     /\ lockFile w' = Some (own_marker world_dead_holder))
  /\ (exists w',
        acquireLock world_stale_marker = (Ok true, w')
        /\ lockFile w' = Some (own_marker world_stale_marker)).
Proof.
  split.
  - destruct (abandoned_marker_is_taken world_dead_holder
                (stringify_lock 4243 1699999999000)
                {| pid := 4243; timestamp := 1699999999000 |}
                eq_refl eq_refl eq_refl eq_refl) as (w' & Hacq & Hl & _).
    + left. split; [ reflexivity | ].
      intros z Hz. vm_compute in Hz. injection Hz as <-. reflexivity.
    + exists w'. split; [ exact Hacq | exact Hl ].
  - destruct (abandoned_marker_is_taken world_stale_marker
                (stringify_lock 4242 1699999969000)
                {| pid := 4242; timestamp := 1699999969000 |}
                eq_refl eq_refl eq_refl eq_refl) as (w' & Hacq & Hl & _).
    + right. unfold older_than_threshold. vm_compute. reflexivity.
    + exists w'. split; [ exact Hacq | exact Hl ].
Defined.

(** C4, as stated, fails on win32: the marker of a process that no longer
    runs, written a second ago, is waited for until the timeout and is
    still there. *)
Lemma abandoned_marker_win32_counterexample :
  ~ (forall (w : World) (content : string) (lockInfo : LockInfo),
       lockFile w = Some content -> configDir w = true ->
       parseLockInfo content = Some lockInfo ->
       Qeq_bool (pid lockInfo) (inject_Z (process_pid w)) = false ->
       holder_gone w (pid lockInfo) \/ older_than_threshold w lockInfo ->
       exists w', acquireLock w = (Ok true, w')).
Proof.
  intros H.
  destruct (H world_dead_holder_win32 (stringify_lock 4243 1699999999000)
              {| pid := 4243; timestamp := 1699999999000 |}
              eq_refl eq_refl eq_refl eq_refl) as (w' & Hacq).
  - left. intros z Hz. vm_compute in Hz. injection Hz as <-. reflexivity.
  - assert (Hrun : fst (acquireLock world_dead_holder_win32) = Ok false)
      by (vm_compute; reflexivity).
    rewrite Hacq in Hrun. discriminate Hrun.
Qed.

Example abandoned_marker_win32_still_there :
  fst (acquireLock world_dead_holder_win32) = Ok false
  /\ lockFile (snd (acquireLock world_dead_holder_win32))
     = lockFile world_dead_holder_win32
  /\ clock (snd (acquireLock world_dead_holder_win32))
     = clock world_dead_holder_win32 + LOCK_TIMEOUT_MS.
Proof. vm_compute. auto. Qed.

(** ** Migration on load *)

Lemma migrateManifest_idempotent m : migrateManifest (migrateManifest m) = migrateManifest m.
Proof. reflexivity. Qed.

Lemma stored_current w m :
  manifestFile w = Some (Document m) -> MANIFEST_VERSION <= version m -> stored w = m.
Proof. intros Hm Hv. unfold stored. rewrite Hm. apply Z.ltb_ge in Hv. by rewrite Hv. Qed.

Lemma loaded_current w m :
  manifestFile w = Some (Document m) -> MANIFEST_VERSION <= version m ->
  loaded w = emit (FsRead ManifestJson) (emit (FsExists ManifestJson) w).
Proof. intros Hm Hv. unfold loaded. rewrite Hm. apply Z.ltb_ge in Hv. by rewrite Hv. Qed.

Lemma saved_diskFault m w : diskFault (saved m w) = diskFault w.
Proof. unfold saved. cbn. apply ensured_fields. Qed.

(** C6.  A document below the current version is migrated by
    [loadManifest]: the migrated document has the current version and the
    same records, it is on disk when [loadManifest] returns it (the rename
    is the last call of the trace), and it is a fixed point: loading again,
    or saving it and loading it, gives the same document and leaves the
    file as it is. *)
Theorem load_migrates_and_persists (w : World) (m : Manifest) :
  manifestFile w = Some (Document m) -> version m < MANIFEST_VERSION ->
  diskFault w = NoFault ->
  exists w',
    loadManifest w = (Ok (migrateManifest m), w')
    /\ version (migrateManifest m) = MANIFEST_VERSION
    /\ skills (migrateManifest m) = skills m
    /\ manifestFile w' = Some (Document (migrateManifest m))
    /\ (exists evs, trace w' = (evs ++ [FsRename ManifestJsonTmp ManifestJson])%list)
    /\ migrateManifest (migrateManifest m) = migrateManifest m
    /\ (exists w'',
          loadManifest w' = (Ok (migrateManifest m), w'')
          /\ manifestFile w'' = manifestFile w')
    /\ (forall w1, diskFault w1 = NoFault ->
          exists w2 w3,
            saveManifest (migrateManifest m) w1 = (Ok tt, w2)
            /\ loadManifest w2 = (Ok (migrateManifest m), w3)
            /\ manifestFile w3 = Some (Document (migrateManifest m))).
Proof.
  intros Hm Hv Hf.
  assert (Hcur : MANIFEST_VERSION <= version (migrateManifest m)) by (cbn; lia).
  assert (Hreload : forall w1, diskFault w1 = NoFault ->
            loadManifest (saved (migrateManifest m) w1)
            = (Ok (migrateManifest m),
               emit (FsRead ManifestJson)
                 (emit (FsExists ManifestJson) (saved (migrateManifest m) w1)))).
  { intros w1 Hf1. rewrite loadManifest_ok by (by rewrite saved_diskFault).
    rewrite (stored_current _ (migrateManifest m)), (loaded_current _ (migrateManifest m));
      auto. }
  set (w0 := emit (FsRead ManifestJson) (emit (FsExists ManifestJson) w)).
  assert (Hf0 : diskFault w0 = NoFault) by exact Hf.
  exists (saved (migrateManifest m) w0).
  split.
  { rewrite (loadManifest_ok w Hf). unfold stored, loaded. rewrite Hm.
    apply Z.ltb_lt in Hv. rewrite Hv. reflexivity. }
  split; [ reflexivity | ]. split; [ reflexivity | ]. split; [ reflexivity | ].
  split; [ eexists; reflexivity | ]. split; [ reflexivity | ].
  split.
  - exists (emit (FsRead ManifestJson)
              (emit (FsExists ManifestJson) (saved (migrateManifest m) w0))).
    split; [ exact (Hreload w0 Hf0) | reflexivity ].
  - intros w1 Hf1.
    exists (saved (migrateManifest m) w1),
      (emit (FsRead ManifestJson)
         (emit (FsExists ManifestJson) (saved (migrateManifest m) w1))).
    split; [ exact (saveManifest_ok _ w1 Hf1) | ].
    split; [ exact (Hreload w1 Hf1) | reflexivity ].
Qed.

Lemma load_migrates_and_persists_witness :
  manifestFile world_version0
  = Some (Document {| version := 0; skills := [record_of "pdf" "claude" None] |})
  /\ 0 < MANIFEST_VERSION /\ diskFault world_version0 = NoFault
  /\ exists w',
       loadManifest world_version0
       = (Ok {| version := 1; skills := [record_of "pdf" "claude" None] |}, w')
       /\ manifestFile w'
          = Some (Document {| version := 1; skills := [record_of "pdf" "claude" None] |}).
Proof.
  split; [ reflexivity | ]. split; [ reflexivity | ]. split; [ reflexivity | ].
  destruct (load_migrates_and_persists world_version0
              {| version := 0; skills := [record_of "pdf" "claude" None] |}
              eq_refl eq_refl eq_refl) as (w' & Hload & _ & _ & Hfile & _).
  exists w'. split; [ exact Hload | exact Hfile ].
Defined.

(** ** Saving is atomic *)

Lemma saveManifest_as_steps manifest w :
  saveManifest manifest w = run_steps (saveManifest_steps manifest) w.
Proof.
  unfold saveManifest, saveManifest_steps. cbn [run_steps]. unfold bind.
  destruct (ensureConfigDir w) as [[[] | e] w1]; [ | reflexivity ].
  destruct (writeFileSync_tmp (JSON_stringify manifest) w1) as [[[] | e] w2]; [ | reflexivity ].
  destruct (renameSync_tmp w2) as [[[] | e] w3]; reflexivity.
Qed.

Lemma writeFileSync_tmp_keeps_file content w :
  manifestFile (snd (writeFileSync_tmp content w)) = manifestFile w.
Proof. run_fs. unfold writeFileSync_tmp. run_fs. by destruct (diskFault w). Qed.

(** C3.  [saveManifest] is the three steps "make sure the directory
    exists, write the whole document to the temporary sibling, rename it
    over manifest.json".  Stopped before the rename has happened, whatever
    the disk does, manifest.json is what it was.  A save that throws leaves
    manifest.json what it was; a save that returns leaves the whole
    document there.  So manifest.json always holds either its former
    content or the complete new document.  When the disk works the save
    returns, and its calls are the write of the temporary file followed by
    the rename. *)
Theorem saveManifest_atomic (manifest : Manifest) (w : World) :
  (forall w0, saveManifest manifest w0 = run_steps (saveManifest_steps manifest) w0)
  /\ (forall k, (k < 3)%nat ->
        manifestFile (snd (run_steps (firstn k (saveManifest_steps manifest)) w))
        = manifestFile w)
  /\ (forall r w', saveManifest manifest w = (r, w') ->
        match r with
        | Ok _ =>
            manifestFile w' = Some (JSON_stringify manifest) /\ manifestTmp w' = None
        | Throw _ => manifestFile w' = manifestFile w
        end)
  /\ (forall k,
        let file := manifestFile (snd (run_steps (firstn k (saveManifest_steps manifest)) w)) in
        file = manifestFile w \/ file = Some (JSON_stringify manifest))
  /\ (diskFault w = NoFault ->
        exists w',
          saveManifest manifest w = (Ok tt, w')
          /\ trace w'
             = (trace (ensured w)
                  ++ [FsWrite ManifestJsonTmp; FsRename ManifestJsonTmp ManifestJson])%list).
Proof.
  assert (Hsave : forall r w', saveManifest manifest w = (r, w') ->
            match r with
            | Ok _ =>
                manifestFile w' = Some (JSON_stringify manifest) /\ manifestTmp w' = None
            | Throw _ => manifestFile w' = manifestFile w
            end).
  { intros r w'. destruct (ensured_fields w) as (_ & Hm & _).
    destruct (diskFault w) as [| residue |] eqn:Hf.
    - rewrite saveManifest_ok by exact Hf. intros [= <- <-]. split; reflexivity.
    - rewrite (saveManifest_write_fails _ _ _ Hf). intros [= <- <-]. exact Hm.
    - rewrite (saveManifest_rename_fails _ _ Hf). intros [= <- <-]. exact Hm. }
  assert (Hprefix : forall k, (k < 3)%nat ->
            manifestFile (snd (run_steps (firstn k (saveManifest_steps manifest)) w))
            = manifestFile w).
  { intros k Hk. destruct (ensured_fields w) as (_ & Hm & _).
    destruct k as [| [| [| k]]]; [ reflexivity | | | lia ].
    - cbn [firstn saveManifest_steps run_steps]. unfold bind.
      rewrite ensureConfigDir_eq. exact Hm.
    - cbn [firstn saveManifest_steps run_steps]. unfold bind at 1.
      rewrite ensureConfigDir_eq. unfold bind at 1.
      pose proof (writeFileSync_tmp_keeps_file (JSON_stringify manifest) (ensured w)) as Hw.
      destruct (writeFileSync_tmp (JSON_stringify manifest) (ensured w)) as [[[] | e] w2];
        cbn in *; congruence. }
  split; [ intros w0; apply saveManifest_as_steps | ].
  split; [ exact Hprefix | ]. split; [ exact Hsave | ]. split.
  - intros k file. subst file.
    destruct (Nat.lt_ge_cases k 3) as [Hk | Hk]; [ left; by apply Hprefix | ].
    rewrite firstn_all2 by (cbn; lia). rewrite <- saveManifest_as_steps.
    destruct (saveManifest manifest w) as [r w'] eqn:E.
    specialize (Hsave r w' eq_refl). cbn [snd].
    destruct r; [ right; apply Hsave | left; exact Hsave ].
  - intros Hf. rewrite saveManifest_ok by exact Hf. eexists. split; [ reflexivity | ].
    cbn. by rewrite <- app_assoc.
Qed.

Lemma saveManifest_atomic_witness :
  diskFault world_one_row = NoFault
  /\ exists w',
       saveManifest emptyManifest world_one_row = (Ok tt, w')
       /\ manifestFile w' = Some (Document emptyManifest)
       /\ trace w' = [FsWrite ManifestJsonTmp; FsRename ManifestJsonTmp ManifestJson].
Proof.
  split; [ reflexivity | ].
  destruct (saveManifest_atomic emptyManifest world_one_row) as (_ & _ & Hsave & _ & Hok).
  destruct (Hok eq_refl) as (w' & Hrun & Htrace).
  exists w'. split; [ exact Hrun | ]. split; [ apply (Hsave _ _ Hrun) | exact Htrace ].
Defined.

(** The disk fails in the middle of the write: the temporary file holds a
    fragment, manifest.json is untouched. *)
Example saveManifest_failed_write :
  let w := {| configDir := true; lockFile := None;
              manifestFile :=
                Some (Document {| version := 1; skills := [record_of "pdf" "claude" None] |});
              manifestTmp := None; repoCache := ∅; skillDirs := ∅; skillSources := ∅;
              brokenTargets := ∅; diskFault := WriteFails (Some Unparseable);
              clock := 0; platform := posix; processTable := fun _ => NoSuchProcess;
              process_pid := 77; homedir := "/home/u"; trace := [] |} in
  fst (saveManifest emptyManifest w) = Throw (Errno "EIO")
  /\ manifestFile (snd (saveManifest emptyManifest w)) = manifestFile w
  /\ manifestTmp (snd (saveManifest emptyManifest w)) = Some Unparseable.
Proof. cbn. auto. Qed.

(** ** The repository cache *)

Lemma string_app_cons x (a b : string) : (String x a ++ b)%string = String x (a ++ b).
Proof. reflexivity. Qed.

Lemma string_app_assoc (a b c : string) : ((a ++ b) ++ c)%string = (a ++ (b ++ c))%string.
Proof.
  induction a as [| x a IH]; [ reflexivity | ].
  rewrite !string_app_cons. f_equal. exact IH.
Qed.

Lemma prefix_app (a b : string) : String.prefix a (a ++ b) = true.
Proof.
  induction a as [| x a IH]; [ by destruct b | ].
  rewrite string_app_cons. cbn [String.prefix].
  destruct (ascii_dec x x); [ exact IH | congruence ].
Qed.

Lemma isPathWithin_join dir file : isPathWithin dir (join dir file) = true.
Proof.
  unfold isPathWithin, join. rewrite <- string_app_assoc, prefix_app. apply orb_true_r.
Qed.

Lemma getCachePath_valid nm w :
  isValidConfigRepoName nm = true -> getCachePath nm w = (Ok (cache_path w nm), w).
Proof.
  intros Hv. unfold getCachePath, getReposCacheDir, getConfigDir, cache_path.
  rewrite Hv. unfold bind, gets, ret. cbn [negb]. rewrite isPathWithin_join. reflexivity.
Qed.

Lemma repoCache_emit e w : repoCache (emit e w) = repoCache w.
Proof. reflexivity. Qed.

Lemma existsSync_cache_eq path w :
  existsSync_cache path w
  = (Ok (match repoCache w !! path with Some _ => true | None => false end),
     emit (FsExists (CacheFile path)) w).
Proof. reflexivity. Qed.

Lemma readFileSync_cache_some path w content :
  repoCache w !! path = Some content ->
  readFileSync_cache path w = (Ok content, emit (FsRead (CacheFile path)) w).
Proof.
  intros H. unfold readFileSync_cache, bind, gets, event, modify, ret.
  rewrite repoCache_emit, H. reflexivity.
Qed.

Lemma loadRepoCache_valid nm w :
  isValidConfigRepoName nm = true ->
  loadRepoCache nm w
  = (Ok (cached_skills (repoCache w !! cache_path w nm)),
     match repoCache w !! cache_path w nm with
     | Some _ =>
         emit (FsRead (CacheFile (cache_path w nm)))
           (emit (FsExists (CacheFile (cache_path w nm))) w)
     | None => emit (FsExists (CacheFile (cache_path w nm))) w
     end).
Proof.
  intros Hv. unfold loadRepoCache. unfold bind at 1. rewrite (getCachePath_valid nm w Hv).
  unfold bind at 1. rewrite existsSync_cache_eq. unfold cached_skills.
  destruct (repoCache w !! cache_path w nm) as [content |] eqn:E; cbn [negb];
    [ | reflexivity ].
  unfold try_catch, bind.
  rewrite (readFileSync_cache_some _ _ content) by (rewrite repoCache_emit; exact E).
  destruct (parse content) as [[| b | q | s | l | fields] |]; cbn [get]; try reflexivity.
  destruct (last_field "skills" fields None) as [[| b | q | s | l | fields'] |]; reflexivity.
Qed.

(** C7 (amended).  For every source name [isValidConfigRepoName] accepts,
    [loadRepoCache] does not throw: it returns the empty list when the cache
    file is absent, is not JSON, or has no array under [skills], and the
    cached list otherwise.  For any other name it throws "Invalid repository
    name" before it looks at a file. *)
Theorem loadRepoCache_total_on_valid_names (nm : string) (w : World) :
  (isValidConfigRepoName nm = true ->
     exists w',
       loadRepoCache nm w = (Ok (cached_skills (repoCache w !! cache_path w nm)), w')
       /\ repoCache w' = repoCache w)
  /\ (isValidConfigRepoName nm = false ->
        loadRepoCache nm w = (Throw (JsError ("Invalid repository name: " ++ nm)), w))
  /\ cached_skills None = []
  /\ (forall content, parse content = None -> cached_skills (Some content) = [])
  /\ (forall content cache,
        parse content = Some cache ->
        (forall l, get cache "skills" <> Some (JArr l)) ->
        cached_skills (Some content) = [])
  /\ (forall content cache l,
        parse content = Some cache -> get cache "skills" = Some (JArr l) ->
        cached_skills (Some content) = l).
Proof.
  split.
  { intros Hv. rewrite (loadRepoCache_valid nm w Hv). eexists. split; [ reflexivity | ].
    by destruct (repoCache w !! cache_path w nm). }
  split.
  { intros Hv. unfold loadRepoCache, getCachePath, bind. rewrite Hv. reflexivity. }
  split; [ reflexivity | ].
  split; [ intros content Hp; cbn; by rewrite Hp | ].
  split.
  - intros content cache Hp Hno. cbn. rewrite Hp.
    destruct (get cache "skills") as [[| b | q | s | l | fields] |]; try reflexivity.
    by destruct (Hno l).
  - intros content cache l Hp Hg. cbn. by rewrite Hp, Hg.
Qed.

Lemma loadRepoCache_total_on_valid_names_witness :
  isValidConfigRepoName "anthropic-official" = true
  /\ isValidConfigRepoName "../manifest" = false
  /\ (exists w',
        loadRepoCache "anthropic-official" world_cached
        = (Ok [JObj [("name", JStr "pdf-tools")]], w'))
  /\ loadRepoCache "../manifest" world_cached
     = (Throw (JsError "Invalid repository name: ../manifest"), world_cached).
Proof.
  split; [ reflexivity | ]. split; [ reflexivity | ].
  destruct (loadRepoCache_total_on_valid_names "anthropic-official" world_cached)
    as (Hvalid & _).
  destruct (loadRepoCache_total_on_valid_names "../manifest" world_cached)
    as (_ & Hinvalid & _).
  split.
  - destruct (Hvalid eq_refl) as (w' & Hrun & _). exists w'. exact Hrun.
  - exact (Hinvalid eq_refl).
Defined.

(** C7, as stated, fails: a name the validation rejects makes
    [loadRepoCache] throw. *)
Lemma loadRepoCache_invalid_name_counterexample :
  ~ (forall (nm : string) (w : World), exists l w', loadRepoCache nm w = (Ok l, w')).
Proof.
  intros H. destruct (H "../manifest" world0) as (l & w' & Hrun).
  assert (Hthrow : fst (loadRepoCache "../manifest" world0)
                   = Throw (JsError "Invalid repository name: ../manifest"))
    by reflexivity.
  rewrite Hrun in Hthrow. discriminate Hthrow.
Qed.

(** ** A marker that holds a bare process id *)

Lemma is_digit_cases c :
  is_digit c = true ->
  In c ["0"; "1"; "2"; "3"; "4"; "5"; "6"; "7"; "8"; "9"]%char.
Proof.
  destruct c as [[] [] [] [] [] [] [] []]; intros H; try discriminate H;
    cbn; repeat first [ left; reflexivity | right ].
Qed.

Lemma read_digits_all s acc n :
  Forall (fun d => is_digit d = true) (list_ascii_of_string s) ->
  exists v k, read_digits s acc n = (v, k, EmptyString).
Proof.
  revert acc n. induction s as [| c s IH]; intros acc n H.
  - by eexists _, _.
  - cbn in H. apply Forall_cons in H as [Hc Hs]. cbn [read_digits]. rewrite Hc.
    apply IH, Hs.
Qed.

Lemma parse_value_digit fuel c rest :
  is_digit c = true ->
  parse_value (S fuel) (String c rest)
  = match parse_number (String c rest) with
    | Some (q, r) => Some (JNum q, r)
    | None => None
    end.
Proof.
  intros Hc. apply is_digit_cases in Hc.
  repeat (destruct Hc as [<- | Hc]; [ reflexivity | ]). destruct Hc.
Qed.

Lemma code_inj c c' : code c = code c' -> c = c'.
Proof.
  unfold code. intros H. apply N2Z.inj in H.
  rewrite <- (ascii_N_embedding c), <- (ascii_N_embedding c'). by rewrite H.
Qed.

Lemma starts_with_other c0 c rest : c0 <> c -> starts_with c0 (String c rest) = None.
Proof.
  intros Hne. cbn [starts_with]. destruct (Ascii.eqb c0 c) eqn:E; [ | reflexivity ].
  apply Ascii.eqb_eq in E. contradiction.
Qed.

Lemma parse_number_bare s :
  bare_positive_integer s -> exists q, parse_number s = Some (q, EmptyString).
Proof.
  destruct s as [| c rest]; [ intros [] | ]. intros (Hc & Hnz & Hrest).
  unfold parse_number.
  rewrite starts_with_other by (intros <-; discriminate Hc).
  unfold read_int_part.
  replace (code c =? 48) with false
    by (symmetry; apply Z.eqb_neq; intros H; apply Hnz, code_inj, H).
  rewrite Hc. cbn [read_digits]. rewrite Hc.
  destruct (read_digits_all rest (10 * 0 + digit_val c) 1 Hrest) as (v & k & E).
  rewrite E. eexists. reflexivity.
Qed.

Lemma parse_bare_integer s :
  bare_positive_integer s -> exists q, parse s = Some (JNum q).
Proof.
  intros Hs. destruct (parse_number_bare s Hs) as (q & Hq).
  exists q. unfold parse.
  replace (2 * String.length s + 2)%nat with (S (2 * String.length s + 1)) by lia.
  destruct s as [| c rest]; [ destruct Hs | ].
  rewrite parse_value_digit by apply Hs. rewrite Hq. reflexivity.
Qed.

Lemma acquireLock_invalid_marker w content :
  lockFile w = Some content -> configDir w = true -> parseLockInfo content = None ->
  acquireLock w
  = (Ok true,
     set_lockFile (Some (own_marker w))
       (emit (FsWriteExcl LockFile)
          (set_lockFile None
             (emit (FsUnlink LockFile)
                (emit (FsRead LockFile) (emit (FsWriteExcl LockFile) w)))))).
Proof.
  intros Hl Hd Hp.
  unfold acquireLock, bind at 1, Date_now, gets at 1, acquireLock_fuel.
  cbn [Nat.add]. rewrite acquireLock_loop_unfold.
  replace (clock w - clock w <? LOCK_TIMEOUT_MS) with true
    by (rewrite Z.sub_diag; reflexivity).
  rewrite (pass_invalid_marker w content Hl Hp).
  rewrite acquireLock_loop_unfold. cbn [clock set_lockFile emit].
  replace (clock w - clock w <? LOCK_TIMEOUT_MS) with true
    by (rewrite Z.sub_diag; reflexivity).
  rewrite pass_free by (cbn; first [ reflexivity | exact Hd ]). reflexivity.
Qed.

(** C10 (the code does otherwise).  A marker whose content is a bare
    positive integer is JSON: [JSON.parse] returns the number, the [catch]
    branch with the legacy parse is not entered, and [parseLockInfo] returns
    null, not a lock of timestamp 0.  [acquireLock] then removes the marker
    as invalid content and takes the lock, for every caller, the process of
    that id included. *)
Theorem bare_pid_marker_is_not_legacy (s : string) (w : World) :
  bare_positive_integer s ->
  (exists q, parse s = Some (JNum q))
  /\ parseLockInfo s = None
  /\ (lockFile w = Some s -> configDir w = true ->
      exists w',
        acquireLock w = (Ok true, w')
        /\ lockFile w' = Some (own_marker w)
        /\ trace w'
           = (trace w ++ [FsWriteExcl LockFile; FsRead LockFile; FsUnlink LockFile;
                          FsWriteExcl LockFile])%list).
Proof.
  intros Hs. destruct (parse_bare_integer s Hs) as (q & Hq).
  assert (Hp : parseLockInfo s = None) by (unfold parseLockInfo; rewrite Hq; reflexivity).
  split; [ by exists q | ]. split; [ exact Hp | ].
  intros Hl Hd. rewrite (acquireLock_invalid_marker w s Hl Hd Hp).
  eexists. split; [ reflexivity | ]. split; [ reflexivity | ].
  cbn. by rewrite <- !app_assoc.
Qed.

Lemma bare_pid_marker_is_not_legacy_witness :
  bare_positive_integer "1234"
  /\ parse "1234" = Some (JNum 1234)
  /\ parseLockInfo "1234" = None
  /\ exists w',
       acquireLock world_legacy_marker = (Ok true, w')
       /\ lockFile w' = Some (stringify_lock 1234 1700000000000).
Proof.
  assert (Hb : bare_positive_integer "1234").
  { cbn. split; [ reflexivity | ]. split; [ discriminate | ].
    repeat (constructor; [ reflexivity | ]). constructor. }
  destruct (bare_pid_marker_is_not_legacy "1234" world_legacy_marker Hb)
    as (_ & Hp & Hacq).
  split; [ exact Hb | ]. split; [ reflexivity | ]. split; [ exact Hp | ].
  destruct (Hacq eq_refl eq_refl) as (w' & Hrun & Hl & _).
  exists w'. split; [ exact Hrun | exact Hl ].
Defined.

(** The legacy branch is reached by text that is not JSON. *)
Example legacy_branch_needs_invalid_json :
  parseLockInfo "+1234" = Some {| pid := 1234; timestamp := 0 |}
  /\ parseLockInfo "0123" = Some {| pid := 123; timestamp := 0 |}
  /\ parseLockInfo "12 34" = Some {| pid := 12; timestamp := 0 |}
  /\ parseLockInfo (stringify_lock 4242 1699999999000)
     = Some {| pid := 4242; timestamp := 1699999999000 |}.
Proof. vm_compute. auto. Qed.

(** ** The rollback of a failed install *)

Lemma uninstallSkill_keeps_manifest ag nm sc w :
  manifestFile (snd (uninstallSkill ag nm sc w)) = manifestFile w.
Proof.
  unfold uninstallSkill, bind, gets, event, modify, ret, throw.
  change (skillDirs (emit (AgentUninstall ag nm sc) w)) with (skillDirs w).
  destruct (decide ((ag, sc, nm) ∈ skillDirs w)); [ | reflexivity ].
  change (brokenTargets (emit (AgentUninstall ag nm sc) w)) with (brokenTargets w).
  destruct (decide (ag ∈ brokenTargets w)); reflexivity.
Qed.

(** The rollback calls [uninstallSkill] only: whatever it is given, it
    leaves manifest.json as it is. *)
Lemma rollback_keeps_manifest sc installedSkills w :
  manifestFile (snd (rollback sc installedSkills w)) = manifestFile w.
Proof.
  revert w. induction installedSkills as [| [nm agentName] rest IH]; intros w;
    [ reflexivity | ].
  cbn [rollback]. unfold bind at 1.
  destruct (getAgent agentName) as [agent' |].
  - unfold try_catch, bind at 1.
    pose proof (uninstallSkill_keeps_manifest agent' nm sc w) as Hu.
    destruct (uninstallSkill agent' nm sc w) as [[b | e] w1]; cbn [snd] in Hu;
      unfold ret; rewrite IH; exact Hu.
  - unfold ret. apply IH.
Qed.

Lemma uninstallSkill_attempt_returns ag nm sc w :
  exists w', try_catch (uninstallSkill ag nm sc ;; ret tt) (fun _ => ret tt) w = (Ok tt, w').
Proof.
  unfold try_catch, bind, ret.
  destruct (uninstallSkill ag nm sc w) as [[b | e] w1]; by eexists.
Qed.

(** A failure of [uninstallSkill] does not leave the rollback. *)
Lemma rollback_returns sc installedSkills w :
  exists w', rollback sc installedSkills w = (Ok tt, w').
Proof.
  revert w. induction installedSkills as [| [nm agentName] rest IH]; intros w;
    [ by eexists | ].
  cbn [rollback]. unfold bind at 1.
  destruct (getAgent agentName) as [agent' |].
  - destruct (uninstallSkill_attempt_returns agent' nm sc w) as (w1 & ->). apply IH.
  - unfold ret. apply IH.
Qed.

(** Whatever the loop installed, the exception that left it is thrown
    again, and manifest.json is what the loop made of it. *)
Lemma install_failure_rethrows context skillPath sc selectedSkills selectedAgents w
    installedSkills err w1 :
  install_skills context skillPath sc selectedSkills selectedAgents [] w
  = (Ok (installedSkills, Some err), w1) ->
  exists w',
    installFromGitHub_install context skillPath sc selectedSkills selectedAgents w
    = (Throw err, w')
    /\ manifestFile w' = manifestFile w1.
Proof.
  intros Hrun. unfold installFromGitHub_install. unfold bind at 1. rewrite Hrun.
  unfold bind at 1.
  destruct (Nat.ltb 0 (List.length installedSkills)).
  - pose proof (rollback_keeps_manifest sc installedSkills w1) as Hkeep.
    destruct (rollback_returns sc installedSkills w1) as (w' & Hrb).
    rewrite Hrb in *. exists w'. split; [ reflexivity | exact Hkeep ].
  - exists w1. split; reflexivity.
Qed.

(** C1 (the code does otherwise).  One skill for three targets, the install
    of the second target throws: the error is thrown again and the skill
    directory of the first target is removed by [uninstallSkill], but the
    record of the first target stays in manifest.json. *)
Theorem rollback_leaves_record_in_manifest :
  fst (install_request world_install) = Throw (Errno "EACCES")
  /\ skillDirs (snd (install_request world_install)) = ∅
  /\ In (AgentUninstall "claude" "pdf" project) (trace (snd (install_request world_install)))
  /\ manifestFile (snd (install_request world_install))
     = Some (Document
               {| version := 1;
                  skills := [ {| name := "pdf"; agent := "claude";
                                 repoOwner := "anthropics"; repoName := "skills";
                                 repoPath := None; commitHash := "abc123";
                                 installedAt := "1700000000000";
                                 scope := Some project |} ] |}).
Proof.
  split; [ vm_compute; reflexivity | ]. split; [ vm_compute; reflexivity | ].
  split; [ vm_compute; auto 20 | vm_compute; reflexivity ].
Qed.

(** * Further properties of the code *)

Lemma read_digits_stop rest acc n :
  ends_number rest = true -> read_digits rest acc n = (acc, n, rest).
Proof.
  destruct rest as [| c r]; [ reflexivity | ]. cbn [ends_number read_digits].
  destruct (is_digit c); [ discriminate | reflexivity ].
Qed.

Lemma read_digits_uint d rest acc n :
  ends_number rest = true ->
  exists k, read_digits (NilEmpty.string_of_uint d ++ rest) acc n = (uint_val d acc, k, rest).
Proof.
  intros Hr. revert acc n.
  induction d as [| d IH | d IH | d IH | d IH | d IH | d IH | d IH | d IH | d IH | d IH];
    intros acc n; cbn [NilEmpty.string_of_uint uint_val];
    [ exists n; by apply read_digits_stop | .. ];
    rewrite string_app_cons; cbn [read_digits];
    match goal with
    | |- context [is_digit ?c] =>
        change (is_digit c) with true; cbv iota;
        let v := eval vm_compute in (digit_val c) in change (digit_val c) with v
    end; apply IH.
Qed.

Lemma uint_val_of_uint_acc d acc : Z.pos (Pos.of_uint_acc d acc) = uint_val d (Z.pos acc).
Proof.
  revert acc. induction d; intros acc; cbn [Pos.of_uint_acc uint_val];
    [ reflexivity | rewrite IHd; f_equal; lia .. ].
Qed.

Lemma uint_val_of_uint d : Z.of_N (Pos.of_uint d) = uint_val d 0.
Proof.
  induction d; cbn [Pos.of_uint uint_val]; try reflexivity; try exact IHd;
    cbn [Z.of_N]; rewrite uint_val_of_uint_acc; reflexivity.
Qed.

Lemma uint_val_to_uint p : uint_val (Pos.to_uint p) 0 = Z.pos p.
Proof. rewrite <- uint_val_of_uint, DecimalPos.Unsigned.of_to. reflexivity. Qed.

(** The decimal rendering of a positive number starts with a digit from 1
    to 9. *)
Lemma to_uint_head p :
  exists c s,
    NilEmpty.string_of_uint (Pos.to_uint p) = String c s
    /\ is_digit c = true /\ c <> "0"%char.
Proof.
  pose proof (DecimalPos.Unsigned.to_of (Pos.to_uint p)) as Hn.
  rewrite DecimalPos.Unsigned.of_to in Hn. cbn [N.to_uint] in Hn.
  pose proof (DecimalPos.Unsigned.to_uint_nonzero p) as Hz.
  pose proof (DecimalPos.Unsigned.to_uint_nonnil p) as Hnil.
  destruct (Pos.to_uint p) as [| d | d | d | d | d | d | d | d | d | d] eqn:E;
    [ congruence | | cbn [NilEmpty.string_of_uint]; eexists _, _;
                     (split; [ reflexivity | split; [ reflexivity | discriminate ] ]) .. ].
  exfalso. rewrite DecimalFacts.unorm_D0 in Hn.
  destruct (Decimal.nzhead d) as [| d' | d' | d' | d' | d' | d' | d' | d' | d' | d'] eqn:En.
  - assert (H0 : Decimal.unorm d = Decimal.zero) by (by apply DecimalFacts.unorm_0). rewrite H0 in Hn.
    congruence.
  - by destruct (DecimalFacts.nzhead_nonzero d d').
  - rewrite DecimalFacts.unorm_nzhead in Hn by congruence. rewrite En in Hn. discriminate.
  - rewrite DecimalFacts.unorm_nzhead in Hn by congruence. rewrite En in Hn. discriminate.
  - rewrite DecimalFacts.unorm_nzhead in Hn by congruence. rewrite En in Hn. discriminate.
  - rewrite DecimalFacts.unorm_nzhead in Hn by congruence. rewrite En in Hn. discriminate.
  - rewrite DecimalFacts.unorm_nzhead in Hn by congruence. rewrite En in Hn. discriminate.
  - rewrite DecimalFacts.unorm_nzhead in Hn by congruence. rewrite En in Hn. discriminate.
  - rewrite DecimalFacts.unorm_nzhead in Hn by congruence. rewrite En in Hn. discriminate.
  - rewrite DecimalFacts.unorm_nzhead in Hn by congruence. rewrite En in Hn. discriminate.
  - rewrite DecimalFacts.unorm_nzhead in Hn by congruence. rewrite En in Hn. discriminate.
Qed.

Lemma read_int_part_pos p rest :
  ends_number rest = true ->
  read_int_part (NilEmpty.string_of_uint (Pos.to_uint p) ++ rest) = Some (Z.pos p, rest).
Proof.
  intros Hr.
  destruct (read_digits_uint (Pos.to_uint p) rest 0 0 Hr) as (k & Hk).
  rewrite uint_val_to_uint in Hk.
  destruct (to_uint_head p) as (c & s & Hs & Hc & Hnz).
  rewrite Hs in *. rewrite string_app_cons in *. unfold read_int_part.
  replace (code c =? 48) with false
    by (symmetry; apply Z.eqb_neq; intros H; apply Hnz, code_inj, H).
  rewrite Hc, Hk. reflexivity.
Qed.

Lemma read_frac_part_none rest :
  ends_number rest = true -> read_frac_part rest = Some (0, O, rest).
Proof.
  destruct rest as [| c r]; [ reflexivity | ]. cbn [ends_number]. intros H.
  unfold read_frac_part, starts_with.
  rewrite Ascii.eqb_sym. destruct (Ascii.eqb c "."); [ | reflexivity ].
  destruct (is_digit c); discriminate.
Qed.

Lemma read_exp_part_none rest :
  ends_number rest = true -> read_exp_part rest = Some (0, rest).
Proof.
  destruct rest as [| c r]; [ reflexivity | ]. cbn [ends_number]. intros H.
  unfold read_exp_part.
  apply andb_prop in H as [H HE]. apply andb_prop in H as [H He].
  apply negb_true_iff, Ascii.eqb_neq in HE. apply negb_true_iff, Ascii.eqb_neq in He.
  replace (code c =? 101) with false
    by (symmetry; apply Z.eqb_neq; intros Hc; apply He, code_inj, Hc).
  replace (code c =? 69) with false
    by (symmetry; apply Z.eqb_neq; intros Hc; apply HE, code_inj, Hc).
  reflexivity.
Qed.

Lemma string_of_uint_pos p :
  NilZero.string_of_uint (Pos.to_uint p) = NilEmpty.string_of_uint (Pos.to_uint p).
Proof.
  pose proof (DecimalPos.Unsigned.to_uint_nonnil p) as Hnil.
  unfold NilZero.string_of_uint. by destruct (Pos.to_uint p).
Qed.

(** [JSON.parse] reads back the integer [JSON.stringify] printed. *)
Lemma parse_number_show_Z z rest :
  ends_number rest = true ->
  parse_number (show_Z z ++ rest) = Some (inject_Z z, rest).
Proof.
  intros Hr. unfold show_Z, parse_number.
  destruct z as [| p | p]; cbn [Z.to_int NilZero.string_of_int].
  - change (NilZero.string_of_uint Decimal.zero ++ rest)%string with (String "0" rest).
    rewrite starts_with_other by discriminate. unfold read_int_part.
    change (code "0" =? 48) with true. cbv iota.
    rewrite read_frac_part_none, read_exp_part_none by exact Hr. reflexivity.
  - rewrite string_of_uint_pos.
    destruct (to_uint_head p) as (c & s & Hs & Hc & Hnz).
    rewrite Hs, string_app_cons, starts_with_other by (intros <-; discriminate Hc).
    rewrite <- string_app_cons, <- Hs, read_int_part_pos by exact Hr.
    rewrite read_frac_part_none, read_exp_part_none by exact Hr.
    unfold decimal. cbn [Z.of_nat Z.leb Z.compare Z.sub Z.opp Z.add].
    do 3 f_equal. lia.
  - rewrite string_of_uint_pos, string_app_cons. cbn [starts_with].
    change (Ascii.eqb "-" "-") with true. cbv iota.
    rewrite read_int_part_pos by exact Hr.
    rewrite read_frac_part_none, read_exp_part_none by exact Hr.
    unfold decimal. cbn [Z.of_nat Z.leb Z.compare Z.sub Z.opp Z.add].
    do 3 f_equal. lia.
Qed.

Lemma show_Z_head z :
  exists c s, show_Z z = String c s /\ (is_digit c = true \/ c = "-"%char).
Proof.
  unfold show_Z. destruct z as [| p | p]; cbn [Z.to_int NilZero.string_of_int].
  - eexists _, _. split; [ reflexivity | by left ].
  - rewrite string_of_uint_pos. destruct (to_uint_head p) as (c & s & Hs & Hc & _).
    exists c, s. split; [ exact Hs | by left ].
  - eexists _, _. split; [ reflexivity | by right ].
Qed.

Lemma parse_value_minus fuel rest :
  parse_value (S fuel) (String "-" rest)
  = match parse_number (String "-" rest) with
    | Some (q, r) => Some (JNum q, r)
    | None => None
    end.
Proof. reflexivity. Qed.

Lemma parse_value_show_Z fuel z rest :
  ends_number rest = true ->
  parse_value (S fuel) (show_Z z ++ rest) = Some (JNum (inject_Z z), rest).
Proof.
  intros Hr. pose proof (parse_number_show_Z z rest Hr) as Hn.
  destruct (show_Z_head z) as (c & s & Hs & [Hc | ->]); rewrite Hs in *;
    rewrite string_app_cons in *.
  - rewrite parse_value_digit by exact Hc. by rewrite Hn.
  - rewrite parse_value_minus. by rewrite Hn.
Qed.

Lemma stringify_lock_text p t :
  stringify_lock p t
  = String "{" (quoted "pid" ++ String ":" (show_Z p ++ String ","
      (quoted "timestamp" ++ String ":" (show_Z t ++ String "}" EmptyString)))).
Proof. reflexivity. Qed.

Lemma value_step_object pe pm r :
  value_step pe pm (String "{" (String dquote r)) = pm (String dquote r) [].
Proof. reflexivity. Qed.

Lemma members_step_pid pv pm r acc v rest :
  pv r = Some (v, String "," rest) ->
  members_step pv pm (quoted "pid" ++ String ":" r) acc = pm rest (("pid", v) :: acc).
Proof.
  intros H.
  change (members_step pv pm (quoted "pid" ++ String ":" r) acc)
    with (match pv r with
          | Some (v0, rest3) =>
              match starts_with "," (skip_ws rest3) with
              | Some rest4 => pm rest4 (("pid", v0) :: acc)
              | None =>
                  match starts_with "}" (skip_ws rest3) with
                  | Some rest4 => Some (JObj (rev (("pid", v0) :: acc)), rest4)
                  | None => None
                  end
              end
          | None => None
          end).
  rewrite H. reflexivity.
Qed.

Lemma members_step_timestamp pv pm r acc v rest :
  pv r = Some (v, String "}" rest) ->
  members_step pv pm (quoted "timestamp" ++ String ":" r) acc
  = Some (JObj (rev (("timestamp", v) :: acc)), rest).
Proof.
  intros H.
  change (members_step pv pm (quoted "timestamp" ++ String ":" r) acc)
    with (match pv r with
          | Some (v0, rest3) =>
              match starts_with "," (skip_ws rest3) with
              | Some rest4 => pm rest4 (("timestamp", v0) :: acc)
              | None =>
                  match starts_with "}" (skip_ws rest3) with
                  | Some rest4 => Some (JObj (rev (("timestamp", v0) :: acc)), rest4)
                  | None => None
                  end
              end
          | None => None
          end).
  rewrite H. reflexivity.
Qed.

Lemma parse_value_lock p t :
  parse_value 4 (stringify_lock p t)
  = Some (JObj [("pid", JNum (inject_Z p)); ("timestamp", JNum (inject_Z t))], EmptyString).
Proof.
  rewrite stringify_lock_text.
  change (parse_value 4) with (value_step (parse_elements 3) (parse_members 3)).
  unfold quoted at 1. rewrite string_app_cons, value_step_object.
  change (parse_members 3) with (members_step (parse_value 2) (parse_members 2)).
  change (String dquote ("pid" ++ String dquote EmptyString)) with (quoted "pid").
  rewrite <- string_app_cons.
  change (String dquote ("pid" ++ String dquote EmptyString)) with (quoted "pid").
  erewrite members_step_pid by (apply (parse_value_show_Z 1); reflexivity).
  change (parse_members 2) with (members_step (parse_value 1) (parse_members 1)).
  erewrite members_step_timestamp by (apply (parse_value_show_Z 0); reflexivity).
  reflexivity.
Qed.

Lemma parse_lock p t :
  parse (stringify_lock p t)
  = Some (JObj [("pid", JNum (inject_Z p)); ("timestamp", JNum (inject_Z t))]).
Proof.
  pose proof (parse_value_lock p t) as H.
  destruct (fuel_enough 4) as (Hv & _). apply Hv in H as [_ Hfuel].
  unfold parse. rewrite Hfuel by (cbn [String.length]; lia). reflexivity.
Qed.

Lemma parseLockInfo_stringify_lock (p t : Z) :
  parseLockInfo (stringify_lock p t)
  = Some {| pid := inject_Z p; timestamp := inject_Z t |}.
Proof. unfold parseLockInfo. rewrite parse_lock. reflexivity. Qed.


(** ** What [acquireLock] leaves behind *)

Lemma owns_lock_own_marker w w' :
  lockFile w' = Some (own_marker w) -> process_pid w' = process_pid w -> owns_lock w' = true.
Proof.
  intros Hl Hp. unfold owns_lock, marker_pid, own_marker in *.
  rewrite Hl, parseLockInfo_stringify_lock. cbn [option_map pid]. rewrite Hp.
  apply Qeq_bool_iff. reflexivity.
Qed.

Lemma pass_post w r w1 :
  acquireLock_pass w = (Ok r, w1) ->
  match r with
  | Return b => b = true /\ owns_lock w1 = true /\ clock w1 = clock w
  | Continue =>
      clock w1 = clock w
      \/ (held_by_other w1 = true /\ clock w1 = clock w + LOCK_RETRY_MS)
  | Backoff => False
  end.
Proof.
  destruct (lockFile w) as [content |] eqn:Hl.
  - destruct (parseLockInfo content) as [lockInfo |] eqn:Hp.
    + destruct (Qeq_bool (pid lockInfo) (inject_Z (process_pid w))) eqn:Hq.
      * rewrite (pass_own_marker w content lockInfo Hl Hp Hq). intros [= <- <-].
        split; [ reflexivity | ]. split; [ | reflexivity ].
        unfold owns_lock, marker_pid. cbn. rewrite Hl, Hp. exact Hq.
      * destruct (abandoned lockInfo w) eqn:Ha.
        -- destruct (configDir w) eqn:Hd.
           ++ rewrite (pass_abandoned_marker w content lockInfo Hl Hp Hq Ha Hd).
              intros [= <- <-]. split; [ reflexivity | ]. split; [ | reflexivity ].
              by apply (owns_lock_own_marker w).
           ++ rewrite (pass_abandoned_no_directory w content lockInfo Hl Hp Hq Ha Hd).
              intros [= <- <-]. by left.
        -- rewrite (pass_held_marker w content lockInfo Hl Hp Hq Ha). intros [= <- <-].
           right. split; [ | reflexivity ].
           unfold held_by_other, marker_pid. cbn [lockFile set_clock emit].
           rewrite Hl, Hp. cbn [option_map process_pid set_clock emit]. rewrite Hq.
           unfold abandoned in Ha. apply orb_false_elim in Ha as [Ha _].
           apply negb_false_iff in Ha. exact Ha.
    + rewrite (pass_invalid_marker w content Hl Hp). intros [= <- <-]. by left.
  - destruct (configDir w) eqn:Hd.
    + rewrite (pass_free w Hl Hd). intros [= <- <-]. split; [ reflexivity | ].
      split; [ | reflexivity ]. by apply (owns_lock_own_marker w).
    + rewrite (pass_no_directory w Hl Hd). intros [= <- <-]. by left.
Qed.

Lemma acquireLock_loop_post fuel startTime w b w' :
  acquireLock_loop fuel startTime w = (Ok b, w') ->
  clock w - startTime < LOCK_TIMEOUT_MS
  \/ (held_by_other w = true /\ clock w - startTime < LOCK_TIMEOUT_MS + LOCK_RETRY_MS) ->
  (if b then owns_lock w' = true
   else held_by_other w' = true /\ LOCK_TIMEOUT_MS <= clock w' - startTime)
  /\ clock w' - startTime < LOCK_TIMEOUT_MS + LOCK_RETRY_MS.
Proof.
  revert w. induction fuel as [| n IH]; intros w; [ discriminate | ].
  rewrite acquireLock_loop_unfold.
  destruct (clock w - startTime <? LOCK_TIMEOUT_MS) eqn:Ht.
  - apply Z.ltb_lt in Ht.
    destruct (acquireLock_pass w) as [[r | e] w1] eqn:Hpass; [ | discriminate ].
    pose proof (pass_post w r w1 Hpass) as Hpost.
    destruct r as [b' | |]; [ | | contradiction ].
    + intros [= <- <-] _. destruct Hpost as (-> & Hown & Hc). split; [ exact Hown | ].
      rewrite Hc. unfold LOCK_RETRY_MS. lia.
    + intros Hrun _. apply (IH w1 Hrun).
      destruct Hpost as [Hc | [Hh Hc]]; [ left | right ]; rewrite Hc; [ exact Ht | ].
      split; [ exact Hh | lia ].
  - intros [= <- <-] [Hlt | [Hh Hlt]]; apply Z.ltb_ge in Ht; [ lia | ]. by repeat split.
Qed.

Lemma acquireLock_post w b w' :
  acquireLock w = (Ok b, w') ->
  (if b then owns_lock w' = true
   else held_by_other w' = true /\ LOCK_TIMEOUT_MS <= clock w' - clock w)
  /\ clock w' - clock w < LOCK_TIMEOUT_MS + LOCK_RETRY_MS.
Proof.
  intros H. apply (acquireLock_loop_post acquireLock_fuel (clock w) w b w'); [ exact H | ].
  left. unfold LOCK_TIMEOUT_MS. lia.
Qed.



(** X1.  The marker a process writes, [JSON.stringify({ pid, timestamp })],
    is JSON for all integers: [JSON.parse] gives back the object with the
    two numbers, and [parseLockInfo] reads the marker as that process id and
    that instant, through its first branch. *)
Theorem lock_marker_round_trip (p t : Z) :
  parse (stringify_lock p t)
  = Some (JObj [("pid", JNum (inject_Z p)); ("timestamp", JNum (inject_Z t))])
  /\ parseLockInfo (stringify_lock p t)
     = Some {| pid := inject_Z p; timestamp := inject_Z t |}.
Proof.
  pose proof (parse_value_lock p t) as H.
  destruct (fuel_enough 4) as (Hv & _). apply Hv in H as [_ Hfuel].
  assert (Hparse : parse (stringify_lock p t)
                   = Some (JObj [("pid", JNum (inject_Z p));
                                 ("timestamp", JNum (inject_Z t))])).
  { unfold parse. rewrite Hfuel by (cbn [String.length]; lia). reflexivity. }
  split; [ exact Hparse | ].
  unfold parseLockInfo. rewrite Hparse. reflexivity.
Qed.

Lemma acquireLock_own w :
  owns_lock w = true ->
  acquireLock w = (Ok true, emit (FsRead LockFile) (emit (FsWriteExcl LockFile) w)).
Proof.
  unfold owns_lock, marker_pid. intros Hown.
  destruct (lockFile w) as [content |] eqn:Hl; [ | discriminate ].
  destruct (parseLockInfo content) as [lockInfo |] eqn:Hp; [ | discriminate ].
  cbn [option_map] in Hown.
  unfold acquireLock, bind at 1, Date_now, gets at 1, acquireLock_fuel.
  cbn [Nat.add]. rewrite acquireLock_loop_unfold.
  replace (clock w - clock w <? LOCK_TIMEOUT_MS) with true
    by (rewrite Z.sub_diag; reflexivity).
  rewrite (pass_own_marker w content lockInfo Hl Hp Hown). reflexivity.
Qed.

(** X3.  The lock is re-entrant for the process that holds it: after a
    successful [acquireLock], a second call returns [true] at once; it
    reads the marker and leaves it and the clock as they are. *)
Theorem acquireLock_reentrant (w w1 : World) :
  acquireLock w = (Ok true, w1) ->
  exists w2,
    acquireLock w1 = (Ok true, w2)
    /\ lockFile w2 = lockFile w1
    /\ clock w2 = clock w1
    /\ trace w2 = (trace w1 ++ [FsWriteExcl LockFile; FsRead LockFile])%list.
Proof.
  intros Hacq. destruct (acquireLock_post w true w1 Hacq) as [Hown _].
  rewrite (acquireLock_own w1 Hown). eexists. split; [ reflexivity | ].
  cbn. by rewrite <- app_assoc.
Qed.

Lemma acquireLock_reentrant_witness :
  exists w2,
    acquireLock (taken world0) = (Ok true, w2)
    /\ lockFile w2 = Some (stringify_lock 77 1700000000000).
Proof.
  destruct (acquireLock_reentrant world0 (taken world0) (acquireLock_free world0 eq_refl))
    as (w2 & Hrun & Hl & _).
  exists w2. split; [ exact Hrun | ]. rewrite Hl. reflexivity.
Defined.


Lemma acquireLock_loop_live_holder fuel startTime w content lockInfo :
  lockFile w = Some content -> parseLockInfo content = Some lockInfo ->
  Qeq_bool (pid lockInfo) (inject_Z (process_pid w)) = false ->
  processAlive w (pid lockInfo) = true ->
  Qeq_bool (timestamp lockInfo) 0 = false ->
  (inject_Z (startTime + LOCK_TIMEOUT_MS) - timestamp lockInfo <= inject_Z LOCK_STALE_MS)%Q ->
  (Z.to_nat (startTime + LOCK_TIMEOUT_MS - clock w) < fuel)%nat ->
  exists w',
    acquireLock_loop fuel startTime w = (Ok false, w')
    /\ lockFile w' = Some content
    /\ exists evs,
         trace w' = (trace w ++ evs)%list
         /\ forallb (fun e => negb (is_unlink_lock e)) evs = true.
Proof.
  intros Hl Hp Hq Hal Hz Hf. revert w Hl Hq Hal.
  induction fuel as [| n IH]; intros w Hl Hq Hal Hm; [ lia | ].
  rewrite acquireLock_loop_unfold.
  destruct (clock w - startTime <? LOCK_TIMEOUT_MS) eqn:Ht.
  - apply Z.ltb_lt in Ht.
    assert (Ha : abandoned lockInfo w = false).
    { unfold abandoned. rewrite Hal. cbn.
      apply (lockStale_fresh w lockInfo (startTime + LOCK_TIMEOUT_MS)); [ done | done | lia ]. }
    rewrite (pass_held_marker w content lockInfo Hl Hp Hq Ha).
    destruct (IH (set_clock (clock w + LOCK_RETRY_MS)
                    (emit (Slept LOCK_RETRY_MS)
                       (emit (FsRead LockFile) (emit (FsWriteExcl LockFile) w)))))
      as (w' & Hrun & Hl' & evs & Htr & Hev);
      [ exact Hl | exact Hq | exact Hal | cbn; unfold LOCK_RETRY_MS; lia | ].
    exists w'. split; [ exact Hrun | ]. split; [ exact Hl' | ].
    exists ([FsWriteExcl LockFile; FsRead LockFile; Slept LOCK_RETRY_MS] ++ evs)%list.
    split; [ | exact Hev ]. rewrite Htr. cbn. by rewrite <- !app_assoc.
  - exists w. split; [ reflexivity | ]. split; [ exact Hl | ].
    exists []. split; [ by rewrite app_nil_r | reflexivity ].
Qed.

(** X5.  Mutual exclusion against a live holder.  While the marker of another
    process that counts as running stays younger than [LOCK_STALE_MS] up to
    the deadline of the call, [acquireLock] never removes it: the call
    returns [false], the marker is what it was, and no call of the trace
    unlinks it. *)
Theorem live_holder_marker_is_never_removed
    (w : World) (content : string) (lockInfo : LockInfo) :
  lockFile w = Some content -> parseLockInfo content = Some lockInfo ->
  Qeq_bool (pid lockInfo) (inject_Z (process_pid w)) = false ->
  processAlive w (pid lockInfo) = true ->
  Qeq_bool (timestamp lockInfo) 0 = false ->
  (inject_Z (clock w + LOCK_TIMEOUT_MS) - timestamp lockInfo <= inject_Z LOCK_STALE_MS)%Q ->
  exists w',
    acquireLock w = (Ok false, w')
    /\ lockFile w' = Some content
    /\ exists evs,
         trace w' = (trace w ++ evs)%list
         /\ forallb (fun e => negb (is_unlink_lock e)) evs = true.
Proof.
  intros Hl Hp Hq Hal Hz Hf.
  unfold acquireLock, bind, Date_now, gets.
  eapply acquireLock_loop_live_holder; try eassumption.
  unfold acquireLock_fuel, LOCK_TIMEOUT_MS. lia.
Qed.

Lemma live_holder_marker_is_never_removed_witness :
  exists w',
    acquireLock world_held = (Ok false, w')
    /\ lockFile w' = Some (stringify_lock 4242 1699999999000).
Proof.
  destruct (live_holder_marker_is_never_removed world_held
              (stringify_lock 4242 1699999999000)
              {| pid := 4242; timestamp := 1699999999000 |}
              eq_refl eq_refl eq_refl eq_refl eq_refl)
    as (w' & Hrun & Hl & _).
  - vm_compute. discriminate.
  - exists w'. split; [ exact Hrun | exact Hl ].
Defined.

(** ** [loadManifest] on any disk *)

Lemma loadManifest_no_migration w :
  needs_migration w = false ->
  loadManifest w
  = (Ok (stored w),
     match manifestFile w with
     | Some _ => emit (FsRead ManifestJson) (emit (FsExists ManifestJson) w)
     | None => emit (FsExists ManifestJson) w
     end).
Proof.
  unfold needs_migration, stored. intros Hn.
  destruct (manifestFile w) as [[| | m] |] eqn:Hm.
  - run_fs. rewrite Hm. cbn. rewrite Hm. reflexivity.
  - run_fs. rewrite Hm. cbn. rewrite Hm. reflexivity.
  - rewrite Hn. run_fs. rewrite Hm. cbn. rewrite Hm. cbn. rewrite Hn. reflexivity.
  - run_fs. rewrite Hm. reflexivity.
Qed.

Lemma loadManifest_migration_fails w :
  needs_migration w = true -> diskFault w <> NoFault ->
  exists w',
    loadManifest w = (Ok emptyManifest, w')
    /\ manifestFile w' = manifestFile w /\ lockFile w' = lockFile w
    /\ diskFault w' = diskFault w.
Proof.
  unfold needs_migration. intros Hn Hf.
  destruct (manifestFile w) as [[| | m] |] eqn:Hm; try discriminate.
  set (w0 := emit (FsRead ManifestJson) (emit (FsExists ManifestJson) w)).
  assert (Hload : loadManifest w
                  = match saveManifest (migrateManifest m) w0 with
                    | (Ok _, w') => (Ok (migrateManifest m), w')
                    | (Throw _, w') => (Ok emptyManifest, w')
                    end).
  { unfold loadManifest, existsSync_manifest, readFileSync_manifest.
    unfold bind at 1 2 3. unfold event, modify, gets, ret. cbn. rewrite Hm. cbn.
    unfold try_catch, bind at 1 2 3. cbn. rewrite Hm. cbn. rewrite Hn.
    unfold bind at 1. fold w0.
    destruct (saveManifest (migrateManifest m) w0) as [[[] | e] w']; reflexivity. }
  rewrite Hload.
  destruct (ensured_fields w0) as (Hl & Hmf & _ & Hdf & _).
  destruct (diskFault w) as [| residue |] eqn:Hd; [ congruence | | ].
  - rewrite (saveManifest_write_fails _ w0 residue) by exact Hd.
    eexists. split; [ reflexivity | ]. cbn. rewrite Hl, Hmf, Hdf. cbn. auto.
  - rewrite (saveManifest_rename_fails _ w0) by exact Hd.
    eexists. split; [ reflexivity | ]. cbn. rewrite Hl, Hmf, Hdf. cbn. auto.
Qed.

(** X7.  [loadManifest] never throws, whatever the file holds and whatever the
    disk does.  The manifest it returns has the current version or a later
    one; manifest.json is what it was, or holds exactly the returned
    manifest (after a migration). *)
Theorem loadManifest_never_throws (w : World) :
  exists m w',
    loadManifest w = (Ok m, w')
    /\ MANIFEST_VERSION <= version m
    /\ (manifestFile w' = manifestFile w \/ manifestFile w' = Some (Document m))
    /\ (needs_migration w = false -> m = stored w /\ manifestFile w' = manifestFile w)
    /\ lockFile w' = lockFile w.
Proof.
  destruct (needs_migration w) eqn:Hn.
  - destruct (diskFault w) as [| residue |] eqn:Hd.
    + rewrite (loadManifest_ok w Hd). eexists _, _. split; [ reflexivity | ].
      split; [ apply stored_version_current | ].
      unfold needs_migration in Hn. unfold loaded, stored.
      destruct (manifestFile w) as [[| | m] |]; try discriminate. rewrite Hn.
      split; [ right; reflexivity | ]. split; [ discriminate | ].
      cbn. destruct (ensured_fields (emit (FsRead ManifestJson) (emit (FsExists ManifestJson) w)))
        as (Hl & _). exact Hl.
    + destruct (loadManifest_migration_fails w Hn) as (w' & Hrun & Hm & Hl & _);
        [ congruence | ].
      exists emptyManifest, w'. split; [ exact Hrun | ].
      split; [ cbn; lia | ]. split; [ by left | ]. split; [ discriminate | exact Hl ].
    + destruct (loadManifest_migration_fails w Hn) as (w' & Hrun & Hm & Hl & _);
        [ congruence | ].
      exists emptyManifest, w'. split; [ exact Hrun | ].
      split; [ cbn; lia | ]. split; [ by left | ]. split; [ discriminate | exact Hl ].
  - rewrite (loadManifest_no_migration w Hn). eexists _, _. split; [ reflexivity | ].
    split; [ apply stored_version_current | ].
    destruct (manifestFile w) eqn:Hm; cbn; rewrite Hm; auto.
Qed.

Lemma loadManifest_never_throws_witness :
  exists m w',
    loadManifest world_version0 = (Ok m, w')
    /\ MANIFEST_VERSION <= version m
    /\ manifestFile w' = Some (Document m).
Proof.
  destruct (loadManifest_never_throws world_version0) as (m & w' & Hrun & Hv & Hfile & _).
  exists m, w'. split; [ exact Hrun | ]. split; [ exact Hv | ].
  destruct Hfile as [Hsame | Hnew]; [ | exact Hnew ].
  assert (Hm : fst (loadManifest world_version0)
               = Ok {| version := 1; skills := [record_of "pdf" "claude" None] |})
    by (vm_compute; reflexivity).
  assert (Hf : manifestFile (snd (loadManifest world_version0))
               = Some (Document {| version := 1;
                                   skills := [record_of "pdf" "claude" None] |}))
    by (vm_compute; reflexivity).
  rewrite Hrun in Hm, Hf. cbn [fst snd] in Hm, Hf. injection Hm as ->. exact Hf.
Defined.

(** X8.  On a file that is absent, is not JSON, has the wrong shape, or holds
    a document of the current version or a later one, [loadManifest] only
    reads: its calls are [existsSync] and, when the file exists,
    [readFileSync]; no file changes, also on a disk that fails.  A document
    above the current version is returned as it is. *)
Theorem loadManifest_reads_only_without_migration (w : World) :
  needs_migration w = false ->
  exists w',
    loadManifest w = (Ok (stored w), w')
    /\ trace w' = (trace w ++ load_calls w)%list
    /\ manifestFile w' = manifestFile w /\ manifestTmp w' = manifestTmp w
    /\ lockFile w' = lockFile w /\ configDir w' = configDir w
    /\ (forall m, manifestFile w = Some (Document m) -> stored w = m).
Proof.
  intros Hn. rewrite (loadManifest_no_migration w Hn). eexists. split; [ reflexivity | ].
  unfold load_calls, stored. unfold needs_migration in Hn.
  destruct (manifestFile w) as [[| | m] |] eqn:Hm; cbn; rewrite ?Hm, <- ?app_assoc;
    repeat split; try reflexivity; try (intros; discriminate).
  intros m' [= <-]. by rewrite Hn.
Qed.

Lemma loadManifest_reads_only_without_migration_witness :
  needs_migration world_one_row = false
  /\ exists w',
       loadManifest world_one_row
       = (Ok {| version := 1; skills := [record_of "pdf" "claude" None] |}, w')
       /\ trace w' = [FsExists ManifestJson; FsRead ManifestJson].
Proof.
  split; [ reflexivity | ].
  destruct (loadManifest_reads_only_without_migration world_one_row eq_refl)
    as (w' & Hrun & Htr & _).
  exists w'. split; [ exact Hrun | exact Htr ].
Defined.

(** X9.  When the document needs a migration and the save of the migrated
    document fails, [loadManifest] swallows the error and returns the empty
    manifest: the records of the file are not reported, by
    [getAllInstalledSkills] either, while manifest.json still holds them. *)
Theorem failed_migration_reads_as_empty (w : World) (m : Manifest) :
  manifestFile w = Some (Document m) -> version m < MANIFEST_VERSION ->
  diskFault w <> NoFault ->
  exists w',
    loadManifest w = (Ok emptyManifest, w')
    /\ manifestFile w' = Some (Document m)
    /\ exists w'', getAllInstalledSkills w = (Ok [], w'').
Proof.
  intros Hm Hv Hf.
  assert (Hn : needs_migration w = true).
  { unfold needs_migration. rewrite Hm. by apply Z.ltb_lt. }
  destruct (loadManifest_migration_fails w Hn Hf) as (w' & Hrun & Hm' & _).
  exists w'. split; [ exact Hrun | ]. split; [ by rewrite Hm' | ].
  exists w'. unfold getAllInstalledSkills, bind. rewrite Hrun. reflexivity.
Qed.

Lemma failed_migration_reads_as_empty_witness :
  exists w',
    loadManifest world_version0_rename_fails = (Ok emptyManifest, w')
    /\ manifestFile w' = manifestFile world_version0_rename_fails.
Proof.
  destruct (failed_migration_reads_as_empty world_version0_rename_fails
              {| version := 0; skills := [record_of "pdf" "claude" None] |}
              eq_refl eq_refl) as (w' & Hrun & Hm & _).
  - discriminate.
  - exists w'. split; [ exact Hrun | exact Hm ].
Defined.


(** ** The locked operations on a disk that fails *)

Lemma loadManifest_faulty w :
  diskFault w <> NoFault ->
  exists m w',
    loadManifest w = (Ok m, w')
    /\ manifestFile w' = manifestFile w /\ diskFault w' = diskFault w.
Proof.
  intros Hf. destruct (needs_migration w) eqn:Hn.
  - destruct (loadManifest_migration_fails w Hn Hf) as (w' & Hrun & Hm & _ & Hd).
    by exists emptyManifest, w'.
  - rewrite (loadManifest_no_migration w Hn). eexists _, _. split; [ reflexivity | ].
    destruct (manifestFile w) eqn:E; cbn; rewrite ?E; auto.
Qed.

Lemma saveManifest_faulty manifest w :
  diskFault w <> NoFault ->
  exists w',
    saveManifest manifest w = (Throw (Errno "EIO"), w')
    /\ manifestFile w' = manifestFile w.
Proof.
  intros Hf. destruct (ensured_fields w) as (_ & Hm & _).
  destruct (diskFault w) as [| residue |] eqn:Hd; [ congruence | | ].
  - rewrite (saveManifest_write_fails _ w residue Hd). eexists. split; [ reflexivity | exact Hm ].
  - rewrite (saveManifest_rename_fails _ w Hd). eexists. split; [ reflexivity | exact Hm ].
Qed.

Lemma released_fields w :
  lockFile (released w) = None /\ manifestFile (released w) = manifestFile w.
Proof. unfold released. destruct (lockFile w) eqn:E; cbn; auto. Qed.

Lemma locked_update_faulty (f : Manifest -> Manifest) w w1 :
  acquireLock w = (Ok true, w1) -> diskFault w <> NoFault ->
  exists w',
    withLock (manifest <- loadManifest ;; saveManifest (f manifest)) w
    = (Throw (Errno "EIO"), w')
    /\ manifestFile w' = manifestFile w /\ lockFile w' = None.
Proof.
  intros Hacq Hf.
  pose proof (keeps_acquireLock _ _ _ Hacq) as Hfr.
  assert (Hf1 : diskFault w1 <> NoFault) by (rewrite (lf_diskFault _ _ Hfr); exact Hf).
  destruct (loadManifest_faulty w1 Hf1) as (m & w2 & Hload & Hm2 & Hd2).
  assert (Hf2 : diskFault w2 <> NoFault) by (rewrite Hd2; exact Hf1).
  destruct (saveManifest_faulty (f m) w2 Hf2) as (w3 & Hsave & Hm3).
  rewrite (withLock_acquired _ w w1 Hacq). unfold try_finally, bind.
  rewrite Hload, Hsave, releaseLock_eq.
  exists (released w3). split; [ reflexivity | ].
  destruct (released_fields w3) as (Hl & Hm). split; [ | exact Hl ].
  rewrite Hm, Hm3, Hm2. apply Hfr.
Qed.

(** X10.  An upsert or a removal on a disk that fails (the write of the
    temporary file or the rename throws) throws that error, leaves
    manifest.json as it was, and still releases the lock. *)
Theorem store_update_fails_atomically (op : StoreOp) (w w1 : World) :
  acquireLock w = (Ok true, w1) -> diskFault w <> NoFault ->
  exists w',
    run_op op w = (Throw (Errno "EIO"), w')
    /\ manifestFile w' = manifestFile w
    /\ lockFile w' = None.
Proof.
  intros Hacq Hf. destruct op as [record | nm ag sc]; cbn [run_op].
  - apply (locked_update_faulty
             (fun manifest =>
                with_skills
                  (with_skills manifest
                     (List.filter
                        (fun s => negb (same_key (name record) (agent record)
                                          (scope_or_project (scope record)) s))
                        (skills manifest)))
                  (skills
                     (with_skills manifest
                        (List.filter
                           (fun s => negb (same_key (name record) (agent record)
                                             (scope_or_project (scope record)) s))
                           (skills manifest))) ++ [record])) w w1 Hacq Hf).
  - apply (locked_update_faulty
             (fun manifest =>
                with_skills manifest
                  (List.filter (fun s => negb (same_key nm ag (scope_or_project sc) s))
                               (skills manifest))) w w1 Hacq Hf).
Qed.

Lemma store_update_fails_atomically_witness :
  exists w',
    run_op (Upsert (record_of "docx" "claude" None)) world_one_row_rename_fails
    = (Throw (Errno "EIO"), w')
    /\ manifestFile w' = manifestFile world_one_row_rename_fails
    /\ lockFile w' = None.
Proof.
  destruct (store_update_fails_atomically (Upsert (record_of "docx" "claude" None))
              world_one_row_rename_fails (taken world_one_row_rename_fails)
              (acquireLock_free world_one_row_rename_fails eq_refl)) as (w' & Hrun & Hm & Hl).
  - discriminate.
  - exists w'. split; [ exact Hrun | ]. split; [ exact Hm | exact Hl ].
Defined.

(** ** Reading what was written *)







(** ** Lookup without a scope *)






(** ** Repeated and inverse updates *)









(** ** Lookups in the repository cache *)

Lemma name_is_eq skillName s w :
  name_is skillName s w
  = (if is_null s then Throw TypeError else Ok (named skillName s), w).
Proof. by destruct s. Qed.

Lemma array_find_no_null skillName l w :
  forallb (fun s => negb (is_null s)) l = true ->
  array_find (name_is skillName) l w = (Ok (List.find (named skillName) l), w).
Proof.
  induction l as [| x l IH]; [ reflexivity | ]. cbn [forallb]. intros H.
  apply andb_prop in H as [Hx Hl]. cbn [array_find List.find]. unfold bind.
  rewrite name_is_eq. apply negb_true_iff in Hx. rewrite Hx.
  destruct (named skillName x); [ reflexivity | by apply IH ].
Qed.

Lemma array_find_sound skillName l w s w' :
  array_find (name_is skillName) l w = (Ok (Some s), w') ->
  In s l /\ named skillName s = true.
Proof.
  induction l as [| x l IH]; [ discriminate | ]. cbn [array_find]. unfold bind.
  rewrite name_is_eq. destruct (is_null x); [ discriminate | ].
  destruct (named skillName x) eqn:E.
  - intros [= <- <-]. split; [ by left | exact E ].
  - intros H. destruct (IH H) as [Hin Hn]. split; [ by right | exact Hn ].
Qed.

Lemma array_find_null_first skillName l1 l2 w :
  forallb (fun s => negb (is_null s) && negb (named skillName s)) l1 = true ->
  array_find (name_is skillName) (l1 ++ JNull :: l2) w = (Throw TypeError, w).
Proof.
  induction l1 as [| x l IH]; [ reflexivity | ]. cbn [forallb]. intros H.
  apply andb_prop in H as [Hx Hl]. apply andb_prop in Hx as [Hnull Hname].
  apply negb_true_iff in Hnull, Hname.
  cbn [app array_find]. unfold bind. rewrite name_is_eq, Hnull, Hname. by apply IH.
Qed.

Lemma named_truthy skillName s : named skillName s = true -> truthy s = true.
Proof. unfold named. by destruct s. Qed.

(** X16.  For a source name the validation accepts, [getSkillFromRepo] looks
    into the list [loadRepoCache] returns.  A skill it returns is an entry
    of that list whose [name] is the name asked for.  When no entry is
    [null] it does not throw and returns the first such entry, or null when
    there is none.  A [null] entry that comes before the first match makes
    it throw a TypeError, where [loadRepoCache] itself returns. *)
Theorem getSkillFromRepo_finds_first_by_name (repoName' skillName : string) (w : World) :
  isValidConfigRepoName repoName' = true ->
  let cached := cached_skills (repoCache w !! cache_path w repoName') in
  (forall s w',
      getSkillFromRepo repoName' skillName w = (Ok (Some s), w') ->
      In s cached /\ get s "name" = Some (JStr skillName))
  /\ (forallb (fun s => negb (is_null s)) cached = true ->
      fst (getSkillFromRepo repoName' skillName w)
      = Ok (List.find (named skillName) cached))
  /\ (forall l1 l2,
        cached = (l1 ++ JNull :: l2)%list ->
        forallb (fun s => negb (is_null s) && negb (named skillName s)) l1 = true ->
        fst (getSkillFromRepo repoName' skillName w) = Throw TypeError
        /\ exists w', loadRepoCache repoName' w = (Ok cached, w')).
Proof.
  intros Hv cached. pose proof (loadRepoCache_valid repoName' w Hv) as Hload.
  fold cached in Hload.
  set (w1 := match repoCache w !! cache_path w repoName' with
             | Some _ =>
                 emit (FsRead (CacheFile (cache_path w repoName')))
                   (emit (FsExists (CacheFile (cache_path w repoName'))) w)
             | None => emit (FsExists (CacheFile (cache_path w repoName'))) w
             end) in *.
  split; [ | split ].
  - intros s w'. unfold getSkillFromRepo. unfold bind at 1. rewrite Hload.
    unfold bind.
    destruct (array_find (name_is skillName) cached w1) as [[[s0 |] | e] w2] eqn:E;
      try discriminate.
    destruct (array_find_sound _ _ _ _ _ E) as [Hin Hn].
    rewrite (named_truthy _ _ Hn). intros [= <- <-]. split; [ exact Hin | ].
    unfold named in Hn. destruct (get s0 "name") as [[| | | n | |] |]; try discriminate.
    apply String.eqb_eq in Hn. by subst n.
  - intros Hnn. unfold getSkillFromRepo. unfold bind at 1. rewrite Hload.
    unfold bind. rewrite (array_find_no_null _ _ _ Hnn).
    destruct (List.find (named skillName) cached) as [s |] eqn:E; [ | reflexivity ].
    apply find_some in E as [_ Hn]. by rewrite (named_truthy _ _ Hn).
  - intros l1 l2 Hc Hl1. split; [ | by eexists ].
    unfold getSkillFromRepo. unfold bind at 1. rewrite Hload. unfold bind.
    rewrite Hc, (array_find_null_first _ _ _ _ Hl1). reflexivity.
Qed.

Lemma getSkillFromRepo_finds_first_by_name_witness :
  fst (getSkillFromRepo "anthropic-official" "pdf-tools" world_cached)
  = Ok (Some (JObj [("name", JStr "pdf-tools")]))
  /\ fst (getSkillFromRepo "anthropic-official" "pdf-tools" world_cached_null_entry)
     = Throw TypeError.
Proof.
  split.
  - destruct (getSkillFromRepo_finds_first_by_name "anthropic-official" "pdf-tools"
                world_cached eq_refl) as (_ & Hfind & _).
    exact (Hfind eq_refl).
  - destruct (getSkillFromRepo_finds_first_by_name "anthropic-official" "pdf-tools"
                world_cached_null_entry eq_refl) as (_ & _ & Hnull).
    exact (proj1 (Hnull [] [JObj [("name", JStr "pdf-tools")]] eq_refl eq_refl)).
Defined.

(** X17.  The number of skills [getRepoInfo] reports for a source is the
    length of the list [loadRepoCache] returns for it; neither throws for a
    name the validation accepts, and both throw "Invalid repository name"
    for any other name.  Without a cache file no date is reported. *)
Theorem getRepoInfo_counts_cached_skills (nm url : string) (w : World) :
  (isValidConfigRepoName nm = true ->
   exists info w' l w'',
     getRepoInfo nm url w = (Ok info, w')
     /\ loadRepoCache nm w = (Ok l, w'')
     /\ skillCount info = Z.of_nat (List.length l)
     /\ repo_info_name info = nm /\ repo_info_url info = url
     /\ (repoCache w !! cache_path w nm = None -> lastUpdated info = None)
     /\ repoCache w' = repoCache w)
  /\ (isValidConfigRepoName nm = false ->
      getRepoInfo nm url w = (Throw (JsError ("Invalid repository name: " ++ nm)), w)
      /\ loadRepoCache nm w = (Throw (JsError ("Invalid repository name: " ++ nm)), w)).
Proof.
  split.
  - intros Hv. rewrite (loadRepoCache_valid nm w Hv).
    unfold getRepoInfo. unfold bind at 1. rewrite (getCachePath_valid nm w Hv).
    unfold bind at 1. rewrite existsSync_cache_eq. unfold cached_skills.
    destruct (repoCache w !! cache_path w nm) as [content |] eqn:E.
    + unfold try_catch, bind.
      rewrite (readFileSync_cache_some _ _ content) by (rewrite repoCache_emit; exact E).
      destruct (parse content) as [[| b | q | s | l | fields] |]; cbn [get];
        try (eexists _, _, _, _; repeat split; discriminate).
      destruct (last_field "skills" fields None) as [[| b | q | s | l | fields'] |];
        eexists _, _, _, _; repeat split; discriminate.
    + unfold bind, ret. eexists _, _, _, _. repeat split.
  - intros Hv. unfold getRepoInfo, loadRepoCache, getCachePath, bind. rewrite Hv. by split.
Qed.

Lemma getRepoInfo_counts_cached_skills_witness :
  exists info w',
    getRepoInfo "anthropic-official" "https://github.com/anthropics/skills" world_cached
    = (Ok info, w')
    /\ skillCount info = 1.
Proof.
  destruct (getRepoInfo_counts_cached_skills "anthropic-official"
              "https://github.com/anthropics/skills" world_cached) as (Hvalid & _).
  destruct (Hvalid eq_refl) as (info & w' & l & w'' & Hrun & Hload & Hcount & _).
  exists info, w'. split; [ exact Hrun | ].
  assert (Hl : fst (loadRepoCache "anthropic-official" world_cached)
               = Ok [JObj [("name", JStr "pdf-tools")]]) by (vm_compute; reflexivity).
  rewrite Hload in Hl. cbn [fst] in Hl. injection Hl as ->. exact Hcount.
Defined.

(** ** The frame of the manifest operations *)

Lemma store_frame_refl w : store_frame w w.
Proof.
  split; try reflexivity; try lia.
  exists []. split; [ by rewrite app_nil_r | reflexivity ].
Qed.

Lemma store_frame_trans w1 w2 w3 :
  store_frame w1 w2 -> store_frame w2 w3 -> store_frame w1 w3.
Proof.
  intros [] []. split; try congruence; try lia.
  destruct sf_trace0 as (e1 & He1 & Hf1), sf_trace1 as (e2 & He2 & Hf2).
  exists (e1 ++ e2)%list. split.
  - rewrite He2, He1. by rewrite <- app_assoc.
  - rewrite forallb_app, Hf1, Hf2. reflexivity.
Qed.

Lemma lock_event_not_agent evs :
  forallb lock_event evs = true -> forallb (fun e => negb (agent_event e)) evs = true.
Proof.
  induction evs as [| e evs IH]; [ reflexivity | ]. cbn [forallb]. intros H.
  apply andb_prop in H as [He Hevs]. rewrite (IH Hevs), andb_true_r.
  by destruct e as [[] | [] | [] | [] | | [] | | | |].
Qed.

Lemma lock_frame_store_frame w w' : lock_frame w w' -> store_frame w w'.
Proof.
  intros Hfr. split; try apply Hfr.
  destruct (lf_trace _ _ Hfr) as (evs & He & Hf). exists evs. split; [ exact He | ].
  by apply lock_event_not_agent.
Qed.

Lemma frames_keeps {A} (m : M A) : keeps m -> frames m.
Proof. intros Hk w r w' H. apply lock_frame_store_frame. eapply Hk, H. Qed.

Lemma frames_ret {A} (a : A) : frames (ret a).
Proof. intros w r w' [= <- <-]. apply store_frame_refl. Qed.

Lemma frames_throw {A} e : frames (@throw A e).
Proof. intros w r w' [= <- <-]. apply store_frame_refl. Qed.

Lemma frames_gets {A} (f : World -> A) : frames (gets f).
Proof. intros w r w' [= <- <-]. apply store_frame_refl. Qed.

Lemma frames_bind {A B} (m : M A) (k : A -> M B) :
  frames m -> (forall a, frames (k a)) -> frames (bind m k).
Proof.
  intros Hm Hk w r w'. unfold bind.
  destruct (m w) as [[a | e] w1] eqn:E; intros H.
  - eapply store_frame_trans; [ eapply Hm, E | eapply Hk, H ].
  - injection H as <- <-. eapply Hm, E.
Qed.

Lemma frames_try_catch {A} (m : M A) (h : Error -> M A) :
  frames m -> (forall e, frames (h e)) -> frames (try_catch m h).
Proof.
  intros Hm Hh w r w'. unfold try_catch.
  destruct (m w) as [[a | e] w1] eqn:E; intros H.
  - injection H as <- <-. eapply Hm, E.
  - eapply store_frame_trans; [ eapply Hm, E | eapply Hh, H ].
Qed.

Lemma frames_try_finally {A} (m : M A) (fin : M unit) :
  frames m -> frames fin -> frames (try_finally m fin).
Proof.
  intros Hm Hfin w r w'. unfold try_finally.
  destruct (m w) as [r1 w1] eqn:E. destruct (fin w1) as [[[] | e] w2] eqn:E2;
    intros [= <- <-]; (eapply store_frame_trans; [ eapply Hm, E | eapply Hfin, E2 ]).
Qed.

Lemma frames_event e : agent_event e = false -> frames (event e).
Proof.
  intros He w r w' [= <- <-]. split; try reflexivity; try (cbn; lia).
  exists [e]. split; [ reflexivity | cbn; by rewrite He ].
Qed.

Lemma frames_set_manifestFile v : frames (modify (set_manifestFile v)).
Proof.
  intros w r w' [= <- <-]. split; try reflexivity; try (cbn; lia).
  exists []. split; [ cbn; by rewrite app_nil_r | reflexivity ].
Qed.

Lemma frames_set_manifestTmp v : frames (modify (set_manifestTmp v)).
Proof.
  intros w r w' [= <- <-]. split; try reflexivity; try (cbn; lia).
  exists []. split; [ cbn; by rewrite app_nil_r | reflexivity ].
Qed.

Lemma frames_existsSync_manifest : frames existsSync_manifest.
Proof.
  apply frames_bind; [ by apply frames_event | intros _ ].
  apply frames_bind; [ apply frames_gets | intros cur; apply frames_ret ].
Qed.

Lemma frames_readFileSync_manifest : frames readFileSync_manifest.
Proof.
  apply frames_bind; [ by apply frames_event | intros _ ].
  apply frames_bind; [ apply frames_gets | intros [c |] ];
    [ apply frames_ret | apply frames_throw ].
Qed.

Lemma frames_writeFileSync_tmp content : frames (writeFileSync_tmp content).
Proof.
  apply frames_bind; [ by apply frames_event | intros _ ].
  apply frames_bind; [ apply frames_gets | intros [| residue |] ];
    try apply frames_set_manifestTmp.
  apply frames_bind; [ apply frames_set_manifestTmp | intros _; apply frames_throw ].
Qed.

Lemma frames_renameSync_tmp : frames renameSync_tmp.
Proof.
  apply frames_bind; [ by apply frames_event | intros _ ].
  apply frames_bind; [ apply frames_gets | intros fault ].
  assert (Hgo : frames (tmp <- gets manifestTmp ;;
                        match tmp with
                        | Some content =>
                            modify (fun w =>
                                      set_manifestTmp None (set_manifestFile (Some content) w))
                        | None => throw (Errno "ENOENT")
                        end)).
  { apply frames_bind; [ apply frames_gets | intros [content |] ]; [ | apply frames_throw ].
    intros w r w' [= <- <-]. split; try reflexivity; try (cbn; lia).
    exists []. split; [ cbn; by rewrite app_nil_r | reflexivity ]. }
  destruct fault; [ exact Hgo | exact Hgo | apply frames_throw ].
Qed.

Lemma frames_saveManifest manifest : frames (saveManifest manifest).
Proof.
  apply frames_bind; [ apply frames_keeps, keeps_ensureConfigDir | intros _ ].
  apply frames_bind; [ apply frames_writeFileSync_tmp | intros _ ].
  apply frames_renameSync_tmp.
Qed.

Lemma frames_loadManifest : frames loadManifest.
Proof.
  apply frames_bind; [ apply frames_existsSync_manifest | intros ex ].
  destruct (negb ex); [ apply frames_ret | ].
  apply frames_try_catch; [ | intros _; apply frames_ret ].
  apply frames_bind; [ apply frames_readFileSync_manifest | intros [| | parsed] ];
    [ apply frames_throw | apply frames_ret | ].
  destruct (version parsed <? MANIFEST_VERSION); [ | apply frames_ret ].
  apply frames_bind; [ apply frames_saveManifest | intros _; apply frames_ret ].
Qed.

Lemma frames_withLock {T} (fn : M T) : frames fn -> frames (withLock fn).
Proof.
  intros Hfn. apply frames_bind; [ apply frames_keeps, keeps_acquireLock | intros ok ].
  destruct (negb ok); [ apply frames_throw | ].
  apply frames_try_finally; [ exact Hfn | apply frames_keeps, keeps_releaseLock ].
Qed.

Lemma frames_addSkillRecord record : frames (addSkillRecord record).
Proof.
  apply frames_withLock. apply frames_bind; [ apply frames_loadManifest | intros m ].
  apply frames_saveManifest.
Qed.

Lemma frames_removeSkillRecord nm ag sc : frames (removeSkillRecord nm ag sc).
Proof.
  apply frames_withLock. apply frames_bind; [ apply frames_loadManifest | intros m ].
  apply frames_saveManifest.
Qed.

(** X15.  The manifest store stays within its files: whatever the lock, the
    files and the disk do, and whether it returns or throws, a call of
    [addSkillRecord] or [removeSkillRecord] leaves every skill directory,
    the cloned sources and the repository cache as they were, and calls the
    file system only, never an agent. *)
Theorem manifest_store_leaves_skill_directories
    (w w' : World) (op : StoreOp) (r : Result unit) :
  run_op op w = (r, w') ->
  skillDirs w' = skillDirs w /\ skillSources w' = skillSources w
  /\ repoCache w' = repoCache w
  /\ exists evs,
       trace w' = (trace w ++ evs)%list
       /\ forallb (fun e => negb (agent_event e)) evs = true.
Proof.
  intros Hrun.
  assert (Hfr : store_frame w w').
  { destruct op as [record | nm ag sc]; cbn [run_op] in Hrun.
    - eapply frames_addSkillRecord, Hrun.
    - eapply frames_removeSkillRecord, Hrun. }
  destruct Hfr. auto.
Qed.

Lemma manifest_store_leaves_skill_directories_witness :
  skillDirs (snd (run_op (Upsert (record_of "pdf" "claude" None)) world_install))
  = skillDirs world_install.
Proof.
  destruct (run_op (Upsert (record_of "pdf" "claude" None)) world_install) as [r w'] eqn:E.
  exact (proj1 (manifest_store_leaves_skill_directories world_install w'
                  (Upsert (record_of "pdf" "claude" None)) r E)).
Defined.

(** ** An install request that succeeds *)

Lemma installSkill_ok ag skill skillDir sc w src :
  skillSources w !! skillDir = Some src -> ag ∉ brokenTargets w ->
  installSkill ag skill skillDir sc w
  = (Ok tt,
     set_skillDirs ({[ (ag, sc, frontmatter_name skill) ]} ∪ skillDirs w)
       (emit (AgentInstall ag (frontmatter_name skill) sc) w)).
Proof.
  intros Hsrc Hb. unfold installSkill, bind, gets, event, modify, ret, throw.
  change (skillSources (emit (AgentInstall ag (frontmatter_name skill) sc) w))
    with (skillSources w).
  rewrite Hsrc.
  change (brokenTargets (emit (AgentInstall ag (frontmatter_name skill) sc) w))
    with (brokenTargets w).
  destruct (decide (ag ∈ brokenTargets w)); [ contradiction | reflexivity ].
Qed.

Lemma attempt_ok (m : M unit) w w' : m w = (Ok tt, w') -> attempt m w = (Ok None, w').
Proof. intros H. unfold attempt, try_catch, bind. by rewrite H. Qed.








(** ** What the rollback removes *)

Lemma uninstallSkill_eq ag nm sc w :
  uninstallSkill ag nm sc w
  = if decide ((ag, sc, nm) ∈ skillDirs w) then
      if decide (ag ∈ brokenTargets w) then
        (Throw (Errno "EACCES"), emit (AgentUninstall ag nm sc) w)
      else
        (Ok true, set_skillDirs (skillDirs w ∖ {[ (ag, sc, nm) ]})
                    (emit (AgentUninstall ag nm sc) w))
    else (Ok false, emit (AgentUninstall ag nm sc) w).
Proof.
  unfold uninstallSkill, bind, gets, event, modify, ret, throw.
  change (skillDirs (emit (AgentUninstall ag nm sc) w)) with (skillDirs w).
  destruct (decide ((ag, sc, nm) ∈ skillDirs w)); [ | reflexivity ].
  change (brokenTargets (emit (AgentUninstall ag nm sc) w)) with (brokenTargets w).
  destruct (decide (ag ∈ brokenTargets w)); reflexivity.
Qed.

Lemma rollback_targets_cons sc nm agentName rest :
  rollback_targets sc ((nm, agentName) :: rest)
  = match getAgent agentName with
    | Some agent' => {[ (agent', sc, nm) ]} ∪ rollback_targets sc rest
    | None => rollback_targets sc rest
    end.
Proof.
  unfold rollback_targets. cbn [omap list_omap fst snd].
  by destruct (getAgent agentName).
Qed.

(** X22.  The rollback loop returns, whatever the agents do.  It removes
    nothing but directories of its list; it removes every listed directory
    whose agent can write, also one that existed before the request; and it
    leaves manifest.json as it is. *)
Theorem rollback_removes_listed_directories
    (sc : InstallScope) (installedSkills : list (string * string)) (w : World) :
  exists w',
    rollback sc installedSkills w = (Ok tt, w')
    /\ skillDirs w' ⊆ skillDirs w
    /\ skillDirs w ∖ rollback_targets sc installedSkills ⊆ skillDirs w'
    /\ (forall ag nm,
          (ag, sc, nm) ∈ rollback_targets sc installedSkills -> ag ∉ brokenTargets w ->
          (ag, sc, nm) ∉ skillDirs w')
    /\ brokenTargets w' = brokenTargets w
    /\ manifestFile w' = manifestFile w.
Proof.
  revert w. induction installedSkills as [| [nm agentName] rest IH]; intros w.
  - exists w. split; [ reflexivity | ]. split; [ done | ].
    split; [ apply subseteq_difference_l; done | ].
    split; [ | done ]. intros ag nm' Hin. by apply elem_of_empty in Hin.
  - cbn [rollback]. unfold bind at 1. rewrite rollback_targets_cons.
    destruct (getAgent agentName) as [agent' |].
    + assert (Hstep : exists w1,
                 try_catch (uninstallSkill agent' nm sc ;; ret tt) (fun _ => ret tt) w
                 = (Ok tt, w1)
                 /\ skillDirs w1 ⊆ skillDirs w
                 /\ skillDirs w ∖ {[ (agent', sc, nm) ]} ⊆ skillDirs w1
                 /\ (agent' ∉ brokenTargets w -> (agent', sc, nm) ∉ skillDirs w1)
                 /\ brokenTargets w1 = brokenTargets w
                 /\ manifestFile w1 = manifestFile w).
      { unfold try_catch, bind, ret. rewrite uninstallSkill_eq.
        destruct (decide ((agent', sc, nm) ∈ skillDirs w)) as [Hin | Hnin].
        - destruct (decide (agent' ∈ brokenTargets w)) as [Hb | Hnb].
          + eexists. split; [ reflexivity | ]. cbn.
            split; [ done | ]. split; [ apply subseteq_difference_l; done | ].
            split; [ done | done ].
          + eexists. split; [ reflexivity | ]. cbn.
            split; [ apply subseteq_difference_l; done | ]. split; [ done | ].
            split; [ | done ]. intros _ Hd. apply elem_of_difference in Hd as [_ Hd].
            apply Hd. by apply elem_of_singleton.
        - eexists. split; [ reflexivity | ]. cbn.
          split; [ done | ]. split; [ apply subseteq_difference_l; done | ].
          split; [ done | done ]. }
      destruct Hstep as (w1 & Hrun1 & Hsub1 & Hkeep1 & Hgone1 & Hb1 & Hm1).
      rewrite Hrun1.
      destruct (IH w1) as (w' & Hrun & Hsub & Hkeep & Hgone & Hb & Hm).
      exists w'. split; [ exact Hrun | ].
      split; [ by etrans | ].
      split.
      { intros d Hd. apply elem_of_difference in Hd as [Hd Hnot].
        apply Hkeep. apply elem_of_difference. split.
        - apply Hkeep1. apply elem_of_difference. split; [ exact Hd | ].
          intros Hs. apply Hnot. apply elem_of_union. by left.
        - intros Hr. apply Hnot. apply elem_of_union. by right. }
      split.
      { intros ag nm' Hin Hnb. apply elem_of_union in Hin as [Hin | Hin].
        - apply elem_of_singleton in Hin. injection Hin as -> ->.
          intros Hd. apply (Hgone1 Hnb). by apply Hsub.
        - apply Hgone; [ exact Hin | by rewrite Hb1 ]. }
      split; [ by rewrite Hb, Hb1 | by rewrite Hm, Hm1 ].
    + unfold ret. apply IH.
Qed.

Lemma rollback_removes_listed_directories_witness :
  exists w',
    rollback project [("pdf", "Claude")] world_two_dirs = (Ok tt, w')
    /\ (("claude", project, "pdf") ∉ skillDirs w')
    /\ (("cursor", project, "pdf") ∈ skillDirs w').
Proof.
  destruct (rollback_removes_listed_directories project [("pdf", "Claude")] world_two_dirs)
    as (w' & Hrun & _ & Hkeep & Hgone & _).
  exists w'. split; [ exact Hrun | ]. split.
  - apply Hgone; [ | apply not_elem_of_empty ].
    rewrite rollback_targets_cons. cbn. apply elem_of_union. left. by apply elem_of_singleton.
  - apply Hkeep. apply elem_of_difference. split.
    + apply elem_of_union. right. by apply elem_of_singleton.
    + rewrite rollback_targets_cons. cbn. intros Hin.
      apply elem_of_union in Hin as [Hin | Hin].
      * apply elem_of_singleton in Hin. discriminate.
      * by apply elem_of_empty in Hin.
Defined.

(** ** The calls of an install request *)

Lemma InstallScope_eqb_refl sc : InstallScope_eqb sc sc = true.
Proof. by destruct sc. Qed.

Lemma getAgent_registered agentName agent' :
  getAgent agentName = Some agent' -> existsb (String.eqb agent') agents = true.
Proof.
  unfold getAgent. intros H. apply find_some in H as [Hin _].
  apply existsb_exists. exists agent'. split; [ exact Hin | apply String.eqb_refl ].
Qed.

Lemma validateSkill_name skill :
  validateSkill skill = [] -> validateSkillName (frontmatter_name skill) = None.
Proof.
  unfold validateSkill. destruct (validateSkillName (frontmatter_name skill)); [ | done ].
  discriminate.
Qed.

Lemma store_events_ok sc evs :
  forallb (fun e => negb (agent_event e)) evs = true ->
  forallb (request_event_ok sc) evs = true
  /\ forallb (fun e => negb (is_uninstall e)) evs = true.
Proof.
  induction evs as [| e evs IH]; [ by split | ]. cbn [forallb]. intros H.
  apply andb_prop in H as [He Hevs]. destruct (IH Hevs) as [-> ->].
  rewrite !andb_true_r. by destruct e.
Qed.

Lemma request_calls_ok_app sc evs evs' installedSkills :
  request_calls_ok sc evs installedSkills ->
  forallb (request_event_ok sc) evs' = true ->
  forallb (fun e => negb (is_uninstall e)) evs' = true ->
  request_calls_ok sc (evs ++ evs') installedSkills.
Proof.
  intros (Hok & Hno & Hin) Hok' Hno'. split; [ | split ].
  - by rewrite forallb_app, Hok, Hok'.
  - by rewrite forallb_app, Hno, Hno'.
  - intros nm a a' Hl Hg. apply in_or_app. left. by apply (Hin nm a a').
Qed.

Lemma installSkill_trace ag skill skillDir sc w :
  trace (snd (installSkill ag skill skillDir sc w))
  = (trace w ++ [AgentInstall ag (frontmatter_name skill) sc])%list.
Proof.
  unfold installSkill, bind, gets, event, modify, ret, throw.
  change (skillSources (emit (AgentInstall ag (frontmatter_name skill) sc) w))
    with (skillSources w).
  destruct (skillSources w !! skillDir); [ | reflexivity ].
  change (brokenTargets (emit (AgentInstall ag (frontmatter_name skill) sc) w))
    with (brokenTargets w).
  destruct (decide (ag ∈ brokenTargets w)); reflexivity.
Qed.

Lemma attempt_eq (m : M unit) w :
  attempt m w
  = (Ok (match fst (m w) with
         | Ok _ => None
         | Throw e => Some e
         end), snd (m w)).
Proof. unfold attempt, try_catch, bind, ret. by destruct (m w) as [[[] | e] w1]. Qed.

Lemma install_to_agents_calls context skillPath sc skill skillInfo selectedAgents :
  forall installedSkills w t0 evs0 r w',
    trace w = (t0 ++ evs0)%list ->
    request_calls_ok sc evs0 installedSkills ->
    install_to_agents context skillPath sc skill skillInfo selectedAgents installedSkills w
    = (r, w') ->
    exists installedSkills' err evs,
      r = Ok (installedSkills', err)
      /\ trace w' = (t0 ++ evs)%list
      /\ request_calls_ok sc evs installedSkills'.
Proof.
  induction selectedAgents as [| agentName rest IH];
    intros installedSkills w t0 evs0 r w' Htr Hok.
  - intros [= <- <-]. by exists installedSkills, None, evs0.
  - cbn [install_to_agents].
    destruct (getAgent agentName) as [agent' |] eqn:Hag;
      [ | apply (IH installedSkills w t0 evs0 r w' Htr Hok) ].
    destruct (validateSkill skill) as [| err errs] eqn:Hvalid;
      [ | apply (IH installedSkills w t0 evs0 r w' Htr Hok) ].
    unfold bind at 1. rewrite attempt_eq.
    pose proof (installSkill_trace agent' skill (info_path skillInfo) sc w) as Hitr.
    destruct (installSkill agent' skill (info_path skillInfo) sc w) as [ri w1].
    cbn [fst snd] in *.
    assert (Hev : request_event_ok sc (AgentInstall agent' (frontmatter_name skill) sc) = true).
    { unfold request_event_ok.
      rewrite InstallScope_eqb_refl, (getAgent_registered _ _ Hag).
      by rewrite (validateSkill_name _ Hvalid). }
    assert (Htr1 : trace w1
                   = (t0 ++ (evs0 ++ [AgentInstall agent' (frontmatter_name skill) sc]))%list).
    { rewrite Hitr, Htr. by rewrite <- app_assoc. }
    assert (Hok1 : forall tracked,
               (forall p, In p tracked ->
                          In p installedSkills \/ p = (frontmatter_name skill, agentName)) ->
               request_calls_ok sc
                 (evs0 ++ [AgentInstall agent' (frontmatter_name skill) sc]) tracked).
    { intros tracked Hsub. destruct Hok as (Hall & Hno & Hin). split; [ | split ].
      - rewrite forallb_app, Hall. cbn [forallb]. by rewrite Hev.
      - rewrite forallb_app, Hno. reflexivity.
      - intros nm a a' Hl Hg. apply in_or_app.
        destruct (Hsub _ Hl) as [Hl' | [= -> ->]].
        + left. by apply (Hin nm a a').
        + right. left. congruence. }
    destruct ri as [[] | e].
    + unfold bind at 1. unfold Date_now, gets at 1. unfold bind at 1. rewrite attempt_eq.
      match goal with
      | |- context [addSkillRecord ?rec w1] => set (record := rec)
      end.
      pose proof (frames_addSkillRecord record w1 _ _ (surjective_pairing _)) as Hfr.
      destruct (sf_trace _ _ Hfr) as (evs1 & Htr2 & Hev1).
      destruct (store_events_ok sc evs1 Hev1) as [Hse1 Hse2].
      assert (Hok2 : request_calls_ok sc
                       ((evs0 ++ [AgentInstall agent' (frontmatter_name skill) sc]) ++ evs1)
                       (installedSkills ++ [(frontmatter_name skill, agentName)])).
      { apply request_calls_ok_app; [ | exact Hse1 | exact Hse2 ].
        apply Hok1. intros p Hp. apply in_app_or in Hp as [Hp | [<- | []]]; auto. }
      assert (Htr3 : trace (snd (addSkillRecord record w1))
                     = (t0 ++ ((evs0 ++ [AgentInstall agent' (frontmatter_name skill) sc])
                               ++ evs1))%list).
      { rewrite Htr2, Htr1. by rewrite <- !app_assoc. }
      destruct (fst (addSkillRecord record w1)) as [[] | e].
      * apply (IH _ _ t0 _ r w' Htr3 Hok2).
      * intros [= <- <-]. eexists _, _, _. split; [ reflexivity | ].
        split; [ exact Htr3 | exact Hok2 ].
    + intros [= <- <-]. eexists _, _, _. split; [ reflexivity | ].
      split; [ exact Htr1 | ]. apply Hok1. auto.
Qed.

Lemma install_skills_calls context skillPath sc selectedAgents selectedSkills :
  forall installedSkills w t0 evs0 r w',
    trace w = (t0 ++ evs0)%list ->
    request_calls_ok sc evs0 installedSkills ->
    install_skills context skillPath sc selectedSkills selectedAgents installedSkills w
    = (r, w') ->
    exists installedSkills' err evs,
      r = Ok (installedSkills', err)
      /\ trace w' = (t0 ++ evs)%list
      /\ request_calls_ok sc evs installedSkills'.
Proof.
  induction selectedSkills as [| skillInfo rest IH];
    intros installedSkills w t0 evs0 r w' Htr Hok.
  - intros [= <- <-]. by exists installedSkills, None, evs0.
  - cbn [install_skills]. unfold bind at 1, loadSkillFromDir, bind, gets, ret.
    destruct (skillSources w !! info_path skillInfo) as [skill |];
      [ | apply (IH installedSkills w t0 evs0 r w' Htr Hok) ].
    destruct (install_to_agents context skillPath sc skill skillInfo selectedAgents
                installedSkills w) as [r1 w1] eqn:E1.
    destruct (install_to_agents_calls _ _ _ _ _ _ _ _ _ _ _ _ Htr Hok E1)
      as (installed1 & err1 & evs1 & -> & Htr1 & Hok1).
    destruct err1 as [e |].
    + intros [= <- <-]. by eexists _, _, _.
    + apply (IH installed1 w1 t0 evs1 r w' Htr1 Hok1).
Qed.

Lemma rollback_calls sc installedSkills :
  forall w t0 evs0 evsr tracked,
    trace w = (t0 ++ evs0 ++ evsr)%list ->
    request_calls_ok sc evs0 tracked ->
    (forall p, In p installedSkills -> In p tracked) ->
    forallb (request_event_ok sc) evsr = true ->
    (forall ag nm, In (AgentUninstall ag nm sc) evsr -> In (AgentInstall ag nm sc) evs0) ->
    exists evsr',
      trace (snd (rollback sc installedSkills w)) = (t0 ++ evs0 ++ evsr')%list
      /\ forallb (request_event_ok sc) evsr' = true
      /\ forall ag nm, In (AgentUninstall ag nm sc) evsr' -> In (AgentInstall ag nm sc) evs0.
Proof.
  induction installedSkills as [| [nm agentName] rest IH];
    intros w t0 evs0 evsr tracked Htr Hok Hsub Hokr Hun.
  - by exists evsr.
  - cbn [rollback]. unfold bind at 1.
    destruct (getAgent agentName) as [agent' |] eqn:Hag.
    + unfold try_catch, bind at 1. rewrite uninstallSkill_eq.
      set (w1 := emit (AgentUninstall agent' nm sc) w).
      assert (Hev : request_event_ok sc (AgentUninstall agent' nm sc) = true).
      { unfold request_event_ok.
        by rewrite InstallScope_eqb_refl, (getAgent_registered _ _ Hag). }
      assert (Hinst : In (AgentInstall agent' nm sc) evs0).
      { destruct Hok as (_ & _ & Hin). apply (Hin nm agentName agent'); [ | exact Hag ].
        apply Hsub. by left. }
      assert (Hgo : forall w2, trace w2 = trace w1 ->
                exists evsr',
                  trace (snd (rollback sc rest w2)) = (t0 ++ evs0 ++ evsr')%list
                  /\ forallb (request_event_ok sc) evsr' = true
                  /\ forall ag nm', In (AgentUninstall ag nm' sc) evsr' ->
                                    In (AgentInstall ag nm' sc) evs0).
      { intros w2 Htr2.
        apply (IH w2 t0 evs0 (evsr ++ [AgentUninstall agent' nm sc])%list tracked).
        - rewrite Htr2. cbn. rewrite Htr. by rewrite <- !app_assoc.
        - exact Hok.
        - intros p Hp. apply Hsub. by right.
        - rewrite forallb_app, Hokr. cbn [forallb]. by rewrite Hev.
        - intros ag nm' Hin. apply in_app_or in Hin as [Hin | [[= <- <-] | []]];
            [ by apply Hun | exact Hinst ]. }
      destruct (decide ((agent', sc, nm) ∈ skillDirs w));
        [ destruct (decide (agent' ∈ brokenTargets w)) | ]; cbn [ret]; by apply Hgo.
    + unfold ret. apply (IH w t0 evs0 evsr tracked Htr Hok); [ | exact Hokr | exact Hun ].
      intros p Hp. apply Hsub. by right.
Qed.

(** X21.  The calls an install request makes on the agents.  Whatever the
    outcome, every [installSkill] and [uninstallSkill] of the request is
    for a registered agent and the scope of the request; every skill handed
    to [installSkill] has a name that passes [validateSkillName]; and the
    rollback calls [uninstallSkill] only for a skill and an agent that the
    request has handed to [installSkill] before. *)
Theorem install_request_calls_are_validated
    (context : InstallContext) (skillPath : option string) (sc : InstallScope)
    (selectedSkills : list SkillInfo) (selectedAgents : list string)
    (w w' : World) (r : Result unit) :
  installFromGitHub_install context skillPath sc selectedSkills selectedAgents w = (r, w') ->
  exists evs,
    trace w' = (trace w ++ evs)%list
    /\ forallb (request_event_ok sc) evs = true
    /\ forall ag nm, In (AgentUninstall ag nm sc) evs -> In (AgentInstall ag nm sc) evs.
Proof.
  unfold installFromGitHub_install. unfold bind at 1.
  destruct (install_skills context skillPath sc selectedSkills selectedAgents [] w)
    as [r1 w1] eqn:E1.
  assert (Hok0 : request_calls_ok sc [] []).
  { split; [ reflexivity | ]. split; [ reflexivity | intros ? ? ? [] ]. }
  destruct (install_skills_calls _ _ _ _ _ _ _ (trace w) [] _ _
              (eq_sym (app_nil_r _)) Hok0 E1)
    as (installed1 & err1 & evs1 & -> & Htr1 & Hok1).
  assert (Hnone : forall ag nm, ~ In (AgentUninstall ag nm sc) evs1).
  { intros ag nm Hin. destruct Hok1 as (_ & Hno & _).
    rewrite forallb_forall in Hno. by specialize (Hno _ Hin). }
  destruct err1 as [err |].
  - unfold bind at 1.
    destruct (rollback_calls sc installed1 w1 (trace w) evs1 [] installed1) as
      (evsr & Htr2 & Hokr & Hun); [ by rewrite app_nil_r | exact Hok1 | auto | reflexivity
                                  | intros ? ? [] | ].
    assert (Htr3 : trace (snd ((if Nat.ltb 0 (List.length installed1)
                                then rollback sc installed1 else ret tt) w1))
                   = (trace w ++ evs1 ++ evsr)%list).
    { destruct installed1 as [| p l]; [ | exact Htr2 ]. cbn in Htr2 |- *. exact Htr2. }
    destruct ((if Nat.ltb 0 (List.length installed1) then rollback sc installed1 else ret tt) w1)
      as [[[] | e] w2]; cbn [snd] in Htr3; intros [= <- <-];
      (exists (evs1 ++ evsr)%list; split; [ exact Htr3 | ]; split;
       [ rewrite forallb_app, Hokr; destruct Hok1 as (-> & _); reflexivity | ];
       intros ag nm Hin; apply in_or_app; left;
       apply in_app_or in Hin as [Hin | Hin]; [ by destruct (Hnone ag nm) | by apply Hun ]).
  - intros [= <- <-]. exists evs1. split; [ exact Htr1 | ].
    split; [ apply Hok1 | ]. intros ag nm Hin. by destruct (Hnone ag nm).
Qed.

Lemma install_request_calls_are_validated_witness :
  exists evs,
    trace (snd (install_request world_install)) = evs
    /\ forallb (request_event_ok project) evs = true.
Proof.
  destruct (install_request world_install) as [r w'] eqn:E.
  destruct (install_request_calls_are_validated _ _ _ _ _ _ _ _ E) as (evs & Htr & Hok & _).
  exists evs. split; [ | exact Hok ]. cbn [snd]. rewrite Htr. reflexivity.
Defined.

(** ** Uninstalling from all agents *)





(** ** A holder that cannot be signalled *)

(** X6.  On a platform other than win32 a marker is honoured only while
    [process.kill(pid, 0)] returns.  When the holder runs but the call
    throws EPERM (a process of another user), [isProcessRunning] answers
    [false]: [acquireLock] removes the fresh marker of that running process
    and takes the lock at once. *)
Theorem unsignalable_holder_marker_is_taken
    (w : World) (content : string) (lockInfo : LockInfo) (z : Z) :
  lockFile w = Some content -> configDir w = true ->
  parseLockInfo content = Some lockInfo ->
  Qeq_bool (pid lockInfo) (inject_Z (process_pid w)) = false ->
  platform w = posix ->
  Qint (pid lockInfo) = Some z -> processTable w z = NotPermitted ->
  fst (isProcessRunning (pid lockInfo) w) = Ok false
  /\ exists w',
       acquireLock w = (Ok true, w')
       /\ lockFile w' = Some (own_marker w)
       /\ clock w' = clock w
       /\ trace w'
          = (trace w ++ [FsWriteExcl LockFile; FsRead LockFile; FsUnlink LockFile;
                         FsWriteExcl LockFile])%list.
Proof.
  intros Hl Hd Hp Hq Hpf Hz Hperm.
  assert (Hal : processAlive w (pid lockInfo) = false).
  { unfold processAlive. rewrite Hpf, Hz, Hperm.
    destruct (Qle_bool (pid lockInfo) 0); [ reflexivity | ].
    by destruct ((- 2147483648 <=? z) && (z <=? 2147483647)). }
  split; [ by rewrite isProcessRunning_eq, Hal | ].
  assert (Ha : abandoned lockInfo w = true) by (unfold abandoned; by rewrite Hal).
  rewrite (acquireLock_abandoned w content lockInfo Hl Hd Hp Hq Ha).
  eexists. split; [ reflexivity | ]. cbn. rewrite <- !app_assoc. auto.
Qed.

Lemma unsignalable_holder_marker_is_taken_witness :
  exists w',
    acquireLock world_foreign_holder = (Ok true, w')
    /\ lockFile w' = Some (stringify_lock 77 1700000000000).
Proof.
  destruct (unsignalable_holder_marker_is_taken world_foreign_holder
              (stringify_lock 4242 1699999999000)
              {| pid := 4242; timestamp := 1699999999000 |} 4242
              eq_refl eq_refl eq_refl eq_refl eq_refl eq_refl eq_refl)
    as (_ & w' & Hrun & Hl & _).
  exists w'. split; [ exact Hrun | exact Hl ].
Defined.

(** ** The names [validateSkillName] accepts *)

Lemma length_name_chars nm : List.length (name_chars nm) = String.length nm.
Proof.
  unfold name_chars. induction nm as [| c nm IH]; [ reflexivity | ].
  cbn [list_ascii_of_string List.length String.length]. by rewrite IH.
Qed.

Lemma is_lower_not_hyphen c : is_lower c = true -> Ascii.eqb c "-" = false.
Proof.
  intros H. destruct (Ascii.eqb c "-") eqn:E; [ | reflexivity ].
  apply Ascii.eqb_eq in E. subst c. discriminate H.
Qed.

Lemma is_digit_not_hyphen c : is_digit c = true -> Ascii.eqb c "-" = false.
Proof.
  intros H. destruct (Ascii.eqb c "-") eqn:E; [ | reflexivity ].
  apply Ascii.eqb_eq in E. subst c. discriminate H.
Qed.

Lemma code_45 c : (code c =? 45) = Ascii.eqb c "-".
Proof.
  destruct (Ascii.eqb c "-") eqn:E.
  - apply Ascii.eqb_eq in E. by subst c.
  - apply Z.eqb_neq. intros H. apply Ascii.eqb_neq in E. apply E.
    apply code_inj. exact H.
Qed.

(** The last character is a letter or a digit exactly when it is a
    character of a name and no hyphen. *)
Lemma last_char_ok c :
  is_lower c || is_digit c = is_skill_name_char c && negb (Ascii.eqb c "-").
Proof.
  unfold is_skill_name_char. rewrite code_45.
  destruct (is_lower c) eqn:El; [ by rewrite (is_lower_not_hyphen c El) | ].
  destruct (is_digit c) eqn:Ed; [ by rewrite (is_digit_not_hyphen c Ed) | ].
  cbn. by destruct (Ascii.eqb c "-").
Qed.

Lemma forallb_removelast_last {A} (p : A -> bool) (l : list A) (d : A) :
  l <> [] -> forallb p l = forallb p (removelast l) && p (List.last l d).
Proof.
  intros Hne. rewrite (app_removelast_last d Hne) at 1.
  rewrite forallb_app. cbn. by rewrite andb_true_r.
Qed.

Lemma last_cons_nonempty {A} (x d d' : A) (l : list A) :
  l <> [] -> List.last (x :: l) d = List.last l d'.
Proof.
  revert x. induction l as [| y l IH]; intros x Hne; [ congruence | ].
  destruct l as [| y' l']; [ reflexivity | ].
  change (List.last (x :: y :: y' :: l') d) with (List.last (y :: y' :: l') d).
  rewrite (IH y) by discriminate.
  change (List.last (y :: y' :: l') d') with (List.last (y' :: l') d'). reflexivity.
Qed.

Lemma skill_name_regex_spec nm :
  skill_name_regex nm
  = forallb is_skill_name_char (name_chars nm)
    && match name_chars nm with
       | c :: _ => is_lower c
       | [] => false
       end
    && negb (Ascii.eqb (List.last (name_chars nm) "a"%char) "-").
Proof.
  unfold skill_name_regex, name_chars.
  destruct (list_ascii_of_string nm) as [| c rest]; [ reflexivity | ].
  destruct rest as [| r rs].
  - cbn [forallb List.last]. unfold is_skill_name_char at 1.
    destruct (is_lower c) eqn:El; [ | by rewrite !andb_false_r ].
    by rewrite (is_lower_not_hyphen c El).
  - rewrite (last_cons_nonempty c "a"%char c (r :: rs)) by discriminate.
    change (forallb is_skill_name_char (c :: r :: rs))
      with (is_skill_name_char c && forallb is_skill_name_char (r :: rs)).
    rewrite (forallb_removelast_last is_skill_name_char (r :: rs) c) by discriminate.
    cbv zeta. rewrite last_char_ok.
    set (body := forallb is_skill_name_char (removelast (r :: rs))).
    set (lst := List.last (r :: rs) c).
    destruct (is_lower c) eqn:El.
    + assert (Hc : is_skill_name_char c = true)
        by (unfold is_skill_name_char; by rewrite El).
      rewrite Hc.
      by destruct body, (is_skill_name_char lst), (negb (Ascii.eqb lst "-")).
    + by destruct (is_skill_name_char c), body, (is_skill_name_char lst),
        (negb (Ascii.eqb lst "-")).
Qed.

(** X18.  [validateSkillName] accepts exactly the names of 1 to 64 characters
    from [a-z0-9-] that start with a letter, do not end with a hyphen and
    have no two hyphens in a row.  So a name it accepts holds no path
    separator and no dot: it names a directory directly under the skill
    directory of an agent. *)
Theorem validateSkillName_accepts_plain_names (nm : string) :
  (validateSkillName nm = None <-> well_formed_skill_name nm = true)
  /\ (validateSkillName nm = None ->
      forall c, In c (name_chars nm) ->
                c <> "/"%char /\ c <> "\"%char /\ c <> "."%char /\ is_upper c = false).
Proof.
  assert (Hiff : validateSkillName nm = None <-> well_formed_skill_name nm = true).
  { unfold validateSkillName, well_formed_skill_name.
    rewrite skill_name_regex_spec, length_name_chars.
    destruct (Nat.eqb (String.length nm) 0) eqn:H0.
    { apply Nat.eqb_eq in H0.
      replace (Nat.leb 1 (String.length nm)) with false
        by (symmetry; apply Nat.leb_gt; lia).
      cbn [andb]. split; intros H; discriminate H. }
    apply Nat.eqb_neq in H0.
    replace (Nat.leb 1 (String.length nm)) with true by (symmetry; apply Nat.leb_le; lia).
    destruct (64 <? Z.of_nat (String.length nm)) eqn:H64.
    { apply Z.ltb_lt in H64.
      replace (Nat.leb (String.length nm) 64) with false
        by (symmetry; apply Nat.leb_gt; lia).
      cbn [andb]. split; intros H; discriminate H. }
    apply Z.ltb_ge in H64.
    replace (Nat.leb (String.length nm) 64) with true by (symmetry; apply Nat.leb_le; lia).
    cbn [andb].
    destruct (forallb is_skill_name_char (name_chars nm)
              && match name_chars nm with
                 | c :: _ => is_lower c
                 | [] => false
                 end
              && negb (Ascii.eqb (List.last (name_chars nm) "a"%char) "-"));
      cbn [negb andb]; [ | split; intros H; discriminate H ].
    destruct (includes_double_hyphen nm); cbn [negb]; split; intros H;
      first [ discriminate H | reflexivity ]. }
  split; [ exact Hiff | ].
  intros Hok c Hin. apply Hiff in Hok. unfold well_formed_skill_name in Hok.
  repeat (apply andb_prop in Hok as [Hok ?]).
  assert (Hc : is_skill_name_char c = true).
  { match goal with
    | H : forallb is_skill_name_char _ = true |- _ => rewrite forallb_forall in H; by apply H
    end. }
  repeat split; try (intros ->; discriminate Hc).
  unfold is_skill_name_char, is_lower, is_digit, is_upper in *.
  destruct (65 <=? code c) eqn:E1; [ | reflexivity ].
  destruct (code c <=? 90) eqn:E2; [ | reflexivity ].
  apply Z.leb_le in E1, E2.
  apply orb_prop in Hc as [Hc | Hc]; [ apply orb_prop in Hc as [Hc | Hc] | ].
  - apply andb_prop in Hc as [Hc _]. apply Z.leb_le in Hc. lia.
  - apply andb_prop in Hc as [_ Hc]. apply Z.leb_le in Hc. lia.
  - apply Z.eqb_eq in Hc. lia.
Qed.

Lemma validateSkillName_accepts_plain_names_witness :
  validateSkillName "pdf-tools" = None
  /\ validateSkillName "../etc" <> None
  /\ validateSkillName "pdf--tools" <> None.
Proof.
  split; [ | split ].
  - apply (proj1 (validateSkillName_accepts_plain_names "pdf-tools")). reflexivity.
  - intros H. apply (proj1 (validateSkillName_accepts_plain_names "../etc")) in H.
    discriminate H.
  - intros H. apply (proj1 (validateSkillName_accepts_plain_names "pdf--tools")) in H.
    discriminate H.
Defined.

(** ** The discovery of skill directories *)








(** ** An install request while the lock is held *)

Lemma attempt_throw (m : M unit) w e w' : m w = (Throw e, w') -> attempt m w = (Ok (Some e), w').
Proof. intros H. unfold attempt, try_catch, bind. by rewrite H. Qed.

(** X23.  An install request while another process, which runs, holds a fresh
    lock.  The skill directory of the first selected skill and agent is
    written, the record cannot be written, and the request ends there: the
    lock error is thrown after the timeout, the rollback removes the skill
    directory (also when it existed before the request), and manifest.json
    and the marker of the holder are what they were. *)
Theorem install_under_held_lock_is_rolled_back
    (context : InstallContext) (skillPath : option string) (sc : InstallScope)
    (skillInfo : SkillInfo) (moreSkills : list SkillInfo)
    (agentName agent' : string) (moreAgents : list string)
    (skill : ParsedSkill) (content : string) (lockInfo : LockInfo) (w : World) :
  skillSources w !! info_path skillInfo = Some skill -> validateSkill skill = [] ->
  getAgent agentName = Some agent' -> agent' ∉ brokenTargets w ->
  lockFile w = Some content -> parseLockInfo content = Some lockInfo ->
  Qeq_bool (pid lockInfo) (inject_Z (process_pid w)) = false ->
  processAlive w (pid lockInfo) = true ->
  Qeq_bool (timestamp lockInfo) 0 = false ->
  (inject_Z (clock w + LOCK_TIMEOUT_MS) - timestamp lockInfo <= inject_Z LOCK_STALE_MS)%Q ->
  exists w',
    installFromGitHub_install context skillPath sc (skillInfo :: moreSkills)
      (agentName :: moreAgents) w
    = (Throw lock_error, w')
    /\ skillDirs w' = skillDirs w ∖ {[ (agent', sc, frontmatter_name skill) ]}
    /\ manifestFile w' = manifestFile w
    /\ lockFile w' = Some content
    /\ LOCK_TIMEOUT_MS <= clock w' - clock w.
Proof.
  intros Hsrc Hvalid Hag Hnb Hl Hp Hq Hal Hz Hfresh.
  set (w1 := set_skillDirs ({[ (agent', sc, frontmatter_name skill) ]} ∪ skillDirs w)
               (emit (AgentInstall agent' (frontmatter_name skill) sc) w)).
  destruct (acquireLock_held_times_out w1 content lockInfo Hl Hp Hq Hal Hz Hfresh)
    as (w2 & Hacq & Hl2 & Ht2).
  pose proof (keeps_acquireLock _ _ _ Hacq) as Hfr.
  assert (Hloop : install_skills context skillPath sc (skillInfo :: moreSkills)
                    (agentName :: moreAgents) [] w
                  = (Ok ([(frontmatter_name skill, agentName)], Some lock_error), w2)).
  { cbn [install_skills]. unfold bind at 1, loadSkillFromDir, bind at 1, gets, ret.
    rewrite Hsrc. unfold bind at 1. cbn [install_to_agents]. rewrite Hag, Hvalid.
    unfold bind at 1.
    rewrite (attempt_ok _ _ _ (installSkill_ok agent' skill _ sc w skill Hsrc Hnb)).
    fold w1. unfold bind at 1. unfold Date_now, gets at 1. unfold bind at 1.
    erewrite attempt_throw; [ reflexivity | ].
    unfold addSkillRecord. by apply withLock_timeout. }
  unfold installFromGitHub_install. unfold bind at 1. rewrite Hloop.
  cbn [List.length Nat.ltb Nat.leb rollback]. rewrite Hag.
  unfold bind, try_catch, ret. rewrite uninstallSkill_eq.
  assert (Hd2 : skillDirs w2 = {[ (agent', sc, frontmatter_name skill) ]} ∪ skillDirs w)
    by apply (lf_skillDirs _ _ Hfr).
  assert (Hb2 : brokenTargets w2 = brokenTargets w) by apply (lf_brokenTargets _ _ Hfr).
  destruct (decide ((agent', sc, frontmatter_name skill) ∈ skillDirs w2)) as [_ | Hno].
  - destruct (decide (agent' ∈ brokenTargets w2)) as [Hb | _];
      [ rewrite Hb2 in Hb; contradiction | ].
    eexists. split; [ reflexivity | ]. cbn.
    split.
    { rewrite Hd2. apply set_eq. intros d.
      rewrite !elem_of_difference, elem_of_union, elem_of_singleton. tauto. }
    split; [ apply (lf_manifestFile _ _ Hfr) | ]. split; [ exact Hl2 | exact Ht2 ].
  - exfalso. apply Hno. rewrite Hd2. apply elem_of_union. left. by apply elem_of_singleton.
Qed.

Lemma install_under_held_lock_is_rolled_back_witness :
  exists w',
    installFromGitHub_install
      {| owner := "anthropics"; repo := "skills"; ctx_commitHash := "abc123" |}
      None project
      [ {| info_name := "pdf"; info_path := "/home/u/.openskill/skills/anthropics-skills/pdf" |} ]
      ["claude"] world_install_held
    = (Throw lock_error, w')
    /\ skillDirs w' = skillDirs world_install_held ∖ {[ ("claude", project, "pdf") ]}.
Proof.
  destruct (install_under_held_lock_is_rolled_back
              {| owner := "anthropics"; repo := "skills"; ctx_commitHash := "abc123" |}
              None project
              {| info_name := "pdf";
                 info_path := "/home/u/.openskill/skills/anthropics-skills/pdf" |} []
              "claude" "claude" [] pdf_skill (stringify_lock 4242 1699999999000)
              {| pid := 4242; timestamp := 1699999999000 |} world_install_held
              eq_refl eq_refl eq_refl)
    as (w' & Hrun & Hd & _); try reflexivity.
  - apply not_elem_of_empty.
  - vm_compute. discriminate.
  - exists w'. split; [ exact Hrun | exact Hd ].
Defined.
